(** * Query understanding and ranking engine of the web navigator backend

    A shallow embedding of
      - [backend/app/services/utils.py]        (attribute extraction from titles),
      - [backend/app/agents/parser_agent.py]   (constraint parsing of a query),
      - [backend/app/services/scoring.py]      (attribute match, score, dedup, rank),
      - [backend/app/graph/nodes.py] and
        [backend/app/pipelines/search_pipeline.py] (the parser node and its seed),
    followed by the properties the specification states about them.

    Modelling conventions.
      - Text is ASCII: a Python [str] is a [string]; code points above 127 are
        neither letters, digits nor blanks here.
      - A Python [float] is an exact rational ([Q]); rounding, infinities and
        NaN are outside the model, and so is the overflow of a conversion
        from [int].  A Python [int] is a [Z].
      - [re] patterns are terms of [regex], run by a backtracking matcher with
        the priorities of Python's engine (leftmost start, greedy quantifiers,
        alternatives in order).
      - Library functions whose code is not part of the repository
        ([rapidfuzz.fuzz.token_set_ratio], [math.tanh], the builtin [float] on
        text) are parameters, gathered in the class [Runtime]. *)

From Stdlib Require Import ZArith QArith Qabs Lqa Lia Bool List Ascii String Sorted Permutation.
From Stdlib Require Import Qround Decimal DecimalString DecimalN.
From stdpp Require Import gmap strings list fin_maps.

Local Open Scope string_scope.

(** Let [simpl] unfold [++] on text whose head is known. *)
Arguments String.append !s1 s2 : simpl nomatch.

(* ===================================================================== *)
(** * Characters and text *)
(* ===================================================================== *)

Module Text.

Definition code (c : ascii) : N := N_of_ascii c.

Definition in_range (lo hi : N) (c : ascii) : bool :=
  (lo <=? code c)%N && (code c <=? hi)%N.

(** [\d] on ASCII text. *)
Definition is_digit (c : ascii) : bool := in_range 48 57 c.

Definition is_upper (c : ascii) : bool := in_range 65 90 c.
Definition is_lower (c : ascii) : bool := in_range 97 122 c.

(** [\w] on ASCII text: letters, digits and the underscore. *)
Definition is_word (c : ascii) : bool :=
  is_digit c || is_upper c || is_lower c || (code c =? 95)%N.

(** [\s] and [str.isspace]: tab, LF, VT, FF, CR, the separators FS..US and
    the blank. *)
Definition is_space (c : ascii) : bool :=
  in_range 9 13 c || in_range 28 31 c || (code c =? 32)%N.

(** [str.lower] on one character. *)
Definition lower_char (c : ascii) : ascii :=
  if is_upper c then ascii_of_N (code c + 32) else c.

(** [str.lower]. *)
Fixpoint lower (s : string) : string :=
  match s with
  | EmptyString => EmptyString
  | String c s' => String (lower_char c) (lower s')
  end.

(** [str.lstrip], [str.rstrip], [str.strip] with no argument. *)
Fixpoint lstrip (s : string) : string :=
  match s with
  | EmptyString => EmptyString
  | String c s' => if is_space c then lstrip s' else s
  end.

Fixpoint rstrip (s : string) : string :=
  match s with
  | EmptyString => EmptyString
  | String c s' =>
      match rstrip s' with
      | EmptyString => if is_space c then EmptyString else String c EmptyString
      | r => String c r
      end
  end.

Definition strip (s : string) : string := rstrip (lstrip s).

(** [s.startswith(w)]. *)
Fixpoint starts_with (w s : string) : bool :=
  match w, s with
  | EmptyString, _ => true
  | String a w', String b s' => Ascii.eqb a b && starts_with w' s'
  | String _ _, EmptyString => false
  end.

(** [w in s] on text: [w] occurs in [s] as a contiguous substring. *)
Fixpoint contains (w s : string) : bool :=
  starts_with w s ||
  match s with
  | EmptyString => false
  | String _ s' => contains w s'
  end.

(** [s.replace(c, e)] for a single character [c] and the empty string [e]. *)
Fixpoint remove_char (c : ascii) (s : string) : string :=
  match s with
  | EmptyString => EmptyString
  | String x s' => if Ascii.eqb x c then remove_char c s' else String x (remove_char c s')
  end.

(** The first [n] characters of [s]. *)
Fixpoint take (n : nat) (s : string) : string :=
  match n, s with
  | S n', String c s' => String c (take n' s')
  | _, _ => EmptyString
  end.

(** Truth value of a [str]: non-empty. *)
Definition truthy (s : string) : bool :=
  match s with EmptyString => false | String _ _ => true end.

(** [int(s)] on a string of decimal digits (the only strings the parser feeds
    to it); a non-digit ends the number. *)
Fixpoint int_of_digits_acc (acc : Z) (s : string) : Z :=
  match s with
  | EmptyString => acc
  | String c s' =>
      if is_digit c
      then int_of_digits_acc (10 * acc + Z.of_N (code c - 48)) s'
      else acc
  end.

Definition int_of_digits (s : string) : Z := int_of_digits_acc 0 s.

End Text.

(* ===================================================================== *)
(** * Regular expressions ([re] with the flag [re.I]) *)
(* ===================================================================== *)

Module Regex.
Import Text.

(** The fragment of pattern syntax the program uses.  Quantifiers are greedy,
    as written in the source; every quantified item of the source is either a
    character class ([Rep]) or optional ([Opt]).  Each pattern has exactly one
    capture group. *)
Inductive regex : Type :=
| Eps                                                   (* empty pattern *)
| Lit (c : ascii)                                       (* a literal, case-insensitive *)
| Cls (p : ascii -> bool)                               (* one character of a class *)
| Rep (p : ascii -> bool) (lo : nat) (hi : option nat)  (* class{lo,hi}; [None] is unbounded *)
| Cat (r1 r2 : regex)
| Alt (r1 r2 : regex)                                   (* r1|r2, r1 tried first *)
| Opt (r : regex)                                       (* (?:r)? *)
| WordB                                                 (* \b *)
| Grp (r : regex).                                      (* (r), group 1 *)

(** Position of the matcher: the character just before the cursor (if any),
    the text from the cursor on, the number of characters between the start
    of the match and the cursor, and what group 1 holds so far. *)
Record mstate : Type := MState {
  prev : option ascii;
  rest : string;
  pos : nat;
  grp1 : option string
}.

(** The cursor moved over the character [x], [s] being what follows it. *)
Definition advance (st : mstate) (x : ascii) (s : string) : mstate :=
  MState (Some x) s (S (pos st)) (grp1 st).

Definition word_before (st : mstate) : bool :=
  match prev st with Some c => is_word c | None => false end.

Definition word_after (st : mstate) : bool :=
  match rest st with String c _ => is_word c | EmptyString => false end.

(** [\b]: exactly one side of the cursor is a word character. *)
Definition at_boundary (st : mstate) : bool := xorb (word_before st) (word_after st).

Definition hi_allows (hi : option nat) : bool :=
  match hi with Some O => false | _ => true end.

(** Greedy repetition of a class: take one more character when possible and
    fall back to stopping here when the rest of the pattern fails. *)
Fixpoint rep {A : Type} (p : ascii -> bool) (lo : nat) (hi : option nat)
    (pv : option ascii) (s : string) (n : nat) (g : option string)
    (k : mstate -> option A) : option A :=
  let stop := match lo with O => k (MState pv s n g) | S _ => None end in
  match s with
  | String c s' =>
      if p c && hi_allows hi
      then match rep p (Nat.pred lo) (Nat.pred <$> hi) (Some c) s' (S n) g k with
           | Some a => Some a
           | None => stop
           end
      else stop
  | EmptyString => stop
  end.

(** Backtracking matcher in continuation-passing style: [rmatch r st k] runs
    [r] at [st] and hands every way of matching it, in priority order, to the
    rest of the pattern [k] until one succeeds. *)
Fixpoint rmatch {A : Type} (r : regex) (st : mstate) (k : mstate -> option A) : option A :=
  match r with
  | Eps => k st
  | Lit c =>
      match rest st with
      | String x s' =>
          if Ascii.eqb (lower_char x) (lower_char c)
          then k (advance st x s') else None
      | EmptyString => None
      end
  | Cls p =>
      match rest st with
      | String x s' => if p x then k (advance st x s') else None
      | EmptyString => None
      end
  | Rep p lo hi => rep p lo hi (prev st) (rest st) (pos st) (grp1 st) k
  | Cat r1 r2 => rmatch r1 st (fun st' => rmatch r2 st' k)
  | Alt r1 r2 =>
      match rmatch r1 st k with
      | Some a => Some a
      | None => rmatch r2 st k
      end
  | Opt r' =>
      match rmatch r' st k with
      | Some a => Some a
      | None => k st
      end
  | WordB => if at_boundary st then k st else None
  | Grp r' =>
      rmatch r' st (fun st' =>
        k (MState (prev st') (rest st') (pos st')
             (Some (take (pos st' - pos st) (rest st)))))
  end.

(** [rx.search(text)]: the first start position, left to right, at which the
    pattern matches; the end of the text is a start position too. *)
Fixpoint search_from (r : regex) (pv : option ascii) (s : string) : option mstate :=
  match rmatch r (MState pv s 0 None) Some with
  | Some st => Some st
  | None =>
      match s with
      | String c s' => search_from r (Some c) s'
      | EmptyString => None
      end
  end.

Definition search (r : regex) (text : string) : option mstate := search_from r None text.

(** [m.group(1) if m else None]. *)
Definition first_group (r : regex) (text : string) : option string :=
  search r text ≫= grp1.

(** Pattern builders. *)
Fixpoint lit (w : string) : regex :=
  match w with
  | EmptyString => Eps
  | String c EmptyString => Lit c
  | String c w' => Cat (Lit c) (lit w')
  end.

Definition seq (rs : list regex) : regex := foldr Cat Eps rs.

Definition digits (lo : nat) (hi : option nat) : regex := Rep is_digit lo hi.  (* \d{lo,hi} *)
Definition spaces : regex := Rep is_space 0 None.                              (* \s* *)

End Regex.

(* ===================================================================== *)
(** * Library functions *)
(* ===================================================================== *)

(** Functions of Python and of its libraries which the program calls and whose
    code is not part of the repository.
      - [token_set_ratio]: [rapidfuzz.fuzz.token_set_ratio], a similarity on a
        scale from 0 to 100;
      - [tanh]: [math.tanh];
      - [float_of_str]: the builtin [float] on text, [None] where it raises
        [ValueError] or yields no finite number. *)
Class Runtime : Type := {
  token_set_ratio : string -> string -> Q;
  tanh : Q -> Q;
  float_of_str : string -> option Q
}.

(* ===================================================================== *)
(** * Attribute values *)
(* ===================================================================== *)

(** What an attribute map or a filter map holds under a key: a string, or a
    list of strings ([Dict[str, Any]] in the source, restricted to the two
    shapes the program stores). *)
Inductive value : Type :=
| VStr (s : string)
| VList (l : list string).

(** [list(dict.fromkeys(l))]: duplicates removed, first occurrences kept in
    order. *)
Fixpoint dict_fromkeys (l : list string) : list string :=
  match l with
  | [] => []
  | x :: l' => x :: filter (fun y => negb (String.eqb y x)) (dict_fromkeys l')
  end.

(** [if v: d[key] = f(v)] for an optional string [v]: nothing is stored for
    [None] and for the empty string. *)
Definition set_if_str (key : string) (v : option string)
    (d : gmap string value) : gmap string value :=
  match v with
  | Some s => if Text.truthy s then <[key := VStr s]> d else d
  | None => d
  end.

(** [if l: d[key] = list(dict.fromkeys(l))] for a list [l]. *)
Definition set_if_list (key : string) (l : list string)
    (d : gmap string value) : gmap string value :=
  match l with
  | [] => d
  | _ :: _ => <[key := VList (dict_fromkeys l)]> d
  end.

(* ===================================================================== *)
(** * services/utils.py: attributes of a listing title *)
(* ===================================================================== *)

Module Utils.
Import Text Regex.

(** [_rx_num(unit)]: [\b(\d+(?:\.\d+)?)\s*{unit}\b]. *)
Definition _rx_num (unit : string) : regex :=
  seq [WordB;
       Grp (Cat (digits 1 None) (Opt (Cat (Lit ".") (digits 1 None))));
       spaces; lit unit; WordB].

(** [\b(\d{1,2})\s*GB(?:\s*RAM)?\b] *)
Definition RX_RAM_GB : regex :=
  seq [WordB; Grp (digits 1 (Some 2)); spaces; lit "GB";
       Opt (Cat spaces (lit "RAM")); WordB].

(** [\b(\d{2,4})\s*GB\b] *)
Definition RX_STORAGE_GB : regex :=
  seq [WordB; Grp (digits 2 (Some 4)); spaces; lit "GB"; WordB].

(** [\b(\d(?:\.\d)?)\s*TB\b] *)
Definition RX_STORAGE_TB : regex :=
  seq [WordB; Grp (Cat (Cls is_digit) (Opt (Cat (Lit ".") (Cls is_digit))));
       spaces; lit "TB"; WordB].

(** [\b(\d{3,5})\s*mAh\b] *)
Definition RX_BATTERY_MAH : regex :=
  seq [WordB; Grp (digits 3 (Some 5)); spaces; lit "mAh"; WordB].

(** [\b(60|90|120|144|165|240)\s*Hz\b] *)
Definition RX_REFRESH_HZ : regex :=
  seq [WordB;
       Grp (Alt (lit "60") (Alt (lit "90") (Alt (lit "120")
              (Alt (lit "144") (Alt (lit "165") (lit "240"))))));
       spaces; lit "Hz"; WordB].

(** [\b(\d{2}(?:\.\d)?)\s*inch(?:es)?\b] *)
Definition RX_SCREEN_IN : regex :=
  seq [WordB;
       Grp (Cat (digits 2 (Some 2)) (Opt (Cat (Lit ".") (Cls is_digit))));
       spaces; lit "inch"; Opt (lit "es"); WordB].

(** [\buk\s*(\d{1,2})\b], and the same for [us] and [eu]. *)
Definition rx_size (sys : string) : regex :=
  seq [WordB; lit sys; spaces; Grp (digits 1 (Some 2)); WordB].

Definition RX_SIZE_UK : regex := rx_size "uk".
Definition RX_SIZE_US : regex := rx_size "us".
Definition RX_SIZE_EU : regex := rx_size "eu".

Definition RX_CAP_L : regex := _rx_num "l".
Definition RX_WATT : regex := _rx_num "w".

(** [\b(\d{1,3})(?:\.?\d{0,})\s*(?:L|Litre|Liters|Litres)\b], the source writing [\d{0,}] with a star. *)
Definition RX_LITRE : regex :=
  seq [WordB; Grp (digits 1 (Some 3));
       Cat (Opt (Lit ".")) (digits 0 None);
       spaces;
       Alt (lit "L") (Alt (lit "Litre") (Alt (lit "Liters") (lit "Litres")));
       WordB].

Definition CPU_TOKENS : list string :=
  ["i3"; "i5"; "i7"; "i9";
   "ryzen 3"; "ryzen 5"; "ryzen 7"; "ryzen 9";
   "m1"; "m2"; "m3"; "m4";
   "celeron"; "pentium"; "mediatek"; "snapdragon"; "exynos"; "dimensity"; "helio"].

Definition PANEL_TOKENS : list string :=
  ["oled"; "amoled"; "ips"; "tn"; "va"; "fhd"; "full hd"; "qhd"; "uhd"; "4k"; "touch"].

Definition MATERIAL_TOKENS : list string :=
  ["leather"; "synthetic"; "mesh"; "cotton"; "polyester"; "nylon"; "canvas"; "suede";
   "stainless"; "stainless steel"; "steel"; "cast iron"; "aluminium"; "aluminum";
   "ceramic"; "glass"; "bamboo"; "wood"; "nonstick"; "non-stick"].

Definition COLOR_TOKENS : list string :=
  ["black"; "white"; "silver"; "grey"; "gray"; "red"; "blue"; "green"; "yellow"; "pink";
   "purple"; "orange"; "gold"; "rose"; "beige"; "brown"; "maroon"; "navy"; "teal"].

(** [similar(a, b)]: [float(fuzz.token_set_ratio(a, b))]. *)
Definition similar `{Runtime} (a b : string) : Q := token_set_ratio a b.

Definition _first (rx : regex) (text : string) : option string := first_group rx text.

Definition _tokens_present (text : string) (vocab : list string) : list string :=
  let t := lower text in
  filter (fun v => contains v t) vocab.

(** [a or b] on optional strings. *)
Definition str_or (a b : option string) : option string :=
  match a with
  | Some s => if truthy s then a else b
  | None => b
  end.

Definition parse_generic_attrs_from_title (title : string) : gmap string value :=
  let t := lower title in
  let attrs : gmap string value := ∅ in
  let ram := _first RX_RAM_GB t in
  let attrs := set_if_str "ram_gb" ram attrs in
  let storage_tb := _first RX_STORAGE_TB t in
  let storage_gb :=
    match storage_tb with
    | Some s => if truthy s then None else _first RX_STORAGE_GB t
    | None => _first RX_STORAGE_GB t
    end in
  let attrs := set_if_str "storage_tb" storage_tb attrs in
  let attrs := set_if_str "storage_gb" storage_gb attrs in
  let attrs := set_if_str "battery_mah" (_first RX_BATTERY_MAH t) attrs in
  let attrs := set_if_str "refresh_hz" (_first RX_REFRESH_HZ t) attrs in
  let attrs := set_if_str "screen_in" (_first RX_SCREEN_IN t) attrs in
  let size_uk := _first RX_SIZE_UK t in
  let size_us := _first RX_SIZE_US t in
  let size_eu := _first RX_SIZE_EU t in
  let attrs := set_if_str "size_uk" size_uk attrs in
  let attrs := set_if_str "size_us" size_us attrs in
  let attrs := set_if_str "size_eu" size_eu attrs in
  let lit_ := str_or (_first RX_LITRE t) (_first RX_CAP_L t) in
  let attrs := set_if_str "capacity_l" lit_ attrs in
  let attrs := set_if_str "watt" (_first RX_WATT t) attrs in
  let attrs := set_if_list "cpu" (_tokens_present t CPU_TOKENS) attrs in
  let attrs := set_if_list "panel" (_tokens_present t PANEL_TOKENS) attrs in
  let attrs := set_if_list "material" (_tokens_present t MATERIAL_TOKENS) attrs in
  let attrs := set_if_list "color" (_tokens_present t COLOR_TOKENS) attrs in
  attrs.

End Utils.

(* ===================================================================== *)
(** * The constraint object *)
(* ===================================================================== *)

(** The constraint object is a Python dict with at most the keys ["budget"],
    ["category"], ["filters"] and ["keywords"].  A field is [None] when the
    dict has no such key; for the first two, [Some None] is the key bound to
    Python's [None]. *)
Record Constraints : Type := MkConstraints {
  c_budget : option (option Z);
  c_category : option (option string);
  c_filters : option (gmap string value);
  c_keywords : option (list string)
}.

(** [{}] *)
Definition empty_constraints : Constraints := MkConstraints None None None None.

(** Truth value of the dict: it has at least one key. *)
Definition dict_truthy (c : Constraints) : bool :=
  bool_decide (is_Some (c_budget c)) || bool_decide (is_Some (c_category c)) ||
  bool_decide (is_Some (c_filters c)) || bool_decide (is_Some (c_keywords c)).

(** [c.get("budget")], [c.get("category")]: [None] for a missing key as for
    a key bound to [None]. *)
Definition get_budget (c : Constraints) : option Z := mjoin (c_budget c).
Definition get_category (c : Constraints) : option string := mjoin (c_category c).

(* ===================================================================== *)
(** * agents/parser_agent.py: constraints of a query *)
(* ===================================================================== *)

Module ParserAgent.
Import Text Regex.

(** The dict [CATEGORY_KEYWORDS] in its declaration order, which is the order
    in which [.items()] yields it. *)
Definition CATEGORY_KEYWORDS : list (string * list string) :=
  [("electronics",
     ["laptop"; "notebook"; "ultrabook"; "macbook";
      "mobile"; "smartphone"; "phone"; "earbuds"; "headphones"; "camera";
      "tablet"; "ipad"; "monitor"; "tv"; "television"; "router"; "printer";
      "smartwatch"; "wearable"; "ssd"; "hdd"; "pendrive"; "power bank"]);
   ("fashion",
     ["shoes"; "sneakers"; "sandals"; "heels"; "loafers";
      "t-shirt"; "shirt"; "jeans"; "kurta"; "saree"; "hoodie"; "jacket";
      "backpack"; "bag"; "duffle"; "wallet"; "belt"]);
   ("home-kitchen",
     ["utensils"; "cookware"; "pan"; "kadhai"; "frying pan"; "pressure cooker";
      "bottle"; "flask"; "mug"; "tiffin"; "lunch box"; "container"; "plate";
      "nonstick"; "non-stick"; "induction"; "stainless"; "cutlery"]);
   ("appliances",
     ["fridge"; "refrigerator"; "washing machine"; "ac"; "air conditioner";
      "microwave"; "oven"; "chimney"; "cooler"; "geyser"; "water heater"]);
   ("sports",
     ["football"; "cricket bat"; "bat"; "ball"; "badminton"; "racket";
      "dumbbell"; "treadmill"; "yoga"; "gym bag"]);
   ("beauty",
     ["shampoo"; "conditioner"; "lotion"; "cream"; "facewash"; "makeup";
      "lipstick"; "perfume"; "deodorant"; "serum"])].

Definition BRANDS : list string :=
  ["apple"; "samsung"; "oneplus"; "xiaomi"; "redmi"; "realme"; "oppo"; "vivo";
   "dell"; "hp"; "lenovo"; "asus"; "acer"; "msi"; "lg"; "sony"; "boat"; "jbl"; "noise";
   "canon"; "nikon"; "sandisk"; "seagate"; "wd"; "western digital";
   "nike"; "adidas"; "puma"; "reebok"; "bata"; "woodland"; "zara"; "h&m"; "levis";
   "allen solly"; "us polo"; "wildcraft"; "american tourister"; "skybag"; "safari";
   "prestige"; "pigeon"; "hawkins"; "milton"; "cello"; "borosil"; "butterfly"; "vinod";
   "whirlpool"; "bosch"; "ifb"; "voltas"; "panasonic"; "hitachi"; "haier"; "godrej"].

Definition COLORS : list string :=
  ["black"; "white"; "silver"; "grey"; "gray"; "red"; "blue"; "green"; "yellow"; "pink";
   "purple"; "orange"; "gold"; "rose"; "beige"; "brown"; "maroon"; "navy"; "teal"].

Definition MATERIALS : list string :=
  ["leather"; "synthetic"; "mesh"; "cotton"; "polyester"; "nylon"; "canvas"; "suede";
   "stainless"; "stainless steel"; "steel"; "cast iron"; "aluminium"; "aluminum";
   "ceramic"; "glass"; "bamboo"; "wood"].

(** The token list of the keyword loop in [parse_constraints]. *)
Definition BONUS_TOKENS : list string :=
  ["gaming"; "lightweight"; "waterproof"; "nonstick"; "non-stick"; "induction";
   "wireless"; "bluetooth"; "noise cancelling"; "anc"; "fast charging";
   "camera"; "5g"; "4g"; "dual sim"; "backlit"; "fingerprint"].

(** [_rx_num(unit)]: [\b(\d+(?:\.\d+)?)\s*{unit}\b]. *)
Definition _rx_num (unit : string) : regex :=
  seq [WordB;
       Grp (Cat (digits 1 None) (Opt (Cat (Lit ".") (digits 1 None))));
       spaces; lit unit; WordB].

(** [under\s*(\d+)\s*k\b] *)
Definition RX_UNDER_K : regex :=
  seq [lit "under"; spaces; Grp (digits 1 None); spaces; Lit "k"; WordB].

(** The class [[0-9]] and the class [[0-9,]]. *)
Definition is_09 (c : ascii) : bool := in_range 48 57 c.
Definition is_09_comma (c : ascii) : bool := in_range 48 57 c || (code c =? 44)%N.

(** [(?:under|below|less than|<=)\s*([0-9][0-9,]{0,})], the source writing
    the last quantifier as a star. *)
Definition RX_BUDGET_ANY : regex :=
  seq [Alt (lit "under") (Alt (lit "below") (Alt (lit "less than") (lit "<=")));
       spaces;
       Grp (Cat (Cls is_09) (Rep is_09_comma 0 None))].

Definition RX_RAM_GB : regex := _rx_num "gb".
Definition RX_STORAGE_GB : regex := _rx_num "gb".
Definition RX_STORAGE_TB : regex := _rx_num "tb".

(** [\b(\d{3,5})\s*mAh\b] *)
Definition RX_BATTERY_MAH : regex :=
  seq [WordB; Grp (digits 3 (Some 5)); spaces; lit "mAh"; WordB].

Definition RX_CAP_L : regex := _rx_num "l".

(** [\buk\s*(\d{1,2})\b], and the same for [us] and [eu]. *)
Definition rx_size (sys : string) : regex :=
  seq [WordB; lit sys; spaces; Grp (digits 1 (Some 2)); WordB].

Definition RX_SIZE_UK : regex := rx_size "uk".
Definition RX_SIZE_US : regex := rx_size "us".
Definition RX_SIZE_EU : regex := rx_size "eu".

Definition _first_match (rx : regex) (text : string) : option string := first_group rx text.

Definition _contains_any (text : string) (words : list string) : list string :=
  filter (fun w => contains w text) words.

(** [m.group(1)] of a match object; group 1 takes part in every match of the
    two budget patterns. *)
Definition group1 (m : mstate) : string := default EmptyString (grp1 m).

(** The budget block.  [int(float(g) * 1000)] is the integer [g] times 1000
    in exact arithmetic, which is what the code computes as long as the
    product is at most 2^53. *)
Definition parse_budget (q : string) : option Z :=
  match search RX_UNDER_K q with
  | Some m => Some (int_of_digits (group1 m) * 1000)%Z
  | None =>
      match search RX_BUDGET_ANY q with
      | Some n => Some (int_of_digits (remove_char "," (group1 n)))
      | None => None
      end
  end.

(** The category loop: the first entry with a keyword occurring in [q]. *)
Definition parse_category (q : string) : option string :=
  fst <$> List.find (fun e => existsb (fun k => contains k q) (snd e)) CATEGORY_KEYWORDS.

(** Truth value of an optional string. *)
Definition opt_truthy (v : option string) : bool :=
  match v with Some s => truthy s | None => false end.

Definition keyword_bag (q : string) : list string :=
  _contains_any q BRANDS ++ _contains_any q COLORS ++ _contains_any q MATERIALS ++
  filter (fun token => contains token q) BONUS_TOKENS.

Definition parse_filters (q : string) : gmap string value :=
  let brands := _contains_any q BRANDS in
  let colors := _contains_any q COLORS in
  let materials := _contains_any q MATERIALS in
  let size_uk := _first_match RX_SIZE_UK q in
  let size_us := _first_match RX_SIZE_US q in
  let size_eu := _first_match RX_SIZE_EU q in
  let capacity_l := _first_match RX_CAP_L q in
  let ram_gb := if contains "gb" q then _first_match RX_RAM_GB q else None in
  let storage_tb := if contains "tb" q then _first_match RX_STORAGE_TB q else None in
  let storage_gb :=
    if contains "gb" q && negb (opt_truthy ram_gb)
    then _first_match RX_STORAGE_GB q else None in
  let battery_mah := _first_match RX_BATTERY_MAH q in
  let filters : gmap string value := ∅ in
  let filters := set_if_list "brand" brands filters in
  let filters := set_if_list "color" colors filters in
  let filters := set_if_list "material" materials filters in
  let filters := set_if_str "size_uk" size_uk filters in
  let filters := set_if_str "size_us" size_us filters in
  let filters := set_if_str "size_eu" size_eu filters in
  let filters := set_if_str "capacity_l" capacity_l filters in
  let filters := set_if_str "ram_gb" ram_gb filters in
  let filters := set_if_str "storage_tb" storage_tb filters in
  let filters := set_if_str "storage_gb" storage_gb filters in
  let filters := set_if_str "battery_mah" battery_mah filters in
  filters.

Definition parse_constraints (query : string) : Constraints :=
  let q := lower query in
  {| c_budget := Some (parse_budget q);
     c_category := Some (parse_category q);
     c_filters := Some (parse_filters q);
     c_keywords := Some (keyword_bag q) |}.

End ParserAgent.

(* ===================================================================== *)
(** * schemas.py: the normalized product *)
(* ===================================================================== *)

Module Schemas.

(** [Product], without its field [raw] (a debug payload the engine never
    reads). *)
Record Product : Type := {
  title : string;
  price : option Q;
  currency : string;
  rating : option Q;
  review_count : option Z;
  url : string;
  image : option string;
  source : string;
  category : option string;
  attrs : gmap string value
}.

End Schemas.

(* ===================================================================== *)
(** * Python's [str()] of an attribute value *)
(* ===================================================================== *)

Module PyStr.
Import Text.

Definition quote1 : ascii := ascii_of_N 39.     (* the single quote *)
Definition quote2 : ascii := ascii_of_N 34.     (* the double quote *)
Definition backslash : ascii := ascii_of_N 92.

Fixpoint has_char (c : ascii) (s : string) : bool :=
  match s with
  | EmptyString => false
  | String x s' => Ascii.eqb x c || has_char c s'
  end.

Definition hex_digit (n : N) : ascii :=
  if (n <? 10)%N then ascii_of_N (48 + n) else ascii_of_N (87 + n).

Definition one (c : ascii) : string := String c EmptyString.

(** One character inside [repr] of a string delimited by [q]. *)
Definition repr_char (q c : ascii) : string :=
  if Ascii.eqb c q || Ascii.eqb c backslash then String backslash (one c)
  else if (code c =? 9)%N then String backslash "t"
  else if (code c =? 10)%N then String backslash "n"
  else if (code c =? 13)%N then String backslash "r"
  else if (code c <? 32)%N || (code c =? 127)%N
       then String backslash (String "x"
              (String (hex_digit (code c / 16)) (one (hex_digit (code c mod 16)))))
  else one c.

Fixpoint repr_body (q : ascii) (s : string) : string :=
  match s with
  | EmptyString => EmptyString
  | String c s' => repr_char q c ++ repr_body q s'
  end.

(** [repr(s)]: single quotes, unless [s] holds a single quote and no double
    quote. *)
Definition repr (s : string) : string :=
  let q := if has_char quote1 s && negb (has_char quote2 s) then quote2 else quote1 in
  String q (repr_body q s ++ one q).

Fixpoint join (sep : string) (l : list string) : string :=
  match l with
  | [] => EmptyString
  | [x] => x
  | x :: l' => x ++ sep ++ join sep l'
  end.

(** [str(v)]. *)
Definition str (v : value) : string :=
  match v with
  | VStr s => s
  | VList l => "[" ++ join ", " (map repr l) ++ "]"
  end.

End PyStr.

(* ===================================================================== *)
(** * Python's [min], [max] and truth values on numbers *)
(* ===================================================================== *)

Module PyNum.

Local Open Scope Q_scope.

Definition Qltb (a b : Q) : bool := negb (Qle_bool b a).

(** [max(a, b)]: [b] when [b > a], else [a]. *)
Definition max (a b : Q) : Q := if Qltb a b then b else a.

(** [min(a, b)]: [b] when [b < a], else [a]. *)
Definition min (a b : Q) : Q := if Qltb b a then b else a.

(** Truth value of an optional float and of an optional int: known and
    non-zero. *)
Definition truthy_float (x : option Q) : bool :=
  match x with Some q => negb (Qeq_bool q 0) | None => false end.

Definition truthy_int (x : option Z) : bool :=
  match x with Some z => negb (z =? 0)%Z | None => false end.

(** [x or 0]. *)
Definition float_or_0 (x : option Q) : Q :=
  match x with Some q => if Qeq_bool q 0 then 0 else q | None => 0 end.

Definition int_or_0 (x : option Z) : Z := default 0%Z x.

End PyNum.

(* ===================================================================== *)
(** * services/scoring.py: attribute match, score, dedup, rank *)
(* ===================================================================== *)

Module Scoring.
Import Text Schemas.

Local Open Scope Q_scope.

Definition _normalize_str (x : option value) : string :=
  match x with
  | Some v => lower (strip (PyStr.str v))
  | None => EmptyString
  end.

(** Truth value of an attribute value: a non-empty string or list. *)
Definition value_truthy (v : value) : bool :=
  match v with
  | VStr s => truthy s
  | VList l => match l with [] => false | _ :: _ => true end
  end.

Definition opt_value_truthy (x : option value) : bool :=
  match x with Some v => value_truthy v | None => false end.

(** [_any_overlap] on two lists of strings: the sets of their normalized
    elements meet. *)
Definition _any_overlap (arr1 arr2 : list string) : bool :=
  match arr1, arr2 with
  | [], _ | _, [] => false
  | _, _ =>
      let s1 : gset string := list_to_set ((fun a => _normalize_str (Some (VStr a))) <$> arr1) in
      let s2 : gset string := list_to_set ((fun a => _normalize_str (Some (VStr a))) <$> arr2) in
      bool_decide (s1 ∩ s2 ≠ ∅)
  end.

(** [attrs.get("brand") or attrs.get("maker") or []] *)
Definition prod_brands_of (attrs : gmap string value) : value :=
  match attrs !! "brand" with
  | Some v => if value_truthy v then v else
      match attrs !! "maker" with
      | Some w => if value_truthy w then w else VList []
      | None => VList []
      end
  | None =>
      match attrs !! "maker" with
      | Some w => if value_truthy w then w else VList []
      | None => VList []
      end
  end.

(** The running pair [(score, max_pts)] of [attribute_match_score]. *)
Definition tally : Type := (Q * Q)%type.

(** [max_pts += pts], and [score += pts] as well when [hit]. *)
Definition credit (pts : Q) (hit : bool) (t : tally) : tally :=
  (if hit then fst t + pts else fst t, snd t + pts).

Definition brand_block (p : Product) (filters : gmap string value) (t : tally) : tally :=
  match filters !! "brand" with
  | Some (VList brands) =>
      let structured :=
        match prod_brands_of (attrs p) with
        | VList pb => _any_overlap pb brands
        | VStr _ => false
        end in
      if structured then credit 1.0 true t
      else
        let name := lower (title p) in
        if existsb (fun b => contains (lower b) name) brands
        then (fst t + 0.8, snd t + 1.0)
        else credit 1.0 false t
  | _ => t
  end.

(** The colour block and the material block. *)
Definition list_block (key : string) (pts : Q) (p : Product)
    (filters : gmap string value) (t : tally) : tally :=
  match filters !! key with
  | Some (VList wanted) =>
      credit pts
        (match attrs p !! key with
         | Some (VList have) => _any_overlap have wanted
         | _ => false
         end) t
  | _ => t
  end.

(** One round of the loop over the footwear sizes. *)
Definition size_block (key : string) (pts : Q) (p : Product)
    (filters : gmap string value) (t : tally) : tally :=
  let want := _normalize_str (filters !! key) in
  let got := _normalize_str (attrs p !! key) in
  if truthy want
  then credit pts (truthy want && truthy got && String.eqb want got) t
  else t.

(** [float(v)]: a list raises [TypeError]. *)
Definition py_float `{Runtime} (v : value) : option Q :=
  match v with
  | VStr s => float_of_str s
  | VList _ => None
  end.

(** The capacity block; whatever is raised inside [try] leaves the score
    unchanged. *)
Definition capacity_block `{Runtime} (p : Product) (filters : gmap string value)
    (t : tally) : tally :=
  match filters !! "capacity_l" with
  | Some cap_want =>
      if value_truthy cap_want
      then credit 0.6
             (match py_float cap_want, attrs p !! "capacity_l" with
              | Some want, Some cap_got =>
                  match py_float cap_got with
                  | Some got => Qle_bool (Qabs (got - want)) 0.5
                  | None => false
                  end
              | _, _ => false
              end) t
      else t
  | None => t
  end.

(** The blocks for RAM, storage and battery. *)
Definition exact_block (key : string) (p : Product) (filters : gmap string value)
    (t : tally) : tally :=
  if opt_value_truthy (filters !! key)
  then credit 0.6 (String.eqb (_normalize_str (filters !! key))
                              (_normalize_str (attrs p !! key))) t
  else t.

Definition tally_of `{Runtime} (p : Product) (filters : gmap string value) : tally :=
  let t : tally := (0.0, 0.0) in
  let t := brand_block p filters t in
  let t := list_block "color" 0.5 p filters t in
  let t := list_block "material" 0.6 p filters t in
  let t := size_block "size_uk" 0.5 p filters t in
  let t := size_block "size_us" 0.5 p filters t in
  let t := size_block "size_eu" 0.5 p filters t in
  let t := capacity_block p filters t in
  let t := exact_block "ram_gb" p filters t in
  let t := exact_block "storage_tb" p filters t in
  let t := exact_block "storage_gb" p filters t in
  let t := exact_block "battery_mah" p filters t in
  t.

Definition attribute_match_score `{Runtime} (p : Product) (c : Constraints) : Q :=
  if negb (dict_truthy c) then 0.0
  else
    let filters : gmap string value := default ∅ (c_filters c) in
    if bool_decide (filters = ∅) then 0.0
    else
      let '(score, max_pts) := tally_of p filters in
      if Qle_bool max_pts 0 then 0.0
      else PyNum.max 0.0 (PyNum.min 1.0 (score / max_pts)).

(** The price block of [score_product]. *)
Definition price_score (price : option Q) (budget : option Z) : Q :=
  match price, budget with
  | Some pr, Some b =>
      if PyNum.truthy_float price && PyNum.truthy_int budget
      then
        if Qle_bool pr (inject_Z b)
        then PyNum.max 0.25 (1.0 - (pr / inject_Z (Z.max b 1)) * 0.6)
        else PyNum.max 0.05 (1.0 - (pr - inject_Z b) / inject_Z (Z.max b 1) * 1.2)
      else 0.45
  | _, _ => 0.45
  end.

(** The keyword loop of [score_product], before the cap. *)
Definition kw_hits (kws : list string) (title_l : string) : Q :=
  fold_left (fun bonus kw => if contains kw title_l then bonus + 0.03 else bonus) kws 0.0.

Definition score_product `{Runtime} (p : Product) (c : Constraints) (query : string) : Q :=
  let budget := get_budget c in
  let kws := default [] (c_keywords c) in
  let sim := Utils.similar (lower (title p)) (lower query) / 100.0 in
  let price_score := price_score (price p) budget in
  let rating_score := PyNum.float_or_0 (rating p) / 5.0 in
  let review_boost := tanh (inject_Z (PyNum.int_or_0 (review_count p)) / 600.0) in
  let attr_score := attribute_match_score p c in
  let kw_bonus := PyNum.min 0.15 (kw_hits kws (lower (title p))) in
  let total :=
    0.30 * sim + 0.30 * price_score + 0.18 * rating_score +
    0.10 * review_boost + 0.12 * attr_score + kw_bonus in
  PyNum.max 0.0 (PyNum.min 1.6 total).

(** [dedup]: [out] grows at its end, one product at a time. *)
Definition dedup_step `{Runtime} (out : list Product) (p : Product) : list Product :=
  if existsb (fun q => PyNum.Qltb 88 (Utils.similar (title p) (title q))) out
  then out else out ++ [p].

Definition dedup `{Runtime} (products : list Product) : list Product :=
  fold_left dedup_step products [].

(** [list.sort(key=..., reverse=True)] on the scored pairs: a stable sort by
    decreasing key, pairs with equal keys keeping their order. *)
Fixpoint insert_desc (x : Q * Product) (l : list (Q * Product)) : list (Q * Product) :=
  match l with
  | [] => [x]
  | y :: l' => if PyNum.Qltb (fst x) (fst y) then y :: insert_desc x l' else x :: l
  end.

Fixpoint sort_desc (l : list (Q * Product)) : list (Q * Product) :=
  match l with
  | [] => []
  | x :: l' => insert_desc x (sort_desc l')
  end.

(** The slice [l[:k]]: the first [k] items, or all but the last [-k] when
    [k] is negative. *)
Definition slice_to {A : Type} (k : Z) (l : list A) : list A :=
  if (0 <=? k)%Z then firstn (Z.to_nat k) l
  else firstn (length l - Z.to_nat (- k)) l.

Definition rank_products `{Runtime} (products : list Product) (c : Constraints)
    (query : string) (k : Z) : list Product :=
  let items := dedup products in
  let scored := map (fun p => (score_product p c query, p)) items in
  let scored := sort_desc scored in
  map snd (slice_to k scored).

End Scoring.

(* ===================================================================== *)
(** * graph/nodes.py and pipelines/search_pipeline.py *)
(* ===================================================================== *)

Module Nodes.
Import Schemas.

(** The shared graph state ([GraphState] of graph/graph.py); the key
    ["constraints"] may be missing. *)
Record GraphState : Type := {
  query : string;
  constraints : option Constraints;
  sites : list string;
  k : Z;
  raw_results : list Product;
  ranked : list Product;
  summary : string
}.

(** [state.get("constraints") or parse_constraints(state["query"])], stored
    back under ["constraints"]. *)
Definition parser_node (state : GraphState) : GraphState :=
  let c :=
    match constraints state with
    | Some c => if dict_truthy c then c else ParserAgent.parse_constraints (query state)
    | None => ParserAgent.parse_constraints (query state)
    end in
  {| query := query state; constraints := Some c; sites := sites state; k := k state;
     raw_results := raw_results state; ranked := ranked state; summary := summary state |}.

End Nodes.

Module SearchPipeline.
Import Nodes.

(** The dict [run_pipeline] seeds the state with:
    [{"budget": max_price, "keywords": []}], plus ["category"] for a
    non-empty hint. *)
Definition seed_constraints (max_price : option Z) (category_hint : option string)
    : Constraints :=
  {| c_budget := Some max_price;
     c_category := if ParserAgent.opt_truthy category_hint then Some category_hint else None;
     c_filters := None;
     c_keywords := Some [] |}.

Definition init_state (query : string) (max_price : option Z) (sites : list string)
    (k : Z) (category_hint : option string) : GraphState :=
  {| query := query;
     constraints := Some (seed_constraints max_price category_hint);
     sites := sites; k := k; raw_results := []; ranked := []; summary := EmptyString |}.

(** The state of [run_pipeline] after the entry point of the compiled graph,
    the parser node; the later nodes fetch pages and never write
    ["constraints"]. *)
Definition run_pipeline_parsed (query : string) (max_price : option Z)
    (sites : list string) (k : Z) (category_hint : option string) : GraphState :=
  parser_node (init_state query max_price sites k category_hint).

End SearchPipeline.

(* ===================================================================== *)
(** * A runtime and listings to run the definitions on examples *)
(* ===================================================================== *)

(** Every theorem below holds for all runtimes.  To evaluate the definitions
    on concrete inputs the examples use this one: identical texts are 100
    similar and different texts 0, [tanh x] is replaced by the sigmoid
    [x / (1 + |x|)], and [float] reads plain unsigned integers only. *)
Definition example_float (s : string) : option Q :=
  match s with
  | EmptyString => None
  | String _ _ =>
      if forallb Text.is_digit (list_ascii_of_string s)
      then Some (inject_Z (Text.int_of_digits s)) else None
  end.

Definition example_runtime : Runtime :=
  {| token_set_ratio := fun a b => if String.eqb a b then 100%Q else 0%Q;
     tanh := fun x => (x / (1 + Qabs x))%Q;
     float_of_str := example_float |}.

Definition example_product (t : string) (pr : option Q) (rt : option Q)
    (rv : option Z) (src : string) (a : gmap string value) : Schemas.Product :=
  {| Schemas.title := t; Schemas.price := pr; Schemas.currency := "INR";
     Schemas.rating := rt; Schemas.review_count := rv; Schemas.url := "https://example.test/" ++ t;
     Schemas.image := None; Schemas.source := src; Schemas.category := None;
     Schemas.attrs := a |}.

(** Three listings for the examples: two offers of the same shoe and one
    other shoe. *)
Definition shoe_a : Schemas.Product :=
  example_product "Nike Waterproof Running Shoes UK 9" (Some 2500%Q) (Some 4.3%Q) (Some 800%Z) "A" ∅.
Definition shoe_b : Schemas.Product :=
  example_product "Nike Waterproof Running Shoes UK 9" (Some 2600%Q) (Some 4.1%Q) (Some 50%Z) "B" ∅.
Definition shoe_c : Schemas.Product :=
  example_product "Leather Formal Shoes" (Some 1800%Q) (Some 4.5%Q) (Some 200%Z) "A" ∅.

Definition shoe_query : string := "waterproof running shoes under 3000".

(** A listing with structured attrs. *)
Definition attr_shoe : Schemas.Product :=
  example_product "Nike Running Shoes UK 9" (Some 2500%Q) None None "A"
    (<["brand" := VList ["nike"]]> (<["size_uk" := VStr "9"]> ∅)).

(** Constraints whose filter map is empty. *)
Definition no_filters : Constraints :=
  {| c_budget := Some (Some 3000%Z); c_category := Some None;
     c_filters := Some ∅; c_keywords := Some [] |}.

(** Constraints whose only filter binds the brand to a string, not to a
    list. *)
Definition brand_as_text : Constraints :=
  {| c_budget := Some None; c_category := Some None;
     c_filters := Some (<["brand" := VStr "nike"]> ∅); c_keywords := Some [] |}.

(** A title with a terabyte figure and gigabyte figures. *)
Definition tb_title : string := "Seagate 2TB HDD with 512GB SSD cache, 16GB RAM".

(* ===================================================================== *)
(** * Vocabulary of the properties: ranking and scoring *)
(* ===================================================================== *)

(** A list is settled when a pass of [dedup] over it keeps all of it. *)
Definition settled `{Runtime} (l : list Schemas.Product) : Prop := Scoring.dedup l = l.

(** Scored pairs in decreasing order of their keys. *)
Definition key_desc (x y : Q * Schemas.Product) : Prop := (fst y <= fst x)%Q.

(** The pairs whose key equals [v], in the order of the list. *)
Definition with_key (v : Q) (l : list (Q * Schemas.Product)) : list (Q * Schemas.Product) :=
  List.filter (fun x => Qeq_bool (fst x) v) l.

(** Products in decreasing order of their scores. *)
Definition score_desc `{Runtime} (c : Constraints) (query : string)
    (p q : Schemas.Product) : Prop :=
  (Scoring.score_product q c query <= Scoring.score_product p c query)%Q.

(** The products of score [v], in the order of the list. *)
Definition with_score `{Runtime} (c : Constraints) (query : string) (v : Q)
    (l : list Schemas.Product) : list Schemas.Product :=
  List.filter (fun p => Qeq_bool (Scoring.score_product p c query) v) l.

(** A scored pair carries the score of its product. *)
Definition tagged `{Runtime} (c : Constraints) (query : string)
    (x : Q * Schemas.Product) : Prop :=
  fst x = Scoring.score_product (snd x) c query.

(** The filter keys [attribute_match_score] looks up. *)
Definition FILTER_KEYS : list string :=
  ["brand"; "color"; "material"; "size_uk"; "size_us"; "size_eu"; "capacity_l";
   "ram_gb"; "storage_tb"; "storage_gb"; "battery_mah"].

(** The filter map [attribute_match_score] works on:
    [constraints.get("filters") or {}]. *)
Definition filters_of (c : Constraints) : gmap string value := default ∅ (c_filters c).

(** Whether the binding of [key] to [v] in the filter map makes
    [attribute_match_score] count points for [key]: a list for brand, colour
    and material, a value with a non-empty normal form for the sizes, a
    non-empty value for the other keys; keys outside [FILTER_KEYS] never do. *)
Definition applies (key : string) (v : value) : bool :=
  if existsb (String.eqb key) ["brand"; "color"; "material"]
  then match v with VList _ => true | VStr _ => false end
  else if existsb (String.eqb key) ["size_uk"; "size_us"; "size_eu"]
  then Text.truthy (Scoring._normalize_str (Some v))
  else if existsb (String.eqb key)
            ["capacity_l"; "ram_gb"; "storage_tb"; "storage_gb"; "battery_mah"]
  then Scoring.value_truthy v
  else false.

(** No binding of the filter map applies: the map is empty, or binds other
    keys only, or binds filter keys to values that do not count. *)
Definition no_applicable_key (filters : gmap string value) : Prop :=
  forall key v, filters !! key = Some v -> applies key v = false.

(** [clamp(x, floor lo, ceiling hi)]. *)
Definition clamp (lo hi x : Q) : Q := PyNum.min hi (PyNum.max lo x).

(** The price-fitness component in the words of the specification: both
    formulas apply whenever price and budget are known, and divide by the
    budget itself. *)
Definition price_fitness_spec (price : option Q) (budget : option Z) : Q :=
  match price, budget with
  | Some pr, Some b =>
      if Qle_bool pr (inject_Z b)
      then clamp 0.25 1.0 (1.0 - (pr / inject_Z b) * 0.6)
      else PyNum.max 0.05 (1.0 - ((pr - inject_Z b) / inject_Z b) * 1.2)
  | _, _ => 0.45
  end%Q.

(** Every token the keyword bag can hold, in the order the parser appends
    them. *)
Definition KEYWORD_VOCABULARY : list string :=
  (ParserAgent.BRANDS ++ ParserAgent.COLORS ++ ParserAgent.MATERIALS ++
   ParserAgent.BONUS_TOKENS)%list.

(* ===================================================================== *)
(** * Vocabulary of the properties: what a match of a pattern is *)
(* ===================================================================== *)

Module MatchSpec.
Import Text Regex.

(** Every character of [w] is in the class [p]. *)
Fixpoint all_chars (p : ascii -> bool) (w : string) : bool :=
  match w with
  | EmptyString => true
  | String c w' => p c && all_chars p w'
  end.

(** The last character of [w], or [d] for the empty [w]. *)
Fixpoint last_char (d : option ascii) (w : string) : option ascii :=
  match w with
  | EmptyString => d
  | String c w' => last_char (Some c) w'
  end.

(** The cursor moved from [st] over the text [w], [s] being what follows. *)
Definition moved (st : mstate) (w s : string) : mstate :=
  MState (last_char (prev st) w) s (String.length w + pos st) (grp1 st).

Definition within (hi : option nat) (n : nat) : Prop :=
  match hi with Some h => n <= h | None => True end.

(** [matches r st st']: the pattern [r] can match from the position [st] to
    the position [st'], in the usual sense of regular expressions with one
    capture group (no priorities). *)
Fixpoint matches (r : regex) (st st' : mstate) : Prop :=
  match r with
  | Eps => st' = st
  | Lit c =>
      exists x s, rest st = String x s /\ lower_char x = lower_char c /\ st' = advance st x s
  | Cls p =>
      exists x s, rest st = String x s /\ p x = true /\ st' = advance st x s
  | Rep p lo hi =>
      exists w s, rest st = w ++ s /\ all_chars p w = true /\
                  lo <= String.length w /\ within hi (String.length w) /\
                  st' = moved st w s
  | Cat r1 r2 => exists m, matches r1 st m /\ matches r2 m st'
  | Alt r1 r2 => matches r1 st st' \/ matches r2 st st'
  | Opt r' => matches r' st st' \/ st' = st
  | WordB => at_boundary st = true /\ st' = st
  | Grp r' =>
      exists m, matches r' st m /\
                st' = MState (prev m) (rest m) (pos m) (Some (take (pos m - pos st) (rest st)))
  end.

(** [r] matches in [text], from some start position, up to [st']. *)
Definition match_at (r : regex) (text : string) (st' : mstate) : Prop :=
  exists a b, text = a ++ b /\ matches r (MState (last_char None a) b 0 None) st'.

End MatchSpec.

(* ===================================================================== *)
(** * Vocabulary of the properties: shapes of titles and queries *)
(* ===================================================================== *)

(** A text without a digit. *)
Definition digit_free (s : string) : bool :=
  MatchSpec.all_chars (fun c => negb (Text.is_digit c)) s.

(** A text that ends in a word character. *)
Definition ends_in_word (s : string) : bool :=
  match MatchSpec.last_char None s with Some c => Text.is_word c | None => false end.

(** A non-empty string of digits. *)
Definition digit_figure (g : string) : bool :=
  Text.truthy g && MatchSpec.all_chars Text.is_digit g.

(** Group 1 of a budget figure: a digit followed by digits and commas. *)
Definition comma_figure (g : string) : bool :=
  match g with
  | String d g' => ParserAgent.is_09 d && MatchSpec.all_chars ParserAgent.is_09_comma g'
  | EmptyString => false
  end.

(** No occurrence of [w] starts inside [pre] in the text [pre ++ tail]. *)
Fixpoint starts_nowhere_in (w pre tail : string) : bool :=
  match pre with
  | EmptyString => true
  | String c pre' =>
      negb (Text.starts_with w (pre ++ tail)) && starts_nowhere_in w pre' tail
  end.

(** The text is empty or begins with a character outside the class [p]. *)
Definition head_outside (p : ascii -> bool) (s : string) : bool :=
  match s with
  | EmptyString => true
  | String c _ => negb (p c)
  end.

(** The words that introduce a budget figure in [RX_BUDGET_ANY]. *)
Definition BUDGET_WORDS : list string := ["under"; "below"; "less than"; "<="].

(** No budget word starts inside [pre] in the text [pre ++ tail]. *)
Definition no_budget_word_in (pre tail : string) : bool :=
  forallb (fun w => starts_nowhere_in w pre tail) BUDGET_WORDS.

(** A text that [str.lower] leaves as it is. *)
Definition lowered (s : string) : bool :=
  MatchSpec.all_chars (fun c => Ascii.eqb (Text.lower_char c) c) s.

(** A text of ASCII characters, the texts the model of [str] is exact for. *)
Definition ascii_text (s : string) : bool :=
  MatchSpec.all_chars (fun c => (Text.code c <? 128)%N) s.

(** A run of blanks, possibly empty. *)
Definition blank (s : string) : bool := MatchSpec.all_chars Text.is_space s.

(** The pattern [r] matches at no start position inside [pre] in the text
    [pre ++ tail]. *)
Definition matches_nowhere_in (r : Regex.regex) (pre tail : string) : Prop :=
  forall (a b : string) (c : ascii) (st' : Regex.mstate),
    pre = a ++ String c b ->
    ~ MatchSpec.matches r
        (Regex.MState (MatchSpec.last_char None a) (String c b ++ tail) 0 None) st'.

(** In the text [q] the leftmost match of [RX_UNDER_K] reads the figure [n]:
    [q] is some text, "under", blanks, the digits [n], blanks, "k" and a rest
    that does not go on with a word character, and the pattern matches at no
    earlier start position. *)
Definition under_k_reading (q n : string) : Prop :=
  exists pre sp sp' post,
    q = pre ++ "under" ++ sp ++ n ++ sp' ++ "k" ++ post /\
    blank sp = true /\ digit_figure n = true /\ blank sp' = true /\
    head_outside Text.is_word post = true /\
    matches_nowhere_in ParserAgent.RX_UNDER_K pre ("under" ++ sp ++ n ++ sp' ++ "k" ++ post).

(** In the text [q] the leftmost match of [RX_BUDGET_ANY] reads the figure
    [f]: [q] is some text, a budget word, blanks, the figure [f] (a digit
    followed by digits and commas) and a rest that does not go on with a
    digit or a comma, and the pattern matches at no earlier start position. *)
Definition budget_word_reading (q f : string) : Prop :=
  exists pre w sp post,
    q = pre ++ w ++ sp ++ f ++ post /\
    w ∈ BUDGET_WORDS /\ blank sp = true /\ comma_figure f = true /\
    head_outside ParserAgent.is_09_comma post = true /\
    matches_nowhere_in ParserAgent.RX_BUDGET_ANY pre (w ++ sp ++ f ++ post).

(* ===================================================================== *)
(** * services/utils.py: prices, counts and titles *)
(* ===================================================================== *)

(** The two signs outside ASCII that the program prints and reads, the rupee
    sign and the em dash, are the byte sequences of their UTF-8 encoding. *)
Module UtilsParse.
Import Text Regex.

Definition RUPEE : string := "₹".
Definition EM_DASH : string := "—".

(** A literal of a pattern compiled without [re.I]: the character itself. *)
Definition exact (c : ascii) : regex := Cls (Ascii.eqb c).

Fixpoint exact_str (w : string) : regex :=
  match w with
  | EmptyString => Eps
  | String c EmptyString => exact c
  | String c w' => Cat (exact c) (exact_str w')
  end.

(** [(?:₹|INR\s{0,})\s{0,}([0-9,]+)], the source writing [\s{0,}] with a
    star. *)
Definition PRICE_RX : regex :=
  seq [Alt (exact_str RUPEE) (Cat (exact_str "INR") spaces);
       spaces;
       Grp (Rep ParserAgent.is_09_comma 1 None)].

(** [([0-9][0-9,]{0,})], the source writing the quantifier as a star. *)
Definition DIGIT_RX : regex :=
  Grp (Cat (Cls ParserAgent.is_09) (Rep ParserAgent.is_09_comma 0 None)).

Definition group1 (m : mstate) : string := default EmptyString (grp1 m).

(** [float(s)] and [int(s)] on a figure whose commas are removed: a string
    of digits and nothing else; [None] stands for [ValueError] (the empty
    string). *)
Definition int_of_figure (s : string) : option Z :=
  match s with
  | EmptyString => None
  | String _ _ => Some (int_of_digits s)
  end.

Definition float_of_figure (s : string) : option Q := inject_Z <$> int_of_figure s.

Definition parse_price (text : option string) : option Q :=
  match text with
  | None => None
  | Some t =>
      if truthy t then
        let by_digits :=
          match search DIGIT_RX t with
          | Some m2 => float_of_figure (remove_char "," (group1 m2))
          | None => None
          end in
        match search PRICE_RX t with
        | Some m =>
            match float_of_figure (remove_char "," (group1 m)) with
            | Some v => Some v
            | None => by_digits
            end
        | None => by_digits
        end
      else None
  end.

Definition parse_int (text : option string) : option Z :=
  match text with
  | None => None
  | Some t =>
      if truthy t then
        match search DIGIT_RX t with
        | Some m => int_of_figure (remove_char "," (group1 m))
        | None => None
        end
      else None
  end.

(** [re.sub(r"\s+", " ", s)]: every maximal run of blanks becomes one space;
    [in_run] tells that the previous character was a blank. *)
Fixpoint collapse (in_run : bool) (s : string) : string :=
  match s with
  | EmptyString => EmptyString
  | String c s' =>
      if is_space c
      then if in_run then collapse true s' else String " " (collapse true s')
      else String c (collapse false s')
  end.

Definition clean_title (t : option string) : string :=
  collapse false (strip (default EmptyString t)).

(** [round(x)] on a float: to the nearest integer, a tie going to the even
    one. *)
Definition py_round (q : Q) : Z :=
  let f := Qfloor q in
  match (q - inject_Z f ?= 1 # 2)%Q with
  | Lt => f
  | Gt => (f + 1)%Z
  | Eq => if Z.even f then f else (f + 1)%Z
  end.

(** [str(n)] for a natural number. *)
Definition decimal (n : N) : string := NilZero.string_of_uint (N.to_uint n).

(** The digits from the last one backwards, a comma before every fourth. *)
Fixpoint commas (cnt : nat) (l : list ascii) : list ascii :=
  match l with
  | [] => []
  | c :: l' =>
      match cnt with
      | O => ","%char :: c :: commas 2 l'
      | S n => c :: commas n l'
      end
  end.

(** The format [{:,}] on a string of digits. *)
Definition group3 (digits : string) : string :=
  string_of_list_ascii (rev (commas 3 (rev (list_ascii_of_string digits)))).

(** [f"{v:,}"] for an int [v]. *)
Definition format_grouped (v : Z) : string :=
  (if (v <? 0)%Z then "-" else EmptyString) ++ group3 (decimal (Z.abs_N v)).

Definition format_inr (n : option Q) : string :=
  match n with
  | None => EM_DASH
  | Some q => RUPEE ++ format_grouped (py_round q)
  end.

End UtilsParse.

(* ===================================================================== *)
(** * services/utils.py: short specs for the UI *)
(* ===================================================================== *)

Module UtilsSpecs.

(** [_short(label, val)]: a list shows its first three items. *)
Definition _short (label : string) (val : value) : string :=
  match val with
  | VList l => label ++ ": " ++ PyStr.join ", " (firstn 3 l)
  | VStr s => label ++ ": " ++ s
  end.

Definition order_generic : list (string * string) :=
  [("brand", "Brand"); ("cpu", "CPU"); ("ram_gb", "RAM");
   ("storage_tb", "Storage TB"); ("storage_gb", "Storage GB");
   ("battery_mah", "Battery"); ("refresh_hz", "Refresh");
   ("screen_in", "Screen"); ("color", "Color"); ("material", "Material");
   ("capacity_l", "Capacity"); ("watt", "Watt"); ("size_uk", "UK");
   ("size_us", "US"); ("size_eu", "EU"); ("panel", "Panel")].

Definition order_fashion_head : list (string * string) :=
  [("size_uk", "UK"); ("size_us", "US"); ("size_eu", "EU"); ("material", "Material");
   ("color", "Color"); ("brand", "Brand")].

Definition order_home_head : list (string * string) :=
  [("capacity_l", "Capacity"); ("material", "Material"); ("watt", "Watt");
   ("brand", "Brand"); ("color", "Color")].

(** [order + [(k, l) for k, l in order_generic if k not in seen]], [seen]
    being the keys of [order]. *)
Definition with_rest (order : list (string * string)) : list (string * string) :=
  (order ++
   List.filter (fun e => negb (existsb (String.eqb (fst e)) (map fst order))) order_generic)%list.

Definition order_for (category : string) : list (string * string) :=
  if String.eqb category "fashion" then with_rest order_fashion_head
  else if String.eqb category "home-kitchen" || String.eqb category "appliances"
  then with_rest order_home_head
  else order_generic.

(** [key in attrs and attrs[key] not in (None, "", [])], then the spec. *)
Definition spec_of (attrs : gmap string value) (e : string * string) : option string :=
  match attrs !! fst e with
  | Some v => if Scoring.value_truthy v then Some (_short (snd e) v) else None
  | None => None
  end.

(** The loop of [specs_from_attrs], which stops at six specs. *)
Fixpoint specs_loop (order : list (string * string)) (attrs : gmap string value)
    (specs : list string) : list string :=
  match order with
  | [] => specs
  | e :: order' =>
      let specs' :=
        match spec_of attrs e with
        | Some s => (specs ++ [s])%list
        | None => specs
        end in
      if (6 <=? length specs')%nat then specs' else specs_loop order' attrs specs'
  end.

Definition specs_from_attrs (category : string) (attrs : gmap string value) : list string :=
  if bool_decide (attrs = ∅) then []
  else specs_loop (order_for category) attrs [].

Definition specs_from_title (title : string) : list string :=
  specs_from_attrs EmptyString (Utils.parse_generic_attrs_from_title title).

End UtilsSpecs.

(* ===================================================================== *)
(** * adapters/ui_mapper.py *)
(* ===================================================================== *)

Module UiMapper.
Import Schemas.

(** [p.category or ""] *)
Definition category_or_empty (p : Product) : string :=
  match category p with
  | Some c => c
  | None => EmptyString
  end.

(** The loop over the specs read from the title: a spec not yet there is
    appended, and the loop stops at six specs. *)
Fixpoint merge_more (more : list string) (specs : list string) : list string :=
  match more with
  | [] => specs
  | m :: more' =>
      let specs' :=
        if existsb (String.eqb m) specs then specs else (specs ++ [m])%list in
      if (6 <=? length specs')%nat then specs' else merge_more more' specs'
  end.

Definition _build_specs (p : Product) : list string :=
  let specs := UtilsSpecs.specs_from_attrs (category_or_empty p) (attrs p) in
  let specs :=
    if (length specs <? 4)%nat
    then merge_more (UtilsSpecs.specs_from_title (title p)) specs
    else specs in
  firstn 6 specs.

(** [UIProduct] *)
Record UIProduct : Type := {
  name : string;
  ui_price : string;
  ui_rating : option Q;
  specifications : list string;
  link : string;
  ui_image : option string;
  ui_source : string;
  reviewCount : option Z;
  rawTitle : option string;
  ui_category : option string
}.

Definition map_for_ui (p : Product) : UIProduct :=
  {| name := title p;
     ui_price := UtilsParse.format_inr (price p);
     ui_rating := rating p;
     specifications := _build_specs p;
     link := url p;
     ui_image := image p;
     ui_source := source p;
     reviewCount := review_count p;
     rawTitle := Some (title p);
     ui_category := category p |}.

Definition map_many (products : list Product) : list UIProduct := map map_for_ui products.

End UiMapper.

(* ===================================================================== *)
(** * agents/extractor_agent.py, agents/navigator_agent.py,
      agents/summarizer_agent.py *)
(* ===================================================================== *)

Module ExtractorAgent.
Import Schemas.

(** [p.category = cat] *)
Definition set_category (cat : string) (p : Product) : Product :=
  {| title := title p; price := price p; currency := currency p; rating := rating p;
     review_count := review_count p; url := url p; image := image p; source := source p;
     category := Some cat; attrs := attrs p |}.

(** [run(products, constraints)]: the products are updated in place and the
    same list is returned. *)
Definition run (products : list Product) (constraints : option Constraints) : list Product :=
  match constraints with
  | Some c =>
      if dict_truthy c then
        match get_category c with
        | Some cat =>
            if Text.truthy cat
            then map (fun p => if ParserAgent.opt_truthy (category p) then p
                               else set_category cat p) products
            else products
        | None => products
        end
      else products
  | None => products
  end.

End ExtractorAgent.

Module NavigatorAgent.

(** [filters.get("brand") or []], kept when it is a list. *)
Definition brand_tokens (filters : gmap string value) : list string :=
  match filters !! "brand" with
  | Some (VList l) => l
  | _ => []
  end.

Definition _augment_query (query : string) (constraints : option Constraints) : string :=
  match constraints with
  | None => query
  | Some c =>
      if dict_truthy c then
        let tokens :=
          ((match get_category c with
            | Some cat => if Text.truthy cat then [cat] else []
            | None => []
            end) ++ brand_tokens (default ∅ (c_filters c)))%list in
        match tokens with
        | [] => query
        | _ :: _ => query ++ " " ++ PyStr.join " " tokens
        end
      else query
  end.

End NavigatorAgent.

Module SummarizerAgent.
Import Schemas.

(** [min(items, key=..., default=None)]: the first item whose key no other
    item undercuts. *)
Fixpoint min_by {A : Type} (key : A -> Q) (best : A) (l : list A) : A :=
  match l with
  | [] => best
  | x :: l' => min_by key (if PyNum.Qltb (key x) (key best) then x else best) l'
  end.

(** [max(items, key=..., default=None)]: the first item whose key no other
    item exceeds. *)
Fixpoint max_by {A : Type} (key : A -> Q) (best : A) (l : list A) : A :=
  match l with
  | [] => best
  | x :: l' => max_by key (if PyNum.Qltb (key best) (key x) then x else best) l'
  end.

(** The products with a price, each with its price; those with a rating. *)
Definition priced (products : list Product) : list (Q * Product) :=
  omap (fun p => (fun v => (v, p)) <$> price p) products.

Definition rated (products : list Product) : list (Q * Product) :=
  omap (fun p => (fun v => (v, p)) <$> rating p) products.

Definition _min_price (products : list Product) : option Product :=
  match priced products with
  | [] => None
  | x :: l => Some (snd (min_by fst x l))
  end.

Definition _max_rating (products : list Product) : option Product :=
  match rated products with
  | [] => None
  | x :: l => Some (snd (max_by fst x l))
  end.

End SummarizerAgent.

(* ===================================================================== *)
(** * graph/nodes.py: the extractor node and the ranker node *)
(* ===================================================================== *)

Module PipelineNodes.
Import Schemas Nodes.

(** [extractor_run(state.get("raw_results", []))]: the node passes no
    constraints. *)
Definition extractor_node (state : GraphState) : GraphState :=
  let products := ExtractorAgent.run (raw_results state) None in
  {| query := query state; constraints := constraints state; sites := sites state;
     k := k state; raw_results := products; ranked := ranked state;
     summary := summary state |}.

(** [state.get("constraints", {})] *)
Definition constraints_or_empty (state : GraphState) : Constraints :=
  default empty_constraints (constraints state).

Definition ranker_node `{Runtime} (state : GraphState) : GraphState :=
  let ranked := Scoring.rank_products (raw_results state) (constraints_or_empty state)
                  (query state) (k state) in
  {| query := query state; constraints := constraints state; sites := sites state;
     k := k state; raw_results := raw_results state; ranked := ranked;
     summary := summary state |}.

End PipelineNodes.

(* ===================================================================== *)
(** * Vocabulary of the further properties *)
(* ===================================================================== *)

(** No product of the list is a near-duplicate of one before it. *)
Definition spread `{Runtime} (out : list Schemas.Product) : Prop :=
  forall l1 p l2, out = (l1 ++ p :: l2)%list ->
    forall q, q ∈ l1 ->
      (Utils.similar (Schemas.title p) (Schemas.title q) <= 88)%Q.

(** The running pair of [attribute_match_score] is sound when the points
    earned are not negative and do not exceed the points possible. *)
Definition sound_tally (t : Scoring.tally) : Prop := (0 <= fst t <= snd t)%Q.

(** The number of keywords, with repetitions, that occur in a title. *)
Definition kw_count (kws : list string) (title_l : string) : nat :=
  length (List.filter (fun kw => Text.contains kw title_l) kws).

(** The second shoe offer with a better rating. *)
Definition shoe_b_rated : Schemas.Product :=
  example_product "Nike Waterproof Running Shoes UK 9" (Some 2600%Q) (Some 4.8%Q) (Some 50%Z) "B" ∅.

(** The keys [parse_generic_attrs_from_title] can bind. *)
Definition ATTR_KEYS : list string :=
  ["ram_gb"; "storage_tb"; "storage_gb"; "battery_mah"; "refresh_hz"; "screen_in";
   "size_uk"; "size_us"; "size_eu"; "capacity_l"; "watt"; "cpu"; "panel"; "material";
   "color"].

(** A map that binds keys of [keys] only, each to a non-empty string or to a
    non-empty list without repetition. *)
Definition well_formed (keys : list string) (d : gmap string value) : Prop :=
  forall key v, d !! key = Some v ->
    key ∈ keys /\ Scoring.value_truthy v = true /\ (forall l, v = VList l -> NoDup l).

(** An entry of [CATEGORY_KEYWORDS] one of whose keywords occurs in [q]. *)
Definition category_hit (q : string) (e : string * list string) : bool :=
  existsb (fun k => Text.contains k q) (snd e).

(** The text [pre ++ f ++ s] has its first figure at [f]: no digit in [pre],
    [f] a digit followed by digits and commas, and [s] empty or beginning
    with a character that is neither. *)
Definition first_figure (pre f s : string) : bool :=
  digit_free pre && comma_figure f && head_outside ParserAgent.is_09_comma s.

(** Every blank of [s] is one space with a character other than a blank
    after it. *)
Fixpoint single_spaced (s : string) : bool :=
  match s with
  | EmptyString => true
  | String c s' =>
      (if Text.is_space c
       then Ascii.eqb c " " &&
            match s' with String d _ => negb (Text.is_space d) | EmptyString => false end
       else true) && single_spaced s'
  end.

(** A title in the form [clean_title] gives: no blank at either end, and
    single spaces between the words. *)
Definition tidy (s : string) : bool := head_outside Text.is_space s && single_spaced s.

(** The text does not end in a blank. *)
Fixpoint no_trailing_blank (s : string) : bool :=
  match s with
  | EmptyString => true
  | String c EmptyString => negb (Text.is_space c)
  | String _ s' => no_trailing_blank s'
  end.

(** The specs of all the attributes that are present and not empty, in the
    order [order]. *)
Definition all_specs (order : list (string * string)) (attrs : gmap string value)
    : list string :=
  omap (UtilsSpecs.spec_of attrs) order.

(** The specs of a product read from its structured attributes. *)
Definition structured_specs (p : Schemas.Product) : list string :=
  UtilsSpecs.specs_from_attrs (UiMapper.category_or_empty p) (Schemas.attrs p).

(** Two listings that differ at most in their category. *)
Definition same_but_category (p p' : Schemas.Product) : Prop :=
  ExtractorAgent.set_category EmptyString p' = ExtractorAgent.set_category EmptyString p.

(** Constraints that name the category fashion and nothing else. *)
Definition fashion_only : Constraints :=
  {| c_budget := None; c_category := Some (Some "fashion"); c_filters := None;
     c_keywords := None |}.

(* ===================================================================== *)
(** * The definitions at work *)
(* ===================================================================== *)

Example lower_demo : Text.lower "16GB RAM, Under 5K" = "16gb ram, under 5k".
Proof. reflexivity. Qed.

Example strip_demo : Text.strip "  uk 9 " = "uk 9".
Proof. reflexivity. Qed.

Example contains_demo :
  Text.contains "bag" "red leather handbag" = true /\ Text.contains "gb" "bag" = false.
Proof. split; reflexivity. Qed.

Example str_list_demo :
  PyStr.str (VList ["9"; "it's"])
  = String.concat EmptyString
      ["['9', "; PyStr.one PyStr.quote2; "it's"; PyStr.one PyStr.quote2; "]"].
Proof. reflexivity. Qed.

Example litre_demo :
  Utils._first Utils.RX_LITRE "water bottle 1.5 litres" = Some "1" /\
  Utils._first Utils.RX_CAP_L "water bottle 1.5 l" = Some "1.5" /\
  Utils._first Utils.RX_REFRESH_HZ "monitor 144hz ips" = Some "144".
Proof. repeat split; vm_compute; reflexivity. Qed.

(** The category example of the specification: a handbag is fashion, with
    its colour and material as filters. *)
Example handbag_query :
  let c := ParserAgent.parse_constraints "red leather handbag" in
  get_category c = Some "fashion" /\ get_budget c = None /\
  c_filters c = Some (<["color" := VList ["red"]]> (<["material" := VList ["leather"]]> ∅)).
Proof. cbv zeta. repeat apply conj; vm_compute; reflexivity. Qed.

(** The query parser leaves out [storage_gb] once it has found [ram_gb]. *)
Example laptop_query :
  let c := ParserAgent.parse_constraints "Dell laptop 16GB RAM, 512GB storage under 60k" in
  get_budget c = Some 60000%Z /\ get_category c = Some "electronics" /\
  c_filters c = Some (<["brand" := VList ["dell"]]> (<["ram_gb" := VStr "16"]> ∅)) /\
  c_keywords c = Some ["dell"].
Proof. cbv zeta. repeat apply conj; vm_compute; reflexivity. Qed.

Example shoe_query_constraints :
  let c := ParserAgent.parse_constraints shoe_query in
  get_budget c = Some 3000%Z /\ get_category c = Some "fashion" /\
  c_keywords c = Some ["waterproof"].
Proof. cbv zeta. repeat apply conj; vm_compute; reflexivity. Qed.

(** A brand and a size asked for and found: full marks; a size mismatch
    costs the points of the size. *)
Example attribute_match_demo :
  Qred (@Scoring.attribute_match_score example_runtime attr_shoe
          (ParserAgent.parse_constraints "nike shoes uk 9")) = 1%Q /\
  Qred (@Scoring.attribute_match_score example_runtime attr_shoe
          (ParserAgent.parse_constraints "nike shoes uk 8")) = Qred (1.0 / 1.5)%Q.
Proof. split; vm_compute; reflexivity. Qed.

(* ===================================================================== *)
(** * Properties: deduplication *)
(* ===================================================================== *)

Section DedupFacts.
Context `{RT : Runtime}.
Import Scoring.

Lemma dedup_snoc (l : list Schemas.Product) (p : Schemas.Product) :
  dedup (l ++ [p])%list = dedup_step (dedup l) p.
Proof. unfold dedup. now rewrite fold_left_app. Qed.

Lemma settled_nil : settled [].
Proof. reflexivity. Qed.

Lemma settled_step (out : list Schemas.Product) (p : Schemas.Product) :
  settled out -> settled (dedup_step out p).
Proof.
  intros Hout. unfold settled.
  destruct (existsb (fun q => PyNum.Qltb 88 (Utils.similar (Schemas.title p) (Schemas.title q))) out)
    eqn:Hdup.
  - unfold dedup_step at 2. rewrite Hdup. unfold dedup_step. now rewrite Hdup.
  - assert (Hs : dedup_step out p = (out ++ [p])%list) by (unfold dedup_step; now rewrite Hdup).
    rewrite Hs, dedup_snoc, Hout. exact Hs.
Qed.

Lemma settled_fold (l out : list Schemas.Product) :
  settled out -> settled (fold_left dedup_step l out).
Proof.
  revert out. induction l as [|p l IH]; intros out Hout; simpl.
  - exact Hout.
  - apply IH, settled_step, Hout.
Qed.

End DedupFacts.

(** C6.  [dedup] is idempotent: a second pass over the output of [dedup]
    changes nothing, whatever the similarity function is. *)
Theorem dedup_idempotent `{RT : Runtime} (L : list Schemas.Product) :
  Scoring.dedup (Scoring.dedup L) = Scoring.dedup L.
Proof.
  apply (settled_fold L []). apply settled_nil.
Qed.

(* ===================================================================== *)
(** * Properties: ranking *)
(* ===================================================================== *)

Section SortFacts.
Import Scoring Schemas.
Local Open Scope Q_scope.

Implicit Types (x y : Q * Product) (l : list (Q * Product)).

Lemma Qltb_true (a b : Q) : PyNum.Qltb a b = true <-> a < b.
Proof.
  unfold PyNum.Qltb. rewrite negb_true_iff, <- not_true_iff_false, Qle_bool_iff.
  split; [apply Qnot_le_lt | apply Qlt_not_le].
Qed.

Lemma Qltb_false (a b : Q) : PyNum.Qltb a b = false <-> b <= a.
Proof.
  unfold PyNum.Qltb. rewrite negb_false_iff. apply Qle_bool_iff.
Qed.

Lemma insert_desc_length x l : length (insert_desc x l) = S (length l).
Proof.
  induction l as [|y l IH]; simpl; [reflexivity|].
  destruct (PyNum.Qltb (fst x) (fst y)); simpl; congruence.
Qed.

Lemma sort_desc_length l : length (sort_desc l) = length l.
Proof.
  induction l as [|x l IH]; simpl; [reflexivity|].
  now rewrite insert_desc_length, IH.
Qed.

Lemma insert_desc_perm x l : Permutation (x :: l) (insert_desc x l).
Proof.
  induction l as [|y l IH]; simpl; [reflexivity|].
  destruct (PyNum.Qltb (fst x) (fst y)); [|reflexivity].
  rewrite perm_swap. now apply perm_skip.
Qed.

Lemma sort_desc_perm l : Permutation l (sort_desc l).
Proof.
  induction l as [|x l IH]; simpl; [reflexivity|].
  rewrite <- insert_desc_perm. now apply perm_skip.
Qed.

Lemma insert_desc_sorted x l :
  StronglySorted key_desc l -> StronglySorted key_desc (insert_desc x l).
Proof.
  induction l as [|y l IH]; intros Hs; simpl.
  - repeat constructor.
  - inversion Hs as [|? ? Hl Hy]; subst.
    destruct (PyNum.Qltb (fst x) (fst y)) eqn:Hxy.
    + apply Qltb_true in Hxy. constructor; [now apply IH|].
      rewrite <- (insert_desc_perm x l). constructor; [|exact Hy].
      unfold key_desc. now apply Qlt_le_weak.
    + apply Qltb_false in Hxy. constructor; [exact Hs|].
      constructor; [exact Hxy|].
      eapply Forall_impl; [exact Hy|].
      intros z Hz. unfold key_desc in *. now apply Qle_trans with (fst y).
Qed.

Lemma sort_desc_sorted l : StronglySorted key_desc (sort_desc l).
Proof.
  induction l as [|x l IH]; simpl; [constructor|].
  now apply insert_desc_sorted.
Qed.

(** Stability: inserting never moves a pair across one of equal key. *)
Lemma insert_desc_stable (v : Q) x l :
  with_key v (insert_desc x l) = with_key v (x :: l).
Proof.
  induction l as [|y l IH]; [reflexivity|].
  simpl insert_desc. destruct (PyNum.Qltb (fst x) (fst y)) eqn:Hxy; [|reflexivity].
  apply Qltb_true in Hxy.
  unfold with_key in *. simpl in *. rewrite IH.
  destruct (Qeq_bool (fst x) v) eqn:Hx; [|reflexivity].
  destruct (Qeq_bool (fst y) v) eqn:Hy; [|reflexivity].
  apply Qeq_bool_iff in Hx, Hy. rewrite Hx, Hy in Hxy.
  now apply Qlt_irrefl in Hxy.
Qed.

Lemma sort_desc_stable (v : Q) l : with_key v (sort_desc l) = with_key v l.
Proof.
  induction l as [|x l IH]; [reflexivity|].
  simpl sort_desc. rewrite insert_desc_stable.
  unfold with_key in *. simpl. now rewrite IH.
Qed.

End SortFacts.

Section RankFacts.
Context `{RT : Runtime}.
Import Scoring Schemas.
Local Open Scope Q_scope.

Variables (c : Constraints) (query : string).

Let score (p : Product) : Q := score_product p c query.

Local Abbreviation score_desc := (score_desc c query).
Local Abbreviation with_score := (with_score c query).
Local Abbreviation tagged := (tagged c query).

Lemma tagged_scored (items : list Product) :
  Forall tagged (map (fun p => (score p, p)) items).
Proof. induction items; constructor; [reflexivity | assumption]. Qed.

Lemma snd_scored (items : list Product) :
  map snd (map (fun p => (score p, p)) items) = items.
Proof. induction items as [|p l IH]; simpl; [reflexivity | now rewrite IH]. Qed.

Lemma sorted_firstn {A : Type} (R : A -> A -> Prop) (n : nat) (l : list A) :
  StronglySorted R l -> StronglySorted R (firstn n l).
Proof.
  revert n. induction l as [|a l IH]; intros [|n] Hs; simpl; try constructor.
  - inversion Hs; subst. now apply IH.
  - inversion Hs as [|? ? _ Ha]; subst.
    rewrite List.Forall_forall in *. intros b Hb. apply Ha.
    rewrite <- (firstn_skipn n l). apply in_or_app. now left.
Qed.

Lemma sorted_untag (l : list (Q * Product)) :
  Forall tagged l -> StronglySorted key_desc l -> StronglySorted score_desc (map snd l).
Proof.
  induction l as [|x l IH]; intros Ht Hs; simpl; [constructor|].
  inversion Ht as [|? ? Hx Hl]; subst. inversion Hs as [|? ? Hs' Hall]; subst.
  constructor; [now apply IH|].
  rewrite List.Forall_forall in *. intros q Hq.
  apply in_map_iff in Hq as [y [<- Hy]].
  unfold score_desc. rewrite <- Hx, <- (Hl y Hy). now apply Hall.
Qed.

Lemma with_score_untag (v : Q) (l : list (Q * Product)) :
  Forall tagged l -> with_score v (map snd l) = map snd (with_key v l).
Proof.
  induction l as [|x l IH]; intros Ht; [reflexivity|].
  inversion Ht as [|? ? Hx Hl]; subst.
  unfold with_score, with_key in *. simpl. rewrite <- Hx, (IH Hl).
  now destruct (Qeq_bool (fst x) v).
Qed.

Lemma with_key_firstn (v : Q) (n : nat) (l : list (Q * Product)) :
  with_key v (firstn n l) `prefix_of` with_key v l.
Proof.
  exists (with_key v (skipn n l)). unfold with_key.
  now rewrite <- List.filter_app, firstn_skipn.
Qed.

Lemma tagged_perm (l l' : list (Q * Product)) :
  Permutation l l' -> Forall tagged l -> Forall tagged l'.
Proof. intros Hp Hl. now rewrite <- Hp. Qed.

Lemma tagged_firstn (n : nat) (l : list (Q * Product)) :
  Forall tagged l -> Forall tagged (firstn n l).
Proof.
  rewrite !List.Forall_forall. intros Hl x Hx. apply Hl.
  rewrite <- (firstn_skipn n l). apply in_or_app. now left.
Qed.

(** The ranking contract for a positive [k], stated on the score of the
    enclosing section. *)
Lemma rank_products_contract (products : list Product) (k : Z) :
  (1 <= k)%Z ->
  let out := rank_products products c query k in
  length out = Nat.min (Z.to_nat k) (length (dedup products)) /\
  StronglySorted score_desc out /\
  (forall v : Q, with_score v out `prefix_of` with_score v (dedup products)).
Proof.
  intros Hk. unfold rank_products, slice_to.
  replace (0 <=? k)%Z with true by (symmetry; apply Z.leb_le; lia).
  change (map (fun p => (score_product p c query, p)) (dedup products))
    with (map (fun p => (score p, p)) (dedup products)).
  set (scored := map (fun p => (score p, p)) (dedup products)).
  assert (Htag : Forall tagged (sort_desc scored)).
  { eapply tagged_perm; [apply sort_desc_perm | apply tagged_scored]. }
  cbv zeta. split; [|split].
  - rewrite length_map, length_firstn, sort_desc_length. unfold scored.
    now rewrite length_map.
  - apply sorted_untag; [now apply tagged_firstn|].
    apply sorted_firstn, sort_desc_sorted.
  - intros v. rewrite with_score_untag by now apply tagged_firstn.
    destruct (with_key_firstn v (Z.to_nat k) (sort_desc scored)) as [tl Htl].
    exists (map snd tl).
    rewrite <- List.map_app, <- Htl, sort_desc_stable.
    rewrite <- with_score_untag by apply tagged_scored.
    unfold scored. now rewrite snd_scored.
Qed.

End RankFacts.

(** C3.  For every list of listings, constraints, query and [k >= 1],
    [rank_products] returns exactly [min k n] listings, [n] being the number
    of listings that survive [dedup]; they are in non-increasing order of
    score; and for each score the returned listings of that score are the
    first ones of that score among the deduplicated listings, in the same
    order (the sort is stable). *)
Theorem rank_products_top_k `{RT : Runtime} (products : list Schemas.Product)
    (c : Constraints) (query : string) (k : Z) :
  (1 <= k)%Z ->
  let score := fun p => Scoring.score_product p c query in
  let out := Scoring.rank_products products c query k in
  length out = Nat.min (Z.to_nat k) (length (Scoring.dedup products)) /\
  StronglySorted (fun p q => (score q <= score p)%Q) out /\
  (forall v : Q,
     List.filter (fun p => Qeq_bool (score p) v) out `prefix_of`
     List.filter (fun p => Qeq_bool (score p) v) (Scoring.dedup products)).
Proof.
  intros Hk. exact (rank_products_contract c query products k Hk).
Qed.

Lemma rank_products_top_k_witness :
  (1 <= 2)%Z /\
  let RT := example_runtime in
  let c := ParserAgent.parse_constraints shoe_query in
  let score := fun p => Scoring.score_product p c shoe_query in
  let out := Scoring.rank_products [shoe_a; shoe_b; shoe_c] c shoe_query 2 in
  length out = Nat.min (Z.to_nat 2) (length (Scoring.dedup [shoe_a; shoe_b; shoe_c])) /\
  StronglySorted (fun p q => (score q <= score p)%Q) out /\
  (forall v : Q,
     List.filter (fun p => Qeq_bool (score p) v) out `prefix_of`
     List.filter (fun p => Qeq_bool (score p) v) (Scoring.dedup [shoe_a; shoe_b; shoe_c])).
Proof.
  split; [lia|].
  apply (@rank_products_top_k example_runtime [shoe_a; shoe_b; shoe_c]
           (ParserAgent.parse_constraints shoe_query) shoe_query 2).
  lia.
Defined.

Example rank_shoes :
  @Scoring.rank_products example_runtime [shoe_a; shoe_b; shoe_c]
     (ParserAgent.parse_constraints shoe_query) shoe_query 2 = [shoe_a; shoe_c].
Proof. vm_compute. reflexivity. Qed.

(* ===================================================================== *)
(** * Properties: the score and its components *)
(* ===================================================================== *)

Section ClampFacts.
Local Open Scope Q_scope.

Lemma py_max_cases (a b : Q) :
  (a < b /\ PyNum.max a b = b) \/ (b <= a /\ PyNum.max a b = a).
Proof.
  unfold PyNum.max. destruct (PyNum.Qltb a b) eqn:E.
  - left. split; [now apply Qltb_true | reflexivity].
  - right. split; [now apply Qltb_false | reflexivity].
Qed.

Lemma py_min_cases (a b : Q) :
  (b < a /\ PyNum.min a b = b) \/ (a <= b /\ PyNum.min a b = a).
Proof.
  unfold PyNum.min. destruct (PyNum.Qltb b a) eqn:E.
  - left. split; [now apply Qltb_true | reflexivity].
  - right. split; [now apply Qltb_false | reflexivity].
Qed.

(** [max(lo, min(hi, x))] lies between [lo] and [hi]. *)
Lemma clamp_bounds (lo hi x : Q) :
  lo <= hi -> lo <= PyNum.max lo (PyNum.min hi x) <= hi.
Proof.
  intros Hlh.
  destruct (py_min_cases hi x) as [[H1 ->]|[H1 ->]];
  [destruct (py_max_cases lo x) as [[H2 ->]|[H2 ->]]
  |destruct (py_max_cases lo hi) as [[H2 ->]|[H2 ->]]]; lra.
Qed.

End ClampFacts.

(** C4.  For every listing, constraints object and query, whichever optional
    fields are present, [score_product] returns a value between 0.0 and 1.6:
    the last step clamps the weighted sum. *)
Theorem score_product_bounded `{RT : Runtime} (p : Schemas.Product) (c : Constraints)
    (query : string) :
  (0.0 <= Scoring.score_product p c query <= 1.6)%Q.
Proof.
  unfold Scoring.score_product. apply clamp_bounds. lra.
Qed.

Section AttributeMatchFacts.
Context `{RT : Runtime}.
Import Scoring.
Local Open Scope Q_scope.

Section Idle.
Variable filters : gmap string value.
Hypothesis Hidle : no_applicable_key filters.

Lemma brand_block_idle (p : Schemas.Product) (t : tally) :
  brand_block p filters t = t.
Proof.
  unfold brand_block. destruct (filters !! "brand") as [[s|l]|] eqn:E; try reflexivity.
  apply Hidle in E. vm_compute in E. discriminate.
Qed.

Lemma list_block_idle (key : string) (pts : Q) (p : Schemas.Product) (t : tally) :
  (forall l, applies key (VList l) = true) -> list_block key pts p filters t = t.
Proof.
  intros Hkey. unfold list_block.
  destruct (filters !! key) as [[s|l]|] eqn:E; try reflexivity.
  apply Hidle in E. rewrite Hkey in E. discriminate.
Qed.

Lemma size_block_idle (key : string) (pts : Q) (p : Schemas.Product) (t : tally) :
  (forall v, applies key v = Text.truthy (_normalize_str (Some v))) ->
  size_block key pts p filters t = t.
Proof.
  intros Hkey. unfold size_block.
  destruct (filters !! key) as [v|] eqn:E; [|reflexivity].
  apply Hidle in E. rewrite Hkey in E. now rewrite E.
Qed.

Lemma capacity_block_idle (p : Schemas.Product) (t : tally) :
  capacity_block p filters t = t.
Proof.
  unfold capacity_block. destruct (filters !! "capacity_l") as [v|] eqn:E; [|reflexivity].
  apply Hidle in E. change (applies "capacity_l" v) with (value_truthy v) in E.
  now rewrite E.
Qed.

Lemma exact_block_idle (key : string) (p : Schemas.Product) (t : tally) :
  (forall v, applies key v = value_truthy v) -> exact_block key p filters t = t.
Proof.
  intros Hkey. unfold exact_block.
  destruct (filters !! key) as [v|] eqn:E; [|reflexivity].
  apply Hidle in E. rewrite Hkey in E. simpl. now rewrite E.
Qed.

(** With no applicable key, no block adds to the tally. *)
Lemma tally_of_idle (p : Schemas.Product) : tally_of p filters = (0.0, 0.0).
Proof.
  unfold tally_of.
  rewrite brand_block_idle.
  rewrite !list_block_idle by reflexivity.
  rewrite !size_block_idle by reflexivity.
  rewrite capacity_block_idle.
  rewrite !exact_block_idle by reflexivity.
  reflexivity.
Qed.

End Idle.

(** A filter map that binds none of the filter keys has no applicable key. *)
Lemma no_filter_key_bound (filters : gmap string value) :
  (forall key, key ∈ FILTER_KEYS -> filters !! key = None) -> no_applicable_key filters.
Proof.
  intros Hno key v E. unfold applies.
  destruct (existsb (String.eqb key) ["brand"; "color"; "material"]) eqn:H1;
    [|destruct (existsb (String.eqb key) ["size_uk"; "size_us"; "size_eu"]) eqn:H2;
      [|destruct (existsb (String.eqb key)
                    ["capacity_l"; "ram_gb"; "storage_tb"; "storage_gb"; "battery_mah"]) eqn:H3;
        [|reflexivity]]];
    match goal with
    | H : existsb _ _ = true |- _ =>
        apply existsb_exists in H as (k & Hin & Hk); apply String.eqb_eq in Hk; subst k;
        rewrite Hno in E; [discriminate|];
        apply list_elem_of_In; unfold FILTER_KEYS; simpl in *; tauto
    end.
Qed.

Lemma attribute_match_range (p : Schemas.Product) (c : Constraints) :
  0.0 <= attribute_match_score p c <= 1.0.
Proof.
  unfold attribute_match_score.
  destruct (negb (dict_truthy c)); [lra|].
  destruct (bool_decide (default ∅ (c_filters c) = ∅)); [lra|].
  destruct (tally_of p (default ∅ (c_filters c))) as [score max_pts].
  destruct (Qle_bool max_pts 0); [lra|].
  apply clamp_bounds. lra.
Qed.

End AttributeMatchFacts.

(** C7.  [attribute_match_score] is a total function (it has no failing case
    to return), and
      - for every listing, whatever its attrs, and every constraints object
        whose filter map has no applicable key (it is empty or missing, or
        binds none of the filter keys, or binds them to values that do not
        count) the result is exactly 0.0;
      - for every input the result lies between 0 and 1. *)
Theorem attribute_match_no_filter `{RT : Runtime} :
  (forall (p : Schemas.Product) (c : Constraints),
     no_applicable_key (filters_of c) ->
     Scoring.attribute_match_score p c = 0.0%Q) /\
  (forall (p : Schemas.Product) (c : Constraints),
     (forall key, key ∈ FILTER_KEYS -> filters_of c !! key = None) ->
     Scoring.attribute_match_score p c = 0.0%Q) /\
  (forall (p : Schemas.Product) (c : Constraints),
     (0.0 <= Scoring.attribute_match_score p c <= 1.0)%Q).
Proof.
  assert (Hidle : forall (p : Schemas.Product) (c : Constraints),
            no_applicable_key (filters_of c) ->
            Scoring.attribute_match_score p c = 0.0%Q).
  { intros p c Hno. unfold Scoring.attribute_match_score.
    destruct (negb (dict_truthy c)); [reflexivity|].
    destruct (bool_decide (default ∅ (c_filters c) = ∅)); [reflexivity|].
    fold (filters_of c). now rewrite (tally_of_idle (filters_of c) Hno p). }
  split; [exact Hidle|]. split; [|apply attribute_match_range].
  intros p c Hno. apply Hidle. now apply no_filter_key_bound.
Qed.

Lemma attribute_match_no_filter_witness :
  (no_applicable_key (filters_of brand_as_text) /\
   @Scoring.attribute_match_score example_runtime attr_shoe brand_as_text = 0.0%Q) /\
  ((forall key, key ∈ FILTER_KEYS -> filters_of no_filters !! key = None) /\
   @Scoring.attribute_match_score example_runtime attr_shoe no_filters = 0.0%Q).
Proof.
  assert (H1 : no_applicable_key (filters_of brand_as_text)).
  { intros key v. unfold filters_of, brand_as_text. simpl.
    intros E. apply lookup_insert_Some in E as [[<- <-]|[_ E]]; [reflexivity|].
    now rewrite lookup_empty in E. }
  assert (H2 : forall key, key ∈ FILTER_KEYS -> filters_of no_filters !! key = None).
  { intros key _. unfold filters_of, no_filters. simpl. apply lookup_empty. }
  split; (split; [assumption|]).
  - exact (proj1 (@attribute_match_no_filter example_runtime) attr_shoe brand_as_text H1).
  - exact (proj1 (proj2 (@attribute_match_no_filter example_runtime)) attr_shoe no_filters H2).
Defined.

(* ===================================================================== *)
(** * Properties: price fitness *)
(* ===================================================================== *)

Section PriceFacts.
Import Scoring.
Local Open Scope Q_scope.

Lemma ratio_pos (pr : Q) (b : Z) : 0 < pr -> (1 <= b)%Z -> 0 < pr / inject_Z b.
Proof.
  intros Hpr Hb. apply Qlt_shift_div_l.
  - change 0 with (inject_Z 0). rewrite <- Zlt_Qlt. lia.
  - lra.
Qed.

Lemma price_score_truthy (pr : Q) (b : Z) :
  0 < pr -> (1 <= b)%Z ->
  PyNum.truthy_float (Some pr) && PyNum.truthy_int (Some b) = true.
Proof.
  intros Hpr Hb. unfold PyNum.truthy_float, PyNum.truthy_int.
  apply andb_true_intro. split; apply negb_true_iff.
  - apply not_true_iff_false. rewrite Qeq_bool_iff. lra.
  - apply Z.eqb_neq. lia.
Qed.

Lemma price_score_under (pr : Q) (b : Z) :
  0 < pr -> (1 <= b)%Z -> pr <= inject_Z b ->
  price_score (Some pr) (Some b) = clamp 0.25 1.0 (1.0 - (pr / inject_Z b) * 0.6).
Proof.
  intros Hpr Hb Hle. unfold price_score.
  rewrite (price_score_truthy pr b Hpr Hb).
  apply Qle_bool_iff in Hle. rewrite Hle.
  rewrite Z.max_l by lia.
  pose proof (ratio_pos pr b Hpr Hb) as Hr.
  unfold clamp.
  set (y := PyNum.max 0.25 (1.0 - pr / inject_Z b * 0.6)).
  assert (Hy : y < 1.0).
  { unfold y. destruct (py_max_cases 0.25 (1.0 - pr / inject_Z b * 0.6))
      as [[_ ->]|[_ ->]]; lra. }
  unfold PyNum.min. apply Qltb_true in Hy. now rewrite Hy.
Qed.

Lemma price_score_over (pr : Q) (b : Z) :
  0 < pr -> (1 <= b)%Z -> inject_Z b < pr ->
  price_score (Some pr) (Some b) =
  PyNum.max 0.05 (1.0 - ((pr - inject_Z b) / inject_Z b) * 1.2).
Proof.
  intros Hpr Hb Hlt. unfold price_score.
  rewrite (price_score_truthy pr b Hpr Hb).
  assert (Hle : Qle_bool pr (inject_Z b) = false).
  { apply not_true_iff_false. rewrite Qle_bool_iff. lra. }
  rewrite Hle. now rewrite Z.max_l by lia.
Qed.

Lemma price_score_neutral (price : option Q) (budget : option Z) :
  PyNum.truthy_float price = false \/ PyNum.truthy_int budget = false ->
  price_score price budget = 0.45.
Proof.
  intros H. unfold price_score.
  destruct price as [pr|], budget as [b|]; try reflexivity.
  destruct H as [-> | ->]; [reflexivity|].
  now rewrite andb_false_r.
Qed.

End PriceFacts.

(** C5, as the specification states it, fails for a listing whose price is
    known to be 0: the guard [if p.price and budget] sends it to the neutral
    0.45, where the under-budget formula gives 1.0. *)
Lemma price_score_free_listing :
  Scoring.price_score (Some 0%Q) (Some 3000%Z) = 0.45%Q /\
  Qred (price_fitness_spec (Some 0%Q) (Some 3000%Z)) = 1%Q /\
  ~ (Scoring.price_score (Some 0%Q) (Some 3000%Z) ==
     price_fitness_spec (Some 0%Q) (Some 3000%Z))%Q.
Proof.
  split; [reflexivity|]. split; [reflexivity|].
  vm_compute. discriminate.
Qed.

(** C5, amended.  For a known price [pr > 0] and a known budget [b >= 1]:
    when [pr <= b] the price component is
    [clamp(1.0 - (pr/b)*0.6, floor 0.25, ceiling 1.0)], and when [pr > b] it
    is [max(0.05, 1.0 - ((pr-b)/b)*1.2)].  Whenever the price or the budget
    is unknown or zero, the component is 0.45; in particular the code agrees
    with the specification's formula on all those known values. *)
Theorem price_score_amended :
  (forall (pr : Q) (b : Z), (0 < pr)%Q -> (1 <= b)%Z -> (pr <= inject_Z b)%Q ->
     Scoring.price_score (Some pr) (Some b) =
     clamp 0.25 1.0 (1.0 - (pr / inject_Z b) * 0.6)%Q) /\
  (forall (pr : Q) (b : Z), (0 < pr)%Q -> (1 <= b)%Z -> (inject_Z b < pr)%Q ->
     Scoring.price_score (Some pr) (Some b) =
     PyNum.max 0.05 (1.0 - ((pr - inject_Z b) / inject_Z b) * 1.2)%Q) /\
  (forall (price : option Q) (budget : option Z),
     PyNum.truthy_float price = false \/ PyNum.truthy_int budget = false ->
     Scoring.price_score price budget = 0.45%Q) /\
  (forall (pr : Q) (b : Z), (0 < pr)%Q -> (1 <= b)%Z ->
     Scoring.price_score (Some pr) (Some b) = price_fitness_spec (Some pr) (Some b)).
Proof.
  split; [exact price_score_under|].
  split; [exact price_score_over|].
  split; [exact price_score_neutral|].
  intros pr b Hpr Hb. unfold price_fitness_spec.
  destruct (Qle_bool pr (inject_Z b)) eqn:Hle.
  - apply price_score_under; try assumption. now apply Qle_bool_iff.
  - apply price_score_over; try assumption.
    apply Qnot_le_lt. rewrite <- Qle_bool_iff. congruence.
Qed.

Lemma price_score_amended_witness :
  ((0 < 2500)%Q /\ (1 <= 3000)%Z /\ (2500 <= inject_Z 3000)%Q /\
   Scoring.price_score (Some 2500%Q) (Some 3000%Z) =
   clamp 0.25 1.0 (1.0 - (2500 / inject_Z 3000) * 0.6)%Q) /\
  ((0 < 3300)%Q /\ (1 <= 3000)%Z /\ (inject_Z 3000 < 3300)%Q /\
   Scoring.price_score (Some 3300%Q) (Some 3000%Z) =
   PyNum.max 0.05 (1.0 - ((3300 - inject_Z 3000) / inject_Z 3000) * 1.2)%Q) /\
  ((PyNum.truthy_float None = false \/ PyNum.truthy_int (Some 3000%Z) = false) /\
   Scoring.price_score None (Some 3000%Z) = 0.45%Q).
Proof.
  assert (H1 : (0 < 2500)%Q) by reflexivity.
  assert (H2 : (1 <= 3000)%Z) by lia.
  assert (H3 : (2500 <= inject_Z 3000)%Q) by (vm_compute; discriminate).
  assert (H4 : (0 < 3300)%Q) by reflexivity.
  assert (H5 : (inject_Z 3000 < 3300)%Q) by reflexivity.
  assert (H6 : PyNum.truthy_float None = false \/ PyNum.truthy_int (Some 3000%Z) = false)
    by (left; reflexivity).
  split; [|split].
  - refine (conj H1 (conj H2 (conj H3 _))).
    exact (proj1 price_score_amended 2500%Q 3000%Z H1 H2 H3).
  - refine (conj H4 (conj H2 (conj H5 _))).
    exact (proj1 (proj2 price_score_amended) 3300%Q 3000%Z H4 H2 H5).
  - split; [exact H6|].
    exact (proj1 (proj2 (proj2 price_score_amended)) None (Some 3000%Z) H6).
Defined.

Example price_score_values :
  Qred (Scoring.price_score (Some 2500%Q) (Some 3000%Z)) = Qred 0.5%Q /\
  Qred (Scoring.price_score (Some 3300%Q) (Some 3000%Z)) = Qred 0.88%Q /\
  Qred (Scoring.price_score (Some 9000%Q) (Some 3000%Z)) = Qred 0.05%Q.
Proof. repeat split; reflexivity. Qed.

(* ===================================================================== *)
(** * Properties: the parser node on a seeded state *)
(* ===================================================================== *)

(** The seed of [run_pipeline] always binds ["budget"] and ["keywords"], so
    it is a non-empty dict and [parser_node] keeps it as it is:
    [parse_constraints] is not called. *)
Lemma parser_node_keeps_seed (query : string) (max_price : option Z)
    (sites : list string) (k : Z) (category_hint : option string) :
  Nodes.constraints (SearchPipeline.run_pipeline_parsed query max_price sites k category_hint)
  = Some (SearchPipeline.seed_constraints max_price category_hint).
Proof. reflexivity. Qed.

(** A state without constraints, or with the empty dict, is parsed. *)
Lemma parser_node_parses_when_empty (st : Nodes.GraphState) :
  Nodes.constraints st = None \/ Nodes.constraints st = Some empty_constraints ->
  Nodes.constraints (Nodes.parser_node st)
  = Some (ParserAgent.parse_constraints (Nodes.query st)).
Proof. intros [H|H]; unfold Nodes.parser_node; rewrite H; reflexivity. Qed.

(** C1.  The claim asks that, with a category hint, the parser node keeps the
    caller's category and fills budget, filters and keywords from the query.
    On the query ["red leather handbag under 5k"] with the hint ["fashion"]
    and no [max_price], the constraints after the parser node are the seed:
    the category is the caller's, but there is no budget, no filter map and
    no keyword, while [parse_constraints] finds the budget 5000, the filters
    colour red and material leather, and the keywords red and leather. *)
Theorem seeded_constraints_not_parsed :
  let query := "red leather handbag under 5k" in
  let st := SearchPipeline.run_pipeline_parsed query None ["amazon"; "flipkart"] 6
              (Some "fashion") in
  let parsed := ParserAgent.parse_constraints query in
  (exists c, Nodes.constraints st = Some c /\
     get_category c = Some "fashion" /\
     get_budget c = None /\ c_filters c = None /\ c_keywords c = Some []) /\
  get_budget parsed = Some 5000%Z /\
  c_filters parsed
    = Some (<["color" := VList ["red"]]> (<["material" := VList ["leather"]]> ∅)) /\
  c_keywords parsed = Some ["red"; "leather"].
Proof.
  cbv zeta. split.
  - eexists. split; [apply parser_node_keeps_seed|]. repeat split.
  - split; [|split]; vm_compute; reflexivity.
Qed.

(* ===================================================================== *)
(** * Properties: the keyword bag *)
(* ===================================================================== *)

Lemma keyword_vocabulary_nodup : NoDup KEYWORD_VOCABULARY.
Proof. apply (bool_decide_unpack _). vm_compute. exact I. Qed.

Lemma keyword_bag_filter (q : string) :
  ParserAgent.keyword_bag q = filter (fun w => Text.contains w q) KEYWORD_VOCABULARY.
Proof.
  unfold ParserAgent.keyword_bag, ParserAgent._contains_any, KEYWORD_VOCABULARY.
  now rewrite !filter_app.
Qed.

(** C9.  For every query the keyword list of [parse_constraints] holds no
    token twice, and it holds exactly the brand, colour, material and bonus
    tokens that occur in the lower-cased query: each of them once. *)
Theorem keywords_no_duplicates (query : string) :
  exists kws, c_keywords (ParserAgent.parse_constraints query) = Some kws /\
    NoDup kws /\
    (forall tok, tok ∈ kws <->
       tok ∈ KEYWORD_VOCABULARY /\ Text.contains tok (Text.lower query) = true).
Proof.
  exists (ParserAgent.keyword_bag (Text.lower query)).
  split; [reflexivity|]. rewrite keyword_bag_filter. split.
  - apply NoDup_filter, keyword_vocabulary_nodup.
  - intros tok. rewrite list_elem_of_filter, Is_true_true. tauto.
Qed.

(* ===================================================================== *)
(** * Properties: the matcher returns matches only *)
(* ===================================================================== *)

Section MatcherSound.
Import Text Regex MatchSpec.

Lemma rep_sound {A : Type} (p : ascii -> bool) (k : mstate -> option A) (a : A)
    (s : string) :
  forall (lo : nat) (hi : option nat) (pv : option ascii) (n : nat) (g : option string),
    rep p lo hi pv s n g k = Some a ->
    exists w s', s = w ++ s' /\ all_chars p w = true /\
                 lo <= String.length w /\ within hi (String.length w) /\
                 k (MState (last_char pv w) s' (String.length w + n) g) = Some a.
Proof.
  induction s as [|c s IH]; intros lo hi pv n g H; simpl in H.
  - destruct lo; [|discriminate].
    exists EmptyString, EmptyString.
    repeat split; try assumption; simpl; try lia; destruct hi; simpl; try lia; exact I.
  - assert (Hstop : match lo with O => k (MState pv (String c s) n g) | S _ => None end = Some a ->
              exists w s', String c s = w ++ s' /\ all_chars p w = true /\
                lo <= String.length w /\ within hi (String.length w) /\
                k (MState (last_char pv w) s' (String.length w + n) g) = Some a).
    { intros Hs. destruct lo; [|discriminate].
      exists EmptyString, (String c s).
      repeat split; try assumption; simpl; try lia; destruct hi; simpl; try lia; exact I. }
    destruct (p c) eqn:Hp; [|now apply Hstop].
    destruct (hi_allows hi) eqn:Hh; [|now apply Hstop].
    simpl in H.
    destruct (rep p (Nat.pred lo) (Nat.pred <$> hi) (Some c) s (S n) g k) as [a'|] eqn:Hr;
      [|now apply Hstop].
    injection H as ->.
    apply IH in Hr as (w & s' & -> & Hw & Hlo & Hhi & Hk).
    exists (String c w), s'. simpl. rewrite Hp, Hw.
    repeat split; [lia| |].
    + destruct hi as [[|h]|]; simpl in *; try discriminate; try exact I. lia.
    + now rewrite Nat.add_succ_r in Hk.
Qed.

(** Whatever the matcher hands to the rest of the pattern is a match. *)
Lemma rmatch_sound {A : Type} (r : regex) :
  forall (st : mstate) (k : mstate -> option A) (a : A),
    rmatch r st k = Some a -> exists st', matches r st st' /\ k st' = Some a.
Proof.
  induction r as [|c|p|p lo hi|r1 IH1 r2 IH2|r1 IH1 r2 IH2|r IH| |r IH];
    intros st k a H; simpl in H.
  - exists st. now split.
  - destruct (rest st) as [|x s] eqn:Hrest; [discriminate|].
    destruct (Ascii.eqb (lower_char x) (lower_char c)) eqn:He; [|discriminate].
    apply Ascii.eqb_eq in He. exists (advance st x s). split; [|assumption].
    simpl. exists x, s. now rewrite Hrest.
  - destruct (rest st) as [|x s] eqn:Hrest; [discriminate|].
    destruct (p x) eqn:Hp; [|discriminate].
    exists (advance st x s). split; [|assumption].
    simpl. exists x, s. now rewrite Hrest.
  - apply rep_sound in H as (w & s' & Hs & Hw & Hlo & Hhi & Hk).
    eexists. split; [|exact Hk]. simpl. now exists w, s'.
  - apply IH1 in H as (m & Hm & H). apply IH2 in H as (st' & Hst' & H).
    exists st'. split; [|assumption]. simpl. now exists m.
  - destruct (rmatch r1 st k) as [a'|] eqn:H1.
    + injection H as ->. apply IH1 in H1 as (st' & ? & ?).
      exists st'. simpl. tauto.
    + apply IH2 in H as (st' & ? & ?). exists st'. simpl. tauto.
  - destruct (rmatch r st k) as [a'|] eqn:H1.
    + injection H as ->. apply IH in H1 as (st' & ? & ?).
      exists st'. simpl. tauto.
    + exists st. simpl. tauto.
  - destruct (at_boundary st) eqn:Hb; [|discriminate].
    exists st. simpl. tauto.
  - apply IH in H as (m & Hm & H).
    eexists. split; [|exact H]. simpl. now exists m.
Qed.

(** A successful search found a match at some start position, with the
    cursor count and the group reset there. *)
Lemma search_from_sound (r : regex) (s : string) :
  forall (pv : option ascii) (st' : mstate),
    search_from r pv s = Some st' ->
    exists pv' s', matches r (MState pv' s' 0 None) st'.
Proof.
  induction s as [|c s IH]; intros pv st' H; simpl in H.
  - destruct (rmatch r (MState pv EmptyString 0 None) Some) as [m|] eqn:Hm; [|discriminate].
    injection H as ->. apply rmatch_sound in Hm as (st'' & Hst & [= ->]).
    now exists pv, EmptyString.
  - destruct (rmatch r (MState pv (String c s) 0 None) Some) as [m|] eqn:Hm.
    + injection H as ->. apply rmatch_sound in Hm as (st'' & Hst & [= ->]).
      now exists pv, (String c s).
    + now apply IH in H.
Qed.

End MatcherSound.

(* ===================================================================== *)
(** * Properties: attributes of a title *)
(* ===================================================================== *)

Section AttrMapFacts.

Lemma lookup_set_if_str_ne (key key' : string) (v : option string) (d : gmap string value) :
  key <> key' -> set_if_str key v d !! key' = d !! key'.
Proof.
  intros Hne. unfold set_if_str.
  destruct v as [s|]; [|reflexivity].
  destruct (Text.truthy s); [|reflexivity].
  now apply lookup_insert_ne.
Qed.

Lemma lookup_set_if_list_ne (key key' : string) (l : list string) (d : gmap string value) :
  key <> key' -> set_if_list key l d !! key' = d !! key'.
Proof.
  intros Hne. unfold set_if_list.
  destruct l; [reflexivity|]. now apply lookup_insert_ne.
Qed.

Lemma lookup_set_if_str_eq (key : string) (s : string) (d : gmap string value) :
  Text.truthy s = true -> set_if_str key (Some s) d !! key = Some (VStr s).
Proof.
  intros Hs. unfold set_if_str. rewrite Hs. apply lookup_insert_eq.
Qed.

Lemma lookup_set_if_str_none (key : string) (d : gmap string value) :
  set_if_str key None d !! key = d !! key.
Proof. reflexivity. Qed.

End AttrMapFacts.

Ltac skip_other_keys :=
  repeat (first [ rewrite lookup_set_if_str_ne by discriminate
                | rewrite lookup_set_if_list_ne by discriminate ]).

Section TitleFacts.
Import Text Regex MatchSpec.

(** Group 1 of the terabyte pattern holds at least its leading digit. *)
Lemma storage_tb_group (st0 st' : mstate) :
  matches Utils.RX_STORAGE_TB st0 st' ->
  exists g, grp1 st' = Some g /\ truthy g = true.
Proof.
  intros H. unfold Utils.RX_STORAGE_TB, seq, spaces in H. simpl in H.
  destruct H as (m1 & [_ ->] & m2 & Hgrp & m3 & Hsp & m4 & Htb & m5 & [_ ->] & ->).
  destruct Hsp as (w & s & _ & _ & _ & _ & ->).
  destruct Htb as (m6 & (x1 & s1 & _ & _ & ->) & (x2 & s2 & _ & _ & ->)).
  simpl.
  destruct Hgrp as (m & (m7 & (x & s0 & Hrest & Hx & ->) & Hopt) & ->). simpl.
  rewrite Hrest.
  assert (Hpos : exists n, pos m - pos st0 = S n).
  { destruct Hopt as [(m8 & (? & ? & _ & _ & ->) & (? & ? & _ & _ & ->)) | ->]; simpl.
    - exists 2. lia.
    - exists 0. lia. }
  destruct Hpos as [n ->]. simpl. eauto.
Qed.

Lemma storage_tb_first_truthy (t : string) :
  is_Some (search Utils.RX_STORAGE_TB t) ->
  exists g, Utils._first Utils.RX_STORAGE_TB t = Some g /\ truthy g = true.
Proof.
  intros [st Hst]. unfold Utils._first, first_group. rewrite Hst. simpl.
  apply search_from_sound in Hst as (pv & s & Hm).
  now apply storage_tb_group in Hm.
Qed.

End TitleFacts.

(** C10.  For every listing title in which the terabyte pattern matches, the
    extracted attribute map has no key [storage_gb], whatever gigabyte
    figures the title holds elsewhere. *)
Theorem tb_takes_precedence (title : string) :
  is_Some (Regex.search Utils.RX_STORAGE_TB (Text.lower title)) ->
  Utils.parse_generic_attrs_from_title title !! "storage_gb" = None.
Proof.
  intros Htb. apply storage_tb_first_truthy in Htb as (g & Hg & Hne).
  unfold Utils.parse_generic_attrs_from_title. cbv zeta.
  skip_other_keys. rewrite Hg, Hne.
  rewrite lookup_set_if_str_none. skip_other_keys. apply lookup_empty.
Qed.

Lemma tb_takes_precedence_witness :
  is_Some (Regex.search Utils.RX_STORAGE_TB (Text.lower tb_title)) /\
  Utils.parse_generic_attrs_from_title tb_title !! "storage_gb" = None.
Proof.
  assert (H : is_Some (Regex.search Utils.RX_STORAGE_TB (Text.lower tb_title))).
  { eexists. vm_compute. reflexivity. }
  split; [exact H|]. exact (tb_takes_precedence tb_title H).
Defined.

Example tb_title_attrs :
  Utils.parse_generic_attrs_from_title tb_title !! "storage_tb" = Some (VStr "2") /\
  Utils.parse_generic_attrs_from_title tb_title !! "ram_gb" = Some (VStr "16") /\
  Utils._first Utils.RX_STORAGE_GB (Text.lower tb_title) = Some "512".
Proof. repeat split; vm_compute; reflexivity. Qed.

(* ===================================================================== *)
(** * Properties: the matcher finds a match whenever there is one *)
(* ===================================================================== *)

Section MatcherComplete.
Import Text Regex MatchSpec.

Lemma rep_complete {A : Type} (p : ascii -> bool) (k : mstate -> option A) (w : string) :
  forall (s' : string) (lo : nat) (hi : option nat) (pv : option ascii) (n : nat)
         (g : option string),
    all_chars p w = true -> lo <= String.length w -> within hi (String.length w) ->
    is_Some (k (MState (last_char pv w) s' (String.length w + n) g)) ->
    is_Some (rep p lo hi pv (w ++ s') n g k).
Proof.
  induction w as [|c w IH]; intros s' lo hi pv n g Hw Hlo Hhi Hk; simpl in *.
  - assert (lo = 0) as -> by lia.
    destruct s' as [|c s']; simpl; [exact Hk|].
    destruct (p c && hi_allows hi); [|exact Hk].
    destruct (rep p _ _ (Some c) s' (S n) g k); [eauto | exact Hk].
  - apply andb_prop in Hw as [Hc Hw]. rewrite Hc.
    assert (Hh : hi_allows hi = true).
    { destruct hi as [[|h]|]; simpl in *; [lia|reflexivity|reflexivity]. }
    rewrite Hh. simpl.
    assert (Hin : is_Some (rep p (Nat.pred lo) (Nat.pred <$> hi) (Some c) (w ++ s') (S n) g k)).
    { apply IH; [assumption|lia| |].
      - destruct hi as [h|]; simpl in *; [lia|exact I].
      - now rewrite Nat.add_succ_r. }
    destruct Hin as [a' ->]. eauto.
Qed.

(** If the pattern has a match that the rest of the pattern accepts, the
    matcher returns a result (that of the first such match it tries). *)
Lemma rmatch_complete {A : Type} (r : regex) :
  forall (st st' : mstate) (k : mstate -> option A),
    matches r st st' -> is_Some (k st') -> is_Some (rmatch r st k).
Proof.
  induction r as [|c|p|p lo hi|r1 IH1 r2 IH2|r1 IH1 r2 IH2|r IH| |r IH];
    intros st st' k Hm Hk; simpl in *.
  - now subst.
  - destruct Hm as (x & s & -> & Hx & ->). rewrite Hx, Ascii.eqb_refl. exact Hk.
  - destruct Hm as (x & s & -> & -> & ->). exact Hk.
  - destruct Hm as (w & s & -> & Hw & Hlo & Hhi & ->).
    now apply rep_complete.
  - destruct Hm as (m & H1 & H2).
    apply (IH1 st m); [assumption|]. now apply (IH2 m st').
  - destruct (rmatch r1 st k) eqn:E1; [eauto|].
    destruct Hm as [Hm|Hm]; [|now apply (IH2 st st')].
    apply (IH1 st st' k) in Hm; [|assumption]. rewrite E1 in Hm. now destruct Hm.
  - destruct (rmatch r st k) eqn:E1; [eauto|].
    destruct Hm as [Hm| ->]; [|assumption].
    apply (IH st st' k) in Hm; [|assumption]. rewrite E1 in Hm. now destruct Hm.
  - destruct Hm as [-> ->]. exact Hk.
  - destruct Hm as (m & Hm & ->).
    now apply (IH st m).
Qed.

Lemma last_char_app (d : option ascii) (a b : string) :
  last_char d (a ++ b) = last_char (last_char d a) b.
Proof. revert d. induction a as [|c a IH]; intros d; simpl; [reflexivity | apply IH]. Qed.

Lemma string_app_assoc (a b c : string) : (a ++ b) ++ c = a ++ (b ++ c).
Proof. induction a as [|x a IH]; simpl; [reflexivity | now f_equal]. Qed.

Lemma search_from_sound_at (r : regex) (b : string) :
  forall (a : string) (st' : mstate),
    search_from r (last_char None a) b = Some st' -> match_at r (a ++ b) st'.
Proof.
  induction b as [|c b IH]; intros a st' H; simpl in H.
  - destruct (rmatch r (MState (last_char None a) EmptyString 0 None) Some) as [m|] eqn:Hm;
      [|discriminate].
    injection H as ->. apply rmatch_sound in Hm as (st'' & Hst & [= ->]).
    now exists a, EmptyString.
  - destruct (rmatch r (MState (last_char None a) (String c b) 0 None) Some) as [m|] eqn:Hm.
    + injection H as ->. apply rmatch_sound in Hm as (st'' & Hst & [= ->]).
      now exists a, (String c b).
    + specialize (IH (a ++ String c EmptyString) st').
      rewrite last_char_app, string_app_assoc in IH. simpl in IH. now apply IH.
Qed.

(** What [search] returns is a match somewhere in the text. *)
Lemma search_sound (r : regex) (text : string) (st' : mstate) :
  search r text = Some st' -> match_at r text st'.
Proof. intros H. now apply (search_from_sound_at r text EmptyString). Qed.

Lemma search_from_complete (r : regex) (a : string) :
  forall (pv : option ascii) (b : string) (st' : mstate),
    matches r (MState (last_char pv a) b 0 None) st' ->
    is_Some (search_from r pv (a ++ b)).
Proof.
  induction a as [|c a IH]; intros pv b st' Hm; simpl in *.
  - assert (Hr : is_Some (rmatch r (MState pv b 0 None) Some))
      by (apply (rmatch_complete r _ st'); [assumption | eauto]).
    destruct Hr as [m Hr]. destruct b; simpl; rewrite Hr; eauto.
  - destruct (rmatch r (MState pv (String c (a ++ b)) 0 None) Some); [eauto|].
    now apply (IH (Some c) b st').
Qed.

(** [search] succeeds whenever the pattern matches somewhere in the text. *)
Lemma search_complete (r : regex) (text : string) (st' : mstate) :
  match_at r text st' -> is_Some (search r text).
Proof.
  intros (a & b & -> & Hm). now apply (search_from_complete r a None b st').
Qed.

Lemma search_none (r : regex) (text : string) :
  search r text = None <-> forall st', ~ match_at r text st'.
Proof.
  split.
  - intros Hn st' Hm. apply search_complete in Hm as [m Hm]. congruence.
  - intros Hno. destruct (search r text) as [m|] eqn:E; [|reflexivity].
    apply search_sound in E. now apply Hno in E.
Qed.

End MatcherComplete.

(* ===================================================================== *)
(** * Properties: searching past a prefix *)
(* ===================================================================== *)

Section SearchFacts.
Import Text Regex MatchSpec.

Lemma lower_app (a b : string) : lower (a ++ b) = lower a ++ lower b.
Proof. induction a as [|c a IH]; simpl; [reflexivity | now f_equal]. Qed.

Lemma is_digit_lower_char (c : ascii) : is_digit (lower_char c) = is_digit c.
Proof. destruct c as [[] [] [] [] [] [] [] []]; reflexivity. Qed.

Lemma is_word_lower_char (c : ascii) : is_word (lower_char c) = is_word c.
Proof. destruct c as [[] [] [] [] [] [] [] []]; reflexivity. Qed.

Lemma lower_char_idem (c : ascii) : lower_char (lower_char c) = lower_char c.
Proof. destruct c as [[] [] [] [] [] [] [] []]; reflexivity. Qed.

Lemma last_char_lower (d : option ascii) (s : string) :
  last_char (lower_char <$> d) (lower s) = lower_char <$> last_char d s.
Proof.
  revert d. induction s as [|c s IH]; intros d; simpl; [reflexivity|].
  apply (IH (Some c)).
Qed.

(** The search moves past a prefix in which no match starts. *)
Lemma search_from_skip (r : regex) (pre : string) :
  forall (pv : option ascii) (s : string),
    (forall a c b, pre = a ++ String c b ->
       rmatch r (MState (last_char pv a) (String c b ++ s) 0 None) Some = None) ->
    search_from r pv (pre ++ s) = search_from r (last_char pv pre) s.
Proof.
  induction pre as [|x pre IH]; intros pv s Hno; [reflexivity|].
  pose proof (Hno EmptyString x pre eq_refl) as H0. simpl in H0.
  simpl. rewrite H0.
  apply IH. intros a c b ->. apply (Hno (String x a) c b eq_refl).
Qed.

Lemma search_from_hit (r : regex) (pv : option ascii) (s : string) (st : mstate) :
  rmatch r (MState pv s 0 None) Some = Some st -> search_from r pv s = Some st.
Proof. intros H. destruct s; simpl; now rewrite H. Qed.

(** A piece [String c b] of a text without digits begins with a non-digit. *)
Lemma all_chars_piece (p : ascii -> bool) (a b : string) (c : ascii) :
  all_chars p (a ++ String c b) = true -> p c = true.
Proof.
  induction a as [|x a IH]; simpl; intros H; apply andb_prop in H as [H1 H2]; auto.
Qed.

Lemma all_chars_lower (p : ascii -> bool) (s : string) :
  (forall c, p (lower_char c) = p c) -> all_chars p (lower s) = all_chars p s.
Proof.
  intros Hp. induction s as [|c s IH]; simpl; [reflexivity | now rewrite Hp, IH].
Qed.

End SearchFacts.

Section GigabyteFacts.
Import Text Regex MatchSpec.

Lemma ends_in_word_lower (s : string) : ends_in_word (lower s) = ends_in_word s.
Proof.
  unfold ends_in_word.
  pose proof (last_char_lower None s) as H. simpl in H. rewrite H.
  destruct (last_char None s); simpl; [apply is_word_lower_char | reflexivity].
Qed.

(** At a word boundary before ["16gb ram, 512gb storage"], both gigabyte
    patterns match at once and capture the figure 16. *)
Lemma gigabyte_hit_16 (rx : regex) (pv : option ascii) (post : string) :
  rx = Utils.RX_RAM_GB \/ rx = Utils.RX_STORAGE_GB ->
  match pv with Some c => is_word c | None => false end = false ->
  exists st, rmatch rx (MState pv ("16gb ram, 512gb storage" ++ post) 0 None) Some = Some st /\
             grp1 st = Some "16".
Proof.
  intros Hrx Hpv.
  destruct pv as [c0|]; destruct Hrx as [-> | ->];
    unfold Utils.RX_RAM_GB, Utils.RX_STORAGE_GB, seq; simpl foldr;
    cbn [rmatch]; unfold at_boundary at 1, word_before, word_after; cbn [prev rest];
    try rewrite Hpv;
    (eexists; split; [lazy; reflexivity | reflexivity]).
Qed.

End GigabyteFacts.

(** A one-digit RAM figure is out of reach of the storage pattern, which
    asks for two digits at least: the storage figure is then read. *)
Example one_digit_ram_title :
  let attrs := Utils.parse_generic_attrs_from_title "Lenovo 8GB RAM, 512GB storage" in
  attrs !! "ram_gb" = Some (VStr "8") /\ attrs !! "storage_gb" = Some (VStr "512").
Proof. cbv zeta. split; vm_compute; reflexivity. Qed.

(* ===================================================================== *)
(** * Properties: the budget *)
(* ===================================================================== *)

Section BudgetFacts.
Import Text Regex MatchSpec.

Lemma take_app_length (w s : string) : take (String.length w) (w ++ s) = w.
Proof. induction w as [|c w IH]; simpl; [now destruct s | now f_equal]. Qed.

Lemma take_added (w s : string) (n : nat) :
  take (String.length w + n - n) (w ++ s) = w.
Proof. replace (String.length w + n - n) with (String.length w) by lia. apply take_app_length. Qed.

(** Group 1 of a match of [RX_UNDER_K] is a non-empty string of digits. *)
Lemma under_k_group (st0 st' : mstate) :
  matches ParserAgent.RX_UNDER_K st0 st' ->
  exists g, grp1 st' = Some g /\ digit_figure g = true.
Proof.
  intros H. unfold ParserAgent.RX_UNDER_K, seq, spaces, digits in H. simpl in H.
  destruct H as (m1 & Hlit & m2 & Hsp & m3 & Hgrp & m4 & Hsp' & m5 & Hk & m6 & [_ ->] & ->).
  destruct Hk as (x & s & _ & _ & ->).
  destruct Hsp' as (w' & s' & _ & _ & _ & _ & ->).
  destruct Hgrp as (m & (w & s0 & Hrest & Hw & Hlen & _ & ->) & ->).
  simpl. rewrite Hrest, take_added.
  exists w. split; [reflexivity|]. unfold digit_figure. rewrite Hw.
  destruct w; [simpl in Hlen; lia | reflexivity].
Qed.

(** Group 1 of a match of [RX_BUDGET_ANY] is a digit followed by digits and
    commas. *)
Lemma budget_any_group (st0 st' : mstate) :
  matches ParserAgent.RX_BUDGET_ANY st0 st' ->
  exists g, grp1 st' = Some g /\ comma_figure g = true.
Proof.
  intros H. unfold ParserAgent.RX_BUDGET_ANY, seq, spaces in H. simpl in H.
  destruct H as (m1 & _ & m2 & _ & m3 & Hgrp & ->).
  destruct Hgrp as (m & (m4 & (x & s & Hrest & Hx & ->) & (w & s0 & Hrest' & Hw & _ & _ & ->)) & ->).
  simpl in *. subst s. rewrite Hrest.
  replace (String.length w + S (pos m2) - pos m2) with (S (String.length w)) by lia.
  simpl. rewrite take_app_length.
  exists (String x w). split; [reflexivity|]. simpl. now rewrite Hx, Hw.
Qed.

Lemma search_group (r : regex) (text : string) (P : string -> bool) :
  (forall st0 st', matches r st0 st' -> exists g, grp1 st' = Some g /\ P g = true) ->
  forall st', match_at r text st' ->
  exists m g, search r text = Some m /\ grp1 m = Some g /\ P g = true.
Proof.
  intros Hgrp st' Hat. destruct (search_complete r text st' Hat) as [m Hm].
  pose proof (search_sound r text m Hm) as (a & b & _ & Hmatch).
  destruct (Hgrp _ _ Hmatch) as (g & Hg & HP). eauto.
Qed.

End BudgetFacts.

Section BudgetInstances.
Import Text Regex MatchSpec.

Lemma all_chars_app (p : ascii -> bool) (a b : string) :
  all_chars p (a ++ b) = all_chars p a && all_chars p b.
Proof. induction a as [|c a IH]; simpl; [reflexivity | now rewrite IH, andb_assoc]. Qed.

Lemma lowered_lower (s : string) : lowered (lower s) = true.
Proof.
  induction s as [|c s IH]; simpl; [reflexivity|].
  unfold lowered in *. simpl. now rewrite lower_char_idem, Ascii.eqb_refl.
Qed.

(** On lowered text a literal of lower-case letters matches only where the
    text starts with it. *)
Lemma lit_starts_with (w : string) :
  lowered w = true ->
  forall st m, lowered (rest st) = true -> matches (lit w) st m ->
               starts_with w (rest st) = true /\ lowered (rest m) = true.
Proof.
  unfold lowered.
  induction w as [|c w IH]; intros Hw st m Hst Hm; simpl in Hw.
  - simpl in Hm. subst m. now split.
  - apply andb_prop in Hw as [Hc Hw]. apply Ascii.eqb_eq in Hc.
    assert (Hone : forall m1, matches (Lit c) st m1 ->
              exists s, rest st = String c s /\ rest m1 = s /\ all_chars (fun c => Ascii.eqb (lower_char c) c) s = true).
    { intros m1 (x & s & Hrest & Hx & ->). rewrite Hrest in Hst. simpl in Hst.
      apply andb_prop in Hst as [Hx' Hs]. apply Ascii.eqb_eq in Hx'.
      exists s. rewrite Hrest. repeat split; [|assumption]. congruence. }
    destruct w as [|c' w].
    + destruct (Hone m Hm) as (s & Hrest & Hm' & Hs).
      rewrite Hrest, Hm'. simpl. now rewrite Ascii.eqb_refl.
    + change (lit (String c (String c' w))) with (Cat (Lit c) (lit (String c' w))) in Hm.
      destruct Hm as (m1 & H1 & H2).
      destruct (Hone m1 H1) as (s & Hrest & Hm1 & Hs).
      rewrite <- Hm1 in Hs. destruct (IH Hw m1 m Hs H2) as [Hsw Hlow].
      split; [|assumption]. rewrite Hrest. rewrite Hm1 in Hsw.
      change (starts_with (String c (String c' w)) (String c s))
        with (Ascii.eqb c c && starts_with (String c' w) s).
      now rewrite Ascii.eqb_refl, Hsw.
Qed.

Lemma starts_nowhere_piece (w tail : string) (a b : string) (c : ascii) :
  starts_nowhere_in w (a ++ String c b) tail = true ->
  starts_with w (String c b ++ tail) = false.
Proof.
  induction a as [|x a IH]; simpl; intros H; apply andb_prop in H as [H1 H2].
  - now apply negb_true_iff in H1.
  - now apply IH.
Qed.

(** [RX_UNDER_K] cannot match where the text does not start with "under". *)
Lemma under_k_needs_under (pv : option ascii) (s : string) :
  lowered s = true -> starts_with "under" s = false ->
  rmatch ParserAgent.RX_UNDER_K (MState pv s 0 None) Some = None.
Proof.
  intros Hlow Hno.
  destruct (rmatch ParserAgent.RX_UNDER_K (MState pv s 0 None) Some) as [m|] eqn:E;
    [|reflexivity].
  apply rmatch_sound in E as (st' & Hm & _).
  unfold ParserAgent.RX_UNDER_K, seq in Hm. simpl foldr in Hm.
  destruct Hm as (m1 & Hlit & _).
  apply (lit_starts_with "under" eq_refl) in Hlit as [Hsw _]; [|assumption].
  cbn [rest] in Hsw. congruence.
Qed.

(** [RX_BUDGET_ANY] cannot match where the text starts with no budget word. *)
Lemma budget_any_needs_word (pv : option ascii) (s : string) :
  lowered s = true -> existsb (fun w => starts_with w s) BUDGET_WORDS = false ->
  rmatch ParserAgent.RX_BUDGET_ANY (MState pv s 0 None) Some = None.
Proof.
  intros Hlow Hno.
  destruct (rmatch ParserAgent.RX_BUDGET_ANY (MState pv s 0 None) Some) as [m|] eqn:E;
    [|reflexivity].
  apply rmatch_sound in E as (st' & Hm & _).
  unfold ParserAgent.RX_BUDGET_ANY, seq in Hm. simpl foldr in Hm.
  destruct Hm as (m1 & Hword & _).
  unfold BUDGET_WORDS in Hno. cbn [existsb] in Hno.
  apply orb_false_elim in Hno as [H1 Hno]. apply orb_false_elim in Hno as [H2 Hno].
  apply orb_false_elim in Hno as [H3 Hno]. apply orb_false_elim in Hno as [H4 _].
  destruct Hword as [Hw|[Hw|[Hw|Hw]]];
    [ apply (lit_starts_with "under" eq_refl) in Hw as [Hsw _]
    | apply (lit_starts_with "below" eq_refl) in Hw as [Hsw _]
    | apply (lit_starts_with "less than" eq_refl) in Hw as [Hsw _]
    | apply (lit_starts_with "<=" eq_refl) in Hw as [Hsw _] ];
    try assumption; cbn [rest] in Hsw; congruence.
Qed.

Lemma under_5k_hit (pv : option ascii) (post : string) :
  head_outside is_word post = true ->
  rmatch ParserAgent.RX_UNDER_K (MState pv ("under 5k" ++ post) 0 None) Some ≫= grp1
  = Some "5".
Proof.
  intros H. destruct post as [|c0 l]; [vm_compute; reflexivity|].
  simpl in H. apply negb_true_iff in H.
  cbv -[is_word]. rewrite H. reflexivity.
Qed.

Lemma under_4500_hit (pv : option ascii) (post : string) :
  head_outside ParserAgent.is_09_comma post = true ->
  rmatch ParserAgent.RX_BUDGET_ANY (MState pv ("under 4,500" ++ post) 0 None) Some ≫= grp1
  = Some "4,500".
Proof.
  intros H. destruct post as [|c0 l]; [vm_compute; reflexivity|].
  simpl in H. apply negb_true_iff in H.
  cbv -[ParserAgent.is_09_comma]. rewrite H. reflexivity.
Qed.

Lemma search_from_hit_group (r : regex) (pv : option ascii) (s g : string) :
  rmatch r (MState pv s 0 None) Some ≫= grp1 = Some g ->
  exists m, search_from r pv s = Some m /\ grp1 m = Some g.
Proof.
  intros H. destruct (rmatch r (MState pv s 0 None) Some) as [m|] eqn:E; [|discriminate].
  exists m. split; [now apply search_from_hit | exact H].
Qed.

Lemma lowered_piece (pre tail a b : string) (c : ascii) :
  lowered pre = true -> lowered tail = true -> pre = a ++ String c b ->
  lowered (String c b ++ tail) = true.
Proof.
  unfold lowered. intros Hpre Htail ->.
  rewrite all_chars_app in Hpre. apply andb_prop in Hpre as [_ Hcb].
  now rewrite all_chars_app, Hcb, Htail.
Qed.

(** [parse_budget] on a lowered text whose first "under" begins "under 5k",
    the k at a word boundary. *)
Lemma parse_budget_under_5k (pre post : string) :
  lowered pre = true -> lowered post = true ->
  starts_nowhere_in "under" pre ("under 5k" ++ post) = true ->
  head_outside is_word post = true ->
  ParserAgent.parse_budget (pre ++ "under 5k" ++ post) = Some 5000%Z.
Proof.
  intros Hpre Hpost Hfirst Hend.
  assert (Hs : exists m, search ParserAgent.RX_UNDER_K (pre ++ "under 5k" ++ post) = Some m /\
                         grp1 m = Some "5").
  { unfold search. rewrite search_from_skip.
    - apply search_from_hit_group, under_5k_hit, Hend.
    - intros a c b E. apply under_k_needs_under.
      + apply (lowered_piece pre _ a b c Hpre); [|exact E].
        unfold lowered in *. now rewrite all_chars_app, Hpost.
      + subst pre. now apply starts_nowhere_piece in Hfirst. }
  destruct Hs as (m & Hm & Hg).
  unfold ParserAgent.parse_budget, ParserAgent.group1. now rewrite Hm, Hg.
Qed.

(** [parse_budget] on a lowered text in which [RX_UNDER_K] finds nothing and
    whose first budget word begins "under 4,500", the figure ending there. *)
Lemma parse_budget_under_4500 (pre post : string) :
  lowered pre = true -> lowered post = true ->
  no_budget_word_in pre ("under 4,500" ++ post) = true ->
  head_outside ParserAgent.is_09_comma post = true ->
  search ParserAgent.RX_UNDER_K (pre ++ "under 4,500" ++ post) = None ->
  ParserAgent.parse_budget (pre ++ "under 4,500" ++ post) = Some 4500%Z.
Proof.
  intros Hpre Hpost Hfirst Hend Hnok.
  assert (Hs : exists m, search ParserAgent.RX_BUDGET_ANY (pre ++ "under 4,500" ++ post) = Some m /\
                         grp1 m = Some "4,500").
  { unfold search. rewrite search_from_skip.
    - apply search_from_hit_group, under_4500_hit, Hend.
    - intros a c b E. apply budget_any_needs_word.
      + apply (lowered_piece pre _ a b c Hpre); [|exact E].
        unfold lowered in *. now rewrite all_chars_app, Hpost.
      + subst pre. apply not_true_iff_false. intros Hex.
        apply existsb_exists in Hex as (w & Hin & Hw).
        unfold no_budget_word_in in Hfirst.
        rewrite forallb_forall in Hfirst. specialize (Hfirst w Hin).
        apply starts_nowhere_piece in Hfirst. congruence. }
  destruct Hs as (m & Hm & Hg).
  unfold ParserAgent.parse_budget, ParserAgent.group1. now rewrite Hnok, Hm, Hg.
Qed.

End BudgetInstances.

Section BudgetOfQuery.
Import Text Regex MatchSpec.

Lemma is_09_comma_lower_char (c : ascii) :
  ParserAgent.is_09_comma (lower_char c) = ParserAgent.is_09_comma c.
Proof. destruct c as [[] [] [] [] [] [] [] []]; reflexivity. Qed.

Lemma head_outside_lower (p : ascii -> bool) (s : string) :
  (forall c, p (lower_char c) = p c) -> head_outside p (lower s) = head_outside p s.
Proof. intros Hp. destruct s; simpl; [reflexivity | now rewrite Hp]. Qed.

Lemma budget_of_query (query : string) :
  get_budget (ParserAgent.parse_constraints query) = ParserAgent.parse_budget (lower query).
Proof. reflexivity. Qed.

End BudgetOfQuery.

Section BudgetHits.
Import Text Regex MatchSpec.

(** A greedy repetition over a run of the class that ends where the class
    ends takes the whole run, provided the rest of the pattern goes on from
    there. *)
Lemma rep_greedy {A : Type} (p : ascii -> bool) (k : mstate -> option A) (w : string) :
  forall (s : string) (lo : nat) (pv : option ascii) (n : nat) (g : option string),
    all_chars p w = true -> head_outside p s = true -> lo <= String.length w ->
    is_Some (k (MState (last_char pv w) s (String.length w + n) g)) ->
    rep p lo None pv (w ++ s) n g k = k (MState (last_char pv w) s (String.length w + n) g).
Proof.
  induction w as [|c w IH]; intros s lo pv n g Hall Hout Hlo Hk; simpl in *.
  - assert (lo = 0) as -> by lia.
    destruct s as [|x s]; [reflexivity|]. simpl in Hout.
    apply negb_true_iff in Hout. simpl. now rewrite Hout.
  - apply andb_true_iff in Hall as [Hc Hall]. rewrite Hc. simpl.
    replace (S (String.length w + n)) with (String.length w + S n) in * by lia.
    rewrite (IH s (Nat.pred lo) (Some c) (S n) g Hall Hout ltac:(lia) Hk).
    destruct Hk as [a Ha]. now rewrite Ha.
Qed.

Lemma append_nil_r (s : string) : s ++ "" = s.
Proof. induction s as [|c s IH]; simpl; [reflexivity | now rewrite IH]. Qed.

(** Every text splits into its longest head in a class and a rest. *)
Lemma span_class (p : ascii -> bool) (u : string) :
  exists w s, u = w ++ s /\ all_chars p w = true /\ head_outside p s = true.
Proof.
  induction u as [|c u (w & s & -> & Hw & Hs)].
  - now exists "", "".
  - destruct (p c) eqn:Hc.
    + exists (String c w), s. simpl. now rewrite Hc, Hw.
    + exists "", (String c (w ++ s)). simpl. now rewrite Hc.
Qed.

Lemma digit_not_space (c : ascii) : is_digit c = true -> is_space c = false.
Proof. destruct c as [[] [] [] [] [] [] [] []]; simpl; intros H; (discriminate || reflexivity). Qed.

Lemma space_not_digit (c : ascii) : is_space c = true -> is_digit c = false.
Proof. destruct c as [[] [] [] [] [] [] [] []]; simpl; intros H; (discriminate || reflexivity). Qed.

Lemma under_k_hit (pv : option ascii) (sp n sp' post : string) :
  blank sp = true -> digit_figure n = true -> blank sp' = true ->
  head_outside is_word post = true ->
  rmatch ParserAgent.RX_UNDER_K (MState pv ("under" ++ sp ++ n ++ sp' ++ "k" ++ post) 0 None) Some
    ≫= grp1 = Some n.
Proof.
  unfold blank, digit_figure. intros Hsp Hn Hsp' Hpost.
  apply andb_true_iff in Hn as [Hne Hn].
  assert (Hlen : 1 <= String.length n) by (destruct n; [discriminate | simpl; lia]).
  assert (F1 : head_outside is_space (n ++ sp' ++ String "k" post) = true).
  { destruct n as [|d n']; [discriminate|]. simpl in *.
    apply andb_true_iff in Hn as [Hd _]. now rewrite (digit_not_space d Hd). }
  assert (F3 : head_outside is_digit (sp' ++ String "k" post) = true).
  { destruct sp' as [|c sp'']; [reflexivity|]. simpl in *.
    apply andb_true_iff in Hsp' as [Hc _]. now rewrite (space_not_digit c Hc). }
  assert (F4 : head_outside is_space (String "k" post) = true) by reflexivity.
  assert (F5 : forall st, at_boundary (advance st "k" post) = true).
  { intros st. unfold at_boundary, word_before, word_after, advance. simpl.
    destruct post as [|c post']; [reflexivity|]. simpl in Hpost.
    apply negb_true_iff in Hpost. now rewrite Hpost. }
  unfold ParserAgent.RX_UNDER_K, seq, spaces, digits. simpl.
  repeat (rewrite rep_greedy; cbn [prev rest pos grp1]; try assumption; try lia).
  all: try rewrite F5.
  all: change (lower_char "k" =? lower_char "k")%char with true; cbn iota.
  all: try (eexists; reflexivity).
  unfold advance. cbn [mbind option_bind grp1]. now rewrite take_added.
Qed.

Lemma budget_any_hit (pv : option ascii) (w sp f post : string) :
  w ∈ BUDGET_WORDS -> blank sp = true -> comma_figure f = true ->
  head_outside ParserAgent.is_09_comma post = true ->
  rmatch ParserAgent.RX_BUDGET_ANY (MState pv (w ++ sp ++ f ++ post) 0 None) Some
    ≫= grp1 = Some f.
Proof.
  unfold blank. intros Hw Hsp Hf Hpost.
  destruct f as [|d f']; [discriminate|]. simpl in Hf.
  apply andb_true_iff in Hf as [Hd Hf].
  assert (F1 : head_outside is_space (String d f' ++ post) = true).
  { simpl. now rewrite (digit_not_space d Hd). }
  unfold BUDGET_WORDS in Hw.
  repeat (apply elem_of_cons in Hw as [->|Hw]); [| | | |now apply elem_of_nil in Hw];
    unfold ParserAgent.RX_BUDGET_ANY, seq, spaces; simpl;
    repeat (rewrite rep_greedy; cbn [prev rest pos grp1]; try assumption; try lia).
  all: rewrite ?Hd; try (eexists; reflexivity).
  all: cbn [mbind option_bind grp1];
    match goal with |- context [take (?a + S ?k - ?k) _] =>
      replace (a + S k - k) with (S a) by lia end;
    simpl; now rewrite take_app_length.
Qed.

End BudgetHits.

Section LeftmostMatch.
Import Text Regex MatchSpec.

(** Past a prefix inside which the pattern matches nowhere, the search goes
    on at the end of the prefix. *)
Lemma search_past_unmatched (r : regex) (pre tail : string) :
  matches_nowhere_in r pre tail ->
  search r (pre ++ tail) = search_from r (last_char None pre) tail.
Proof.
  intros Hno. unfold search. apply search_from_skip. intros a c b E.
  destruct (rmatch r (MState (last_char None a) (String c b ++ tail) 0 None) Some) as [m|] eqn:Hm;
    [|reflexivity].
  apply rmatch_sound in Hm as (st' & Hst & _). now apply (Hno a b c st') in Hst.
Qed.

(** The match [search] returns is the leftmost one. *)
Lemma search_from_leftmost (r : regex) (b : string) :
  forall (a : string) (m : mstate),
    search_from r (last_char None a) b = Some m ->
    exists a' b', b = a' ++ b' /\
      matches r (MState (last_char None (a ++ a')) b' 0 None) m /\
      forall (x y : string) (c : ascii) (st' : mstate),
        a' = x ++ String c y ->
        ~ matches r (MState (last_char None (a ++ x)) (String c y ++ b') 0 None) st'.
Proof.
  induction b as [|c b IH]; intros a m H; simpl in H.
  - destruct (rmatch r (MState (last_char None a) EmptyString 0 None) Some) as [m'|] eqn:Hm;
      [|discriminate].
    injection H as ->. apply rmatch_sound in Hm as (st'' & Hst & [= ->]).
    exists "", "". rewrite (append_nil_r a). repeat split; [exact Hst|].
    intros x y c st' E. destruct x; discriminate.
  - destruct (rmatch r (MState (last_char None a) (String c b) 0 None) Some) as [m'|] eqn:Hm.
    + injection H as ->. apply rmatch_sound in Hm as (st'' & Hst & [= ->]).
      exists "", (String c b). rewrite (append_nil_r a). repeat split; [exact Hst|].
      intros x y c' st' E. destruct x; discriminate.
    + specialize (IH (a ++ String c EmptyString) m).
      rewrite last_char_app in IH. simpl in IH.
      destruct (IH H) as (a' & b' & Hb & Hmatch & Hleft).
      exists (String c a'), b'. split; [simpl; now rewrite Hb|]. split.
      * rewrite string_app_assoc in Hmatch. exact Hmatch.
      * intros x y c' st' E Hbad. destruct x as [|c0 x]; simpl in E.
        -- injection E as <- <-. rewrite (append_nil_r a) in Hbad. simpl in Hbad. rewrite <- Hb in Hbad.
           assert (Hs : is_Some (rmatch r (MState (last_char None a) (String c b) 0 None) Some))
             by (apply (rmatch_complete r _ st'); [exact Hbad | eauto]).
           rewrite Hm in Hs. now destruct Hs.
        -- injection E as <- ->.
           apply (Hleft x y c' st' eq_refl).
           rewrite string_app_assoc. exact Hbad.
Qed.

Lemma search_leftmost (r : regex) (text : string) (m : mstate) :
  search r text = Some m ->
  exists pre tail, text = pre ++ tail /\
    matches r (MState (last_char None pre) tail 0 None) m /\
    matches_nowhere_in r pre tail.
Proof.
  intros H. destruct (search_from_leftmost r text "" m H) as (a' & b' & -> & Hm & Hleft).
  exists a', b'. split; [reflexivity|]. split; [exact Hm|].
  intros a b c st' E. exact (Hleft a b c st' E).
Qed.

End LeftmostMatch.

Section BudgetReadings.
Import Text Regex MatchSpec.

Lemma parse_budget_under_n_k (q n : string) :
  under_k_reading q n -> ParserAgent.parse_budget q = Some (int_of_digits n * 1000)%Z.
Proof.
  intros (pre & sp & sp' & post & -> & Hsp & Hn & Hsp' & Hpost & Hleft).
  unfold ParserAgent.parse_budget. rewrite (search_past_unmatched _ _ _ Hleft).
  destruct (search_from_hit_group _ (last_char None pre) _ n
              (under_k_hit _ sp n sp' post Hsp Hn Hsp' Hpost)) as (m & Hm & Hg).
  unfold ParserAgent.group1. now rewrite Hm, Hg.
Qed.

Lemma parse_budget_word_figure (q f : string) :
  search ParserAgent.RX_UNDER_K q = None ->
  budget_word_reading q f ->
  ParserAgent.parse_budget q = Some (int_of_digits (remove_char "," f)).
Proof.
  intros Hno (pre & w & sp & post & E & Hw & Hsp & Hf & Hpost & Hleft).
  unfold ParserAgent.parse_budget. rewrite Hno. subst q.
  rewrite (search_past_unmatched _ _ _ Hleft).
  destruct (search_from_hit_group _ (last_char None pre) _ f
              (budget_any_hit _ w sp f post Hw Hsp Hf Hpost)) as (m & Hm & Hg).
  unfold ParserAgent.group1. now rewrite Hm, Hg.
Qed.

(** On lowered text a literal of lower-case letters stands at the cursor,
    and the match moves the cursor past it. *)
Lemma lit_consumes (w : string) :
  lowered w = true ->
  forall st m, lowered (rest st) = true -> matches (lit w) st m -> rest st = w ++ rest m.
Proof.
  unfold lowered.
  induction w as [|c w IH]; intros Hw st m Hst Hm; simpl in Hw.
  - simpl in Hm. now subst m.
  - apply andb_prop in Hw as [Hc Hw]. apply Ascii.eqb_eq in Hc.
    assert (Hone : forall m1, matches (Lit c) st m1 ->
              rest st = String c (rest m1) /\
              all_chars (fun c => Ascii.eqb (lower_char c) c) (rest m1) = true).
    { intros m1 (x & s & Hrest & Hx & ->). rewrite Hrest in Hst. simpl in Hst.
      apply andb_prop in Hst as [Hx' Hs]. apply Ascii.eqb_eq in Hx'.
      rewrite Hrest. simpl. split; [|exact Hs]. congruence. }
    destruct w as [|c' w].
    + destruct (Hone m Hm) as [Hrest _]. exact Hrest.
    + change (lit (String c (String c' w))) with (Cat (Lit c) (lit (String c' w))) in Hm.
      destruct Hm as (m1 & H1 & H2).
      destruct (Hone m1 H1) as [Hrest Hs].
      rewrite Hrest. rewrite (IH Hw m1 m Hs H2). reflexivity.
Qed.

Lemma lowered_app (a b : string) : lowered (a ++ b) = lowered a && lowered b.
Proof. apply all_chars_app. Qed.

(** A match of [RX_UNDER_K] on lowered text spells "under", blanks, digits,
    blanks and "k", the k at a word boundary; group 1 is the digits. *)
Lemma under_k_shape (pv : option ascii) (b : string) (m : mstate) :
  lowered b = true ->
  matches ParserAgent.RX_UNDER_K (MState pv b 0 None) m ->
  exists sp n sp' post,
    b = "under" ++ sp ++ n ++ sp' ++ "k" ++ post /\
    blank sp = true /\ digit_figure n = true /\ blank sp' = true /\
    head_outside is_word post = true.
Proof.
  intros Hlow H. unfold ParserAgent.RX_UNDER_K, seq, spaces, digits in H. simpl foldr in H.
  destruct H as (m1 & Hlit & m2 & Hsp & m3 & Hgrp & m4 & Hsp' & m5 & Hk & m6 & [Hb ->] & ->).
  apply (lit_consumes "under" eq_refl) in Hlit; [|exact Hlow]. cbn [rest] in Hlit.
  destruct Hsp as (w1 & s1 & Hr1 & Hw1 & _ & _ & ->).
  destruct Hgrp as (m & (w2 & s2 & Hr2 & Hw2 & Hlen & _ & ->) & ->).
  destruct Hsp' as (w3 & s3 & Hr3 & Hw3 & _ & _ & ->).
  destruct Hk as (x & s4 & Hr4 & Hx & ->).
  cbn [rest moved] in *. subst s3. rewrite Hr3 in Hr2. rewrite Hr2 in Hr1. rewrite Hr1 in Hlit.
  assert (Hxk : x = "k"%char).
  { rewrite Hlit in Hlow. rewrite !lowered_app in Hlow.
    do 4 (apply andb_true_iff in Hlow as [_ Hlow]).
    unfold lowered in Hlow. simpl in Hlow. apply andb_true_iff in Hlow as [Hlx _].
    apply Ascii.eqb_eq in Hlx. rewrite <- Hlx. exact Hx. }
  subst x. exists w1, w2, w3, s4. split; [exact Hlit|].
  split; [exact Hw1|]. split.
  - unfold digit_figure. rewrite Hw2. destruct w2; [simpl in Hlen; lia | reflexivity].
  - split; [exact Hw3|].
    unfold at_boundary, word_before, word_after, advance in Hb. cbn [prev rest] in Hb.
    destruct s4 as [|c s4]; [reflexivity|]. simpl in *. now destruct (is_word c).
Qed.

(** A match of [RX_BUDGET_ANY] on lowered text spells a budget word, blanks
    and a figure; the figure can be taken as long as it goes. *)
Lemma budget_any_shape (pv : option ascii) (b : string) (m : mstate) :
  lowered b = true ->
  matches ParserAgent.RX_BUDGET_ANY (MState pv b 0 None) m ->
  exists w sp f post,
    b = w ++ sp ++ f ++ post /\
    w ∈ BUDGET_WORDS /\ blank sp = true /\ comma_figure f = true /\
    head_outside ParserAgent.is_09_comma post = true.
Proof.
  intros Hlow H. unfold ParserAgent.RX_BUDGET_ANY, seq, spaces in H. simpl foldr in H.
  destruct H as (m1 & Hword & m2 & Hsp & m3 & Hgrp & ->).
  assert (Hw : exists w, w ∈ BUDGET_WORDS /\ b = w ++ rest m1).
  { unfold BUDGET_WORDS.
    destruct Hword as [Hw|[Hw|[Hw|Hw]]];
      [ apply (lit_consumes "under" eq_refl) in Hw; [exists "under"|exact Hlow]
      | apply (lit_consumes "below" eq_refl) in Hw; [exists "below"|exact Hlow]
      | apply (lit_consumes "less than" eq_refl) in Hw; [exists "less than"|exact Hlow]
      | apply (lit_consumes "<=" eq_refl) in Hw; [exists "<="|exact Hlow] ];
      (split; [apply list_elem_of_In; simpl; tauto | exact Hw]). }
  destruct Hw as (w & Hin & Hb).
  destruct Hsp as (w1 & s1 & Hr1 & Hw1 & _ & _ & ->).
  destruct Hgrp as (m & (m4 & (x & s & Hrest & Hx & ->) & (w2 & s2 & Hr2 & Hw2 & _ & _ & ->)) & ->).
  cbn [rest moved advance] in *. subst s. 
  destruct (span_class ParserAgent.is_09_comma s2) as (w3 & s3 & -> & Hw3 & Hs3).
  exists w, w1, (String x (w2 ++ w3)), s3. split.
  - rewrite Hb, Hr1, Hrest. simpl. now rewrite string_app_assoc.
  - split; [exact Hin|]. split; [exact Hw1|]. split; [|exact Hs3].
    simpl. now rewrite Hx, all_chars_app, Hw2, Hw3.
Qed.

Lemma lowered_tail (pre tail : string) : lowered (pre ++ tail) = true -> lowered tail = true.
Proof. rewrite lowered_app. intros H. now apply andb_true_iff in H as [_ H]. Qed.

(** Wherever [RX_UNDER_K] matches in a lowered text, its leftmost match
    reads some figure. *)
Lemma under_k_reading_exists (q : string) (m : mstate) :
  lowered q = true -> search ParserAgent.RX_UNDER_K q = Some m ->
  exists n, under_k_reading q n.
Proof.
  intros Hlow Hs. apply search_leftmost in Hs as (pre & tail & -> & Hm & Hleft).
  destruct (under_k_shape _ tail m (lowered_tail _ _ Hlow) Hm)
    as (sp & n & sp' & post & -> & Hsp & Hn & Hsp' & Hpost).
  exists n, pre, sp, sp', post. repeat split; assumption.
Qed.

Lemma budget_word_reading_exists (q : string) (m : mstate) :
  lowered q = true -> search ParserAgent.RX_BUDGET_ANY q = Some m ->
  exists f, budget_word_reading q f.
Proof.
  intros Hlow Hs. apply search_leftmost in Hs as (pre & tail & -> & Hm & Hleft).
  destruct (budget_any_shape _ tail m (lowered_tail _ _ Hlow) Hm)
    as (w & sp & f & post & -> & Hw & Hsp & Hf & Hpost).
  exists f, pre, w, sp, post. repeat split; assumption.
Qed.

(** Where no "under" starts inside [pre], [RX_UNDER_K] matches nowhere
    inside it; likewise for the budget words and [RX_BUDGET_ANY]. *)
Lemma no_under_unmatched (pre tail : string) :
  lowered pre = true -> lowered tail = true ->
  starts_nowhere_in "under" pre tail = true ->
  matches_nowhere_in ParserAgent.RX_UNDER_K pre tail.
Proof.
  intros Hpre Htail Hno a b c st' E Hm.
  assert (Hs : is_Some (rmatch ParserAgent.RX_UNDER_K
                          (MState (last_char None a) (String c b ++ tail) 0 None) Some))
    by (apply (rmatch_complete _ _ st'); [exact Hm | eauto]).
  rewrite under_k_needs_under in Hs; [now destruct Hs | |].
  - now apply (lowered_piece pre tail a b c).
  - subst pre. now apply starts_nowhere_piece in Hno.
Qed.

Lemma no_budget_word_unmatched (pre tail : string) :
  lowered pre = true -> lowered tail = true ->
  no_budget_word_in pre tail = true ->
  matches_nowhere_in ParserAgent.RX_BUDGET_ANY pre tail.
Proof.
  intros Hpre Htail Hno a b c st' E Hm.
  assert (Hs : is_Some (rmatch ParserAgent.RX_BUDGET_ANY
                          (MState (last_char None a) (String c b ++ tail) 0 None) Some))
    by (apply (rmatch_complete _ _ st'); [exact Hm | eauto]).
  rewrite budget_any_needs_word in Hs; [now destruct Hs | |].
  - now apply (lowered_piece pre tail a b c).
  - subst pre. apply not_true_iff_false. intros Hex.
    apply existsb_exists in Hex as (w & Hin & Hw).
    unfold no_budget_word_in in Hno.
    rewrite forallb_forall in Hno. specialize (Hno w Hin).
    apply starts_nowhere_piece in Hno. congruence.
Qed.

End BudgetReadings.

(** C8, as the specification states it, fails for queries that merely
    contain the two phrases: in ["laptop bag under 5kg"] the k is not at a
    word boundary, so the first pattern does not match and the second reads
    the budget 5; in ["under 3k or under 5k"] the first match wins; and
    ["under 4,5000"] contains "under 4,500" and parses to 45000. *)
Lemma budget_of_containing_queries :
  (Text.contains "under 5k" "laptop bag under 5kg" = true /\
   get_budget (ParserAgent.parse_constraints "laptop bag under 5kg") = Some 5%Z) /\
  (Text.contains "under 5k" "under 3k or under 5k" = true /\
   get_budget (ParserAgent.parse_constraints "under 3k or under 5k") = Some 3000%Z) /\
  (Text.contains "under 4,500" "under 4,5000" = true /\
   get_budget (ParserAgent.parse_constraints "under 4,5000") = Some 45000%Z).
Proof. repeat split; vm_compute; reflexivity. Qed.

(** C8, amended.  On ASCII queries, budget parsing tries the "under N k"
    pattern first.  Where that pattern matches in the lower-cased query, its
    leftmost match reads "under", blanks, the digits N, blanks and a "k" at a
    word boundary, and the budget is N times 1000, whatever the second
    pattern would find (for N times 1000 up to 2^53: beyond it the code
    multiplies a rounded float).  Otherwise, where the pattern of a budget
    word (under, below, less than, <=), blanks and a figure matches, its
    leftmost match reads the figure as far as digits and commas go, and the
    budget is that figure with its commas removed (for figures of at most
    4300 digits, the default limit of [int] on text).  If neither matches, the
    budget is absent.  In particular, every query whose first "under" is
    the one of an "under 5k" that is followed by the end of the text or by
    a character that is not a word character parses to the budget 5000; and
    every query in which the first pattern does not match and whose first
    budget word is the "under" of an "under 4,500" followed by the end of
    the text or by a character that is neither a digit nor a comma parses to
    the budget 4500. *)
Theorem budget_patterns_in_order :
  (forall query n : string,
     ascii_text query = true ->
     under_k_reading (Text.lower query) n ->
     (Text.int_of_digits n * 1000 <= 2 ^ 53)%Z ->
     get_budget (ParserAgent.parse_constraints query)
     = Some (Text.int_of_digits n * 1000)%Z) /\
  (forall query : string,
     ascii_text query = true ->
     is_Some (Regex.search ParserAgent.RX_UNDER_K (Text.lower query)) ->
     exists n, under_k_reading (Text.lower query) n) /\
  (forall query f : string,
     ascii_text query = true ->
     Regex.search ParserAgent.RX_UNDER_K (Text.lower query) = None ->
     budget_word_reading (Text.lower query) f ->
     String.length (Text.remove_char "," f) <= 4300 ->
     get_budget (ParserAgent.parse_constraints query)
     = Some (Text.int_of_digits (Text.remove_char "," f))) /\
  (forall query : string,
     ascii_text query = true ->
     is_Some (Regex.search ParserAgent.RX_BUDGET_ANY (Text.lower query)) ->
     exists f, budget_word_reading (Text.lower query) f) /\
  (forall query : string,
     ascii_text query = true ->
     Regex.search ParserAgent.RX_UNDER_K (Text.lower query) = None ->
     Regex.search ParserAgent.RX_BUDGET_ANY (Text.lower query) = None ->
     get_budget (ParserAgent.parse_constraints query) = None) /\
  (forall pre post : string,
     ascii_text (pre ++ "under 5k" ++ post) = true ->
     starts_nowhere_in "under" (Text.lower pre) ("under 5k" ++ Text.lower post) = true ->
     head_outside Text.is_word post = true ->
     get_budget (ParserAgent.parse_constraints (pre ++ "under 5k" ++ post)) = Some 5000%Z) /\
  (forall pre post : string,
     ascii_text (pre ++ "under 4,500" ++ post) = true ->
     no_budget_word_in (Text.lower pre) ("under 4,500" ++ Text.lower post) = true ->
     head_outside ParserAgent.is_09_comma post = true ->
     Regex.search ParserAgent.RX_UNDER_K (Text.lower (pre ++ "under 4,500" ++ post)) = None ->
     get_budget (ParserAgent.parse_constraints (pre ++ "under 4,500" ++ post)) = Some 4500%Z).
Proof.
  repeat apply conj.
  - intros query n _ Hread _. rewrite budget_of_query. now apply parse_budget_under_n_k.
  - intros query _ [m Hm]. apply (under_k_reading_exists _ m); [apply lowered_lower | exact Hm].
  - intros query f _ Hno Hread _. rewrite budget_of_query. now apply parse_budget_word_figure.
  - intros query _ [m Hm].
    apply (budget_word_reading_exists _ m); [apply lowered_lower | exact Hm].
  - intros query _ H1 H2. rewrite budget_of_query.
    unfold ParserAgent.parse_budget. now rewrite H1, H2.
  - intros pre post _ Hfirst Hend. rewrite budget_of_query, !lower_app.
    apply parse_budget_under_5k; try apply lowered_lower; [assumption|].
    rewrite head_outside_lower; [assumption | apply is_word_lower_char].
  - intros pre post _ Hfirst Hend Hno. rewrite budget_of_query.
    rewrite !lower_app in *.
    apply parse_budget_under_4500; try apply lowered_lower; try assumption.
    rewrite head_outside_lower; [assumption | apply is_09_comma_lower_char].
Qed.

Lemma budget_patterns_in_order_witness :
  ((ascii_text "Phone UNDER 20 K" = true /\
    under_k_reading (Text.lower "Phone UNDER 20 K") "20" /\
    (Text.int_of_digits "20" * 1000 <= 2 ^ 53)%Z) /\
   get_budget (ParserAgent.parse_constraints "Phone UNDER 20 K") = Some 20000%Z) /\
  ((ascii_text "thunder jacket under 3k or under 5k" = true /\
    is_Some (Regex.search ParserAgent.RX_UNDER_K
               (Text.lower "thunder jacket under 3k or under 5k"))) /\
   exists n, under_k_reading (Text.lower "thunder jacket under 3k or under 5k") n) /\
  ((ascii_text "mixer below 2,999" = true /\
    Regex.search ParserAgent.RX_UNDER_K (Text.lower "mixer below 2,999") = None /\
    budget_word_reading (Text.lower "mixer below 2,999") "2,999" /\
    String.length (Text.remove_char "," "2,999") <= 4300) /\
   get_budget (ParserAgent.parse_constraints "mixer below 2,999") = Some 2999%Z) /\
  ((ascii_text "mixer below 2,999" = true /\
    is_Some (Regex.search ParserAgent.RX_BUDGET_ANY (Text.lower "mixer below 2,999"))) /\
   exists f, budget_word_reading (Text.lower "mixer below 2,999") f) /\
  ((ascii_text "red leather handbag" = true /\
    Regex.search ParserAgent.RX_UNDER_K (Text.lower "red leather handbag") = None /\
    Regex.search ParserAgent.RX_BUDGET_ANY (Text.lower "red leather handbag") = None) /\
   get_budget (ParserAgent.parse_constraints "red leather handbag") = None) /\
  ((ascii_text ("Sneakers, " ++ "under 5k" ++ ", new") = true /\
    starts_nowhere_in "under" (Text.lower "Sneakers, ") ("under 5k" ++ Text.lower ", new") = true /\
    head_outside Text.is_word ", new" = true) /\
   get_budget (ParserAgent.parse_constraints ("Sneakers, " ++ "under 5k" ++ ", new"))
   = Some 5000%Z) /\
  ((ascii_text ("Shoes " ++ "under 4,500" ++ " only") = true /\
    no_budget_word_in (Text.lower "Shoes ") ("under 4,500" ++ Text.lower " only") = true /\
    head_outside ParserAgent.is_09_comma " only" = true /\
    Regex.search ParserAgent.RX_UNDER_K (Text.lower ("Shoes " ++ "under 4,500" ++ " only")) = None) /\
   get_budget (ParserAgent.parse_constraints ("Shoes " ++ "under 4,500" ++ " only"))
   = Some 4500%Z).
Proof.
  destruct budget_patterns_in_order as (T1 & T1' & T2 & T2' & T3 & T4 & T5).
  assert (A1 : ascii_text "Phone UNDER 20 K" = true) by reflexivity.
  assert (H1 : under_k_reading (Text.lower "Phone UNDER 20 K") "20").
  { exists "phone ", " ", " ", "". repeat apply conj; try reflexivity.
    apply no_under_unmatched; vm_compute; reflexivity. }
  assert (B1 : (Text.int_of_digits "20" * 1000 <= 2 ^ 53)%Z) by (vm_compute; discriminate).
  assert (A1' : ascii_text "thunder jacket under 3k or under 5k" = true) by reflexivity.
  assert (H1' : is_Some (Regex.search ParserAgent.RX_UNDER_K
                           (Text.lower "thunder jacket under 3k or under 5k")))
    by (eexists; vm_compute; reflexivity).
  assert (A2 : ascii_text "mixer below 2,999" = true) by reflexivity.
  assert (H2n : Regex.search ParserAgent.RX_UNDER_K (Text.lower "mixer below 2,999") = None)
    by (vm_compute; reflexivity).
  assert (H2 : budget_word_reading (Text.lower "mixer below 2,999") "2,999").
  { exists "mixer ", "below", " ", "". repeat apply conj; try reflexivity.
    - apply list_elem_of_In. simpl. tauto.
    - apply no_budget_word_unmatched; vm_compute; reflexivity. }
  assert (B2 : String.length (Text.remove_char "," "2,999") <= 4300) by (vm_compute; lia).
  assert (H2' : is_Some (Regex.search ParserAgent.RX_BUDGET_ANY (Text.lower "mixer below 2,999")))
    by (eexists; vm_compute; reflexivity).
  assert (A3 : ascii_text "red leather handbag" = true) by reflexivity.
  assert (H3a : Regex.search ParserAgent.RX_UNDER_K (Text.lower "red leather handbag") = None)
    by (vm_compute; reflexivity).
  assert (H3b : Regex.search ParserAgent.RX_BUDGET_ANY (Text.lower "red leather handbag") = None)
    by (vm_compute; reflexivity).
  assert (A4 : ascii_text ("Sneakers, " ++ "under 5k" ++ ", new") = true) by reflexivity.
  assert (H4a : starts_nowhere_in "under" (Text.lower "Sneakers, ")
                  ("under 5k" ++ Text.lower ", new") = true) by (vm_compute; reflexivity).
  assert (H4b : head_outside Text.is_word ", new" = true) by reflexivity.
  assert (A5 : ascii_text ("Shoes " ++ "under 4,500" ++ " only") = true) by reflexivity.
  assert (H5a : no_budget_word_in (Text.lower "Shoes ")
                  ("under 4,500" ++ Text.lower " only") = true) by (vm_compute; reflexivity).
  assert (H5b : head_outside ParserAgent.is_09_comma " only" = true) by reflexivity.
  assert (H5c : Regex.search ParserAgent.RX_UNDER_K
                  (Text.lower ("Shoes " ++ "under 4,500" ++ " only")) = None)
    by (vm_compute; reflexivity).
  refine (conj (conj (conj A1 (conj H1 B1)) (T1 _ _ A1 H1 B1))
         (conj (conj (conj A1' H1') (T1' _ A1' H1'))
         (conj (conj (conj A2 (conj H2n (conj H2 B2))) (T2 _ _ A2 H2n H2 B2))
         (conj (conj (conj A2 H2') (T2' _ A2 H2'))
         (conj (conj (conj A3 (conj H3a H3b)) (T3 _ A3 H3a H3b))
         (conj (conj (conj A4 (conj H4a H4b)) (T4 _ _ A4 H4a H4b))
               (conj (conj A5 (conj H5a (conj H5b H5c))) (T5 _ _ A5 H5a H5b H5c)))))))).
Defined.

(* ===================================================================== *)
(** * Properties: the gigabyte figures of a title *)
(* ===================================================================== *)

Section GigabyteAnywhere.
Import Text Regex MatchSpec.

Lemma app_eq_app (p t u v : string) :
  p ++ t = u ++ v ->
  (exists d, p = u ++ d /\ v = d ++ t) \/ (exists d, u = p ++ d /\ t = d ++ v).
Proof.
  revert u. induction p as [|x p IH]; intros u H; simpl in H.
  - right. exists u. now split.
  - destruct u as [|y u]; simpl in H.
    + left. exists (String x p). now split.
    + injection H as -> H. destruct (IH u H) as [(d & -> & ->)|(d & -> & ->)].
      * left. now exists d.
      * right. now exists d.
Qed.

Lemma starts_with_prefix (w y : string) : starts_with w (w ++ y) = true.
Proof.
  induction w as [|c w IH]; simpl; [now destruct y|].
  now rewrite Ascii.eqb_refl, IH.
Qed.

Lemma contains_mid (w x y : string) : contains w (x ++ w ++ y) = true.
Proof.
  induction x as [|c x IH]; simpl.
  - destruct (w ++ y) eqn:E; simpl; rewrite <- E, starts_with_prefix; reflexivity.
  - rewrite IH. apply orb_true_r.
Qed.

(** On lowered text a literal stands at the cursor in lower case. *)
Lemma lit_consumes_lower (w : string) :
  forall st m, lowered (rest st) = true -> matches (lit w) st m ->
               rest st = lower w ++ rest m.
Proof.
  unfold lowered.
  induction w as [|c w IH]; intros st m Hst Hm.
  - simpl in Hm. now subst m.
  - assert (Hone : forall m1, matches (Lit c) st m1 ->
              rest st = String (lower_char c) (rest m1) /\
              all_chars (fun c => Ascii.eqb (lower_char c) c) (rest m1) = true).
    { intros m1 (x & s & Hrest & Hx & ->). rewrite Hrest in Hst. simpl in Hst.
      apply andb_prop in Hst as [Hx' Hs]. apply Ascii.eqb_eq in Hx'.
      rewrite Hrest. simpl. split; [|exact Hs]. congruence. }
    destruct w as [|c' w].
    + destruct (Hone m Hm) as [Hrest _]. exact Hrest.
    + change (lit (String c (String c' w))) with (Cat (Lit c) (lit (String c' w))) in Hm.
      destruct Hm as (m1 & H1 & H2).
      destruct (Hone m1 H1) as [Hrest Hs].
      rewrite Hrest. rewrite (IH m1 m Hs H2). reflexivity.
Qed.

(** A match of either gigabyte pattern on lowered text begins with digits,
    blanks and "gb". *)
Lemma gigabyte_shape (rx : regex) (pv : option ascii) (b : string) (m : mstate) :
  rx = Utils.RX_RAM_GB \/ rx = Utils.RX_STORAGE_GB ->
  lowered b = true ->
  matches rx (MState pv b 0 None) m ->
  exists n sp post, b = n ++ sp ++ "gb" ++ post /\
                    all_chars is_digit n = true /\ 1 <= String.length n /\ blank sp = true.
Proof.
  intros Hrx Hlow H.
  assert (Hhead : exists m1 m2 m3,
            matches (digits 1 None) (MState pv b 0 None) m1 /\
            matches spaces (MState (prev m1) (rest m1) (pos m1) (Some (take (pos m1 - 0) b))) m2 /\
            matches (lit "GB") m2 m3).
  { destruct Hrx as [-> | ->];
      unfold Utils.RX_RAM_GB, Utils.RX_STORAGE_GB, seq, digits in H; simpl foldr in H.
    - destruct H as (m0 & [_ ->] & m1 & (mg & Hg & ->) & m2 & Hsp & m3 & Hlit & _).
      exists mg, m2, m3. split; [|split; [exact Hsp | exact Hlit]].
      destruct Hg as (w & s & Hr & Hw & Hlen & _ & ->).
      exists w, s. repeat split; assumption.
    - destruct H as (m0 & [_ ->] & m1 & (mg & Hg & ->) & m2 & Hsp & m3 & Hlit & _).
      exists mg, m2, m3. split; [|split; [exact Hsp | exact Hlit]].
      destruct Hg as (w & s & Hr & Hw & Hlen & _ & ->).
      exists w, s. cbn [rest] in *. repeat split; try assumption. simpl in *. lia. }
  destruct Hhead as (m1 & m2 & m3 & (w & s & Hr & Hw & Hlen & _ & ->) & Hsp & Hlit).
  destruct Hsp as (w1 & s1 & Hr1 & Hw1 & _ & _ & ->).
  cbn [rest moved] in *.
  assert (Hlow1 : lowered s1 = true).
  { rewrite Hr, Hr1 in Hlow. unfold lowered in *. rewrite !all_chars_app in Hlow.
    apply andb_true_iff in Hlow as [_ Hlow]. now apply andb_true_iff in Hlow as [_ Hlow]. }
  apply lit_consumes_lower in Hlit; [|exact Hlow1]. cbn [rest] in Hlit. simpl in Hlit.
  exists w, w1, (rest m3). rewrite Hr, Hr1, Hlit. repeat split; assumption.
Qed.

Lemma last_char_class (p : ascii -> bool) (w : string) (c : ascii) (d : option ascii) :
  all_chars p (String c w) = true ->
  exists x, last_char d (String c w) = Some x /\ p x = true.
Proof.
  revert c d. induction w as [|y w IH]; intros c d H; simpl in H.
  - apply andb_true_iff in H as [Hc _]. now exists c.
  - apply andb_true_iff in H as [_ H]. destruct (IH y (Some c) H) as (x & Hx & Hp).
    now exists x.
Qed.

Lemma is_digit_is_word (c : ascii) : is_digit c = true -> is_word c = true.
Proof. unfold is_word. now intros ->. Qed.

(** In a text that goes on with "16gb ram, 512gb storage", digits, blanks
    and "gb" cannot begin inside a prefix that holds no "gb" and does not end
    in a word character. *)
Lemma no_gigabyte_before (pre post a b n sp rest' : string) (c : ascii) :
  contains "gb" pre = false -> ends_in_word pre = false ->
  pre = a ++ String c b ->
  String c b ++ "16gb ram, 512gb storage" ++ post = n ++ sp ++ "gb" ++ rest' ->
  all_chars is_digit n = true -> 1 <= String.length n -> blank sp = true ->
  False.
Proof.
  intros Hgb Hend Hpre E Hn Hlen Hsp.
  rewrite <- (string_app_assoc n sp) in E.
  apply app_eq_app in E as [(d & Hp & Hv)|(d & Hu & Ht)].
  - destruct d as [|d1 [|d2 d']]; simpl in Hv; try discriminate.
    injection Hv as <- <- _.
    assert (Hpre' : pre = (a ++ n ++ sp) ++ "gb" ++ d')
      by (rewrite Hpre, Hp, !string_app_assoc; reflexivity).
    rewrite Hpre' in Hgb. now rewrite contains_mid in Hgb.
  - assert (Hd : all_chars (fun x => is_digit x || is_space x) d = true).
    { assert (Hall : all_chars (fun x => is_digit x || is_space x) (n ++ sp) = true).
      { rewrite all_chars_app. apply andb_true_iff. split.
        - clear -Hn. induction n as [|x n IH]; [reflexivity|]. simpl in *.
          apply andb_true_iff in Hn as [Hx Hn]. now rewrite Hx, IH.
        - unfold blank in Hsp. clear -Hsp. induction sp as [|x sp IH]; [reflexivity|].
          simpl in *. apply andb_true_iff in Hsp as [Hx Hsp]. now rewrite Hx, orb_true_r, IH. }
      rewrite Hu, all_chars_app in Hall. now apply andb_true_iff in Hall as [_ Hall]. }
    destruct d as [|d1 [|d2 [|d3 d']]]; simpl in Ht; try discriminate.
    + injection Ht as <- <- _.
      assert (Hsp0 : sp = "").
      { destruct sp as [|y sp']; [reflexivity|]. exfalso.
        destruct (last_char_class is_space sp' y (last_char None n) Hsp) as (x & Hx & Hxs).
        assert (Hl : last_char None (n ++ String y sp') = Some "6"%char).
        { rewrite Hu, last_char_app. reflexivity. }
        rewrite last_char_app, Hx in Hl. injection Hl as ->. discriminate. }
      subst sp. rewrite append_nil_r in Hu. subst n.
      rewrite all_chars_app in Hn. apply andb_true_iff in Hn as [Hp _].
      destruct (last_char_class is_digit b c (last_char None a) Hp) as (x & Hx & Hxd).
      unfold ends_in_word in Hend. rewrite Hpre, last_char_app, Hx in Hend.
      now rewrite (is_digit_is_word x Hxd) in Hend.
    + injection Ht as <- <- <- _. simpl in Hd. discriminate.
Qed.

Lemma gigabyte_unmatched (rx : regex) (pre post : string) :
  rx = Utils.RX_RAM_GB \/ rx = Utils.RX_STORAGE_GB ->
  lowered pre = true -> lowered post = true ->
  contains "gb" pre = false -> ends_in_word pre = false ->
  matches_nowhere_in rx pre ("16gb ram, 512gb storage" ++ post).
Proof.
  intros Hrx Hpre Hpost Hgb Hend a b c st' E Hm.
  assert (Hlow : lowered (String c b ++ "16gb ram, 512gb storage" ++ post) = true).
  { apply (lowered_piece pre _ a b c Hpre); [|exact E].
    unfold lowered in *. now rewrite all_chars_app, Hpost. }
  destruct (gigabyte_shape rx _ _ st' Hrx Hlow Hm) as (n & sp & rest' & Eq & Hn & Hlen & Hsp).
  exact (no_gigabyte_before pre post a b n sp rest' c Hgb Hend E Eq Hn Hlen Hsp).
Qed.

(** Both gigabyte patterns, searched in a lowered text that goes on with
    "16gb ram, 512gb storage" after a prefix without "gb" that does not end
    in a word character, find the figure 16. *)
Lemma gigabyte_first_16_anywhere (rx : regex) (pre post : string) :
  rx = Utils.RX_RAM_GB \/ rx = Utils.RX_STORAGE_GB ->
  lowered pre = true -> lowered post = true ->
  contains "gb" pre = false -> ends_in_word pre = false ->
  Utils._first rx (pre ++ "16gb ram, 512gb storage" ++ post) = Some "16".
Proof.
  intros Hrx Hpre Hpost Hgb Hend. unfold Utils._first, first_group.
  rewrite (search_past_unmatched _ _ _ (gigabyte_unmatched rx pre post Hrx Hpre Hpost Hgb Hend)).
  destruct (gigabyte_hit_16 rx (last_char None pre) post Hrx Hend) as (st & Hst & Hg).
  now rewrite (search_from_hit _ _ _ _ Hst).
Qed.

(** The RAM figure is taken for the storage figure in every title that
    holds "16GB RAM, 512GB storage" after a text without "gb" that does not
    end in a word character. *)
Lemma ram_figure_counted_twice_anywhere (pre post : string) :
  contains "gb" (lower pre) = false -> ends_in_word pre = false ->
  let title := pre ++ "16GB RAM, 512GB storage" ++ post in
  let attrs := Utils.parse_generic_attrs_from_title title in
  attrs !! "ram_gb" = Some (VStr "16") /\
  attrs !! "storage_gb" =
    match Regex.search Utils.RX_STORAGE_TB (Text.lower title) with
    | Some _ => None
    | None => Some (VStr "16")
    end.
Proof.
  intros Hgb Hend. cbv zeta.
  assert (Hlow : Text.lower (pre ++ "16GB RAM, 512GB storage" ++ post)
                 = Text.lower pre ++ "16gb ram, 512gb storage" ++ Text.lower post).
  { now rewrite !lower_app. }
  rewrite <- ends_in_word_lower in Hend.
  pose proof (gigabyte_first_16_anywhere Utils.RX_RAM_GB _ (Text.lower post) (or_introl eq_refl)
                (lowered_lower pre) (lowered_lower post) Hgb Hend) as Hram.
  pose proof (gigabyte_first_16_anywhere Utils.RX_STORAGE_GB _ (Text.lower post) (or_intror eq_refl)
                (lowered_lower pre) (lowered_lower post) Hgb Hend) as Hsto.
  unfold Utils.parse_generic_attrs_from_title. cbv zeta.
  rewrite Hlow in *. split.
  - skip_other_keys. rewrite Hram. now apply lookup_set_if_str_eq.
  - skip_other_keys.
    destruct (Regex.search Utils.RX_STORAGE_TB _) as [st|] eqn:Htb.
    + destruct (storage_tb_first_truthy _ (ex_intro _ st Htb)) as (g & Hg & Hne).
      rewrite Hg, Hne, lookup_set_if_str_none. skip_other_keys. apply lookup_empty.
    + assert (Hnone : Utils._first Utils.RX_STORAGE_TB
                        (Text.lower pre ++ "16gb ram, 512gb storage" ++ Text.lower post) = None).
      { unfold Utils._first, Regex.first_group. now rewrite Htb. }
      rewrite Hnone, Hsto. now apply lookup_set_if_str_eq.
Qed.

End GigabyteAnywhere.

(** C2.  The claim asks that a title with "16GB RAM, 512GB storage" gives
    [ram_gb = "16"] and [storage_gb = "512"], the storage figure not being
    taken from the RAM figure.  The code takes it from the RAM figure: the
    storage pattern asks for two to four digits before GB, is searched from
    the start of the title, and nothing keeps it off the figure the RAM
    pattern has read.  On an ordinary laptop title [storage_gb] is "16",
    while the figure 512 is what the storage pattern reads once the search
    starts past the RAM figure.  The same happens in every ASCII title that
    holds the phrase after a text without "gb" that does not end in a word
    character: [ram_gb] is "16", and [storage_gb] is "16" again, or absent
    when the terabyte pattern matches; it is never "512".  With a one-digit
    RAM figure, which the storage pattern cannot take, the same title gives
    "512". *)
Theorem ram_figure_taken_for_storage :
  (let attrs := Utils.parse_generic_attrs_from_title
                  "Dell Inspiron 15 Laptop, 16GB RAM, 512GB storage SSD" in
   attrs !! "ram_gb" = Some (VStr "16") /\
   attrs !! "storage_gb" = Some (VStr "16")) /\
  Utils._first Utils.RX_STORAGE_GB (Text.lower " RAM, 512GB storage SSD") = Some "512" /\
  (forall pre post : string,
     ascii_text (pre ++ post) = true ->
     Text.contains "gb" (Text.lower pre) = false -> ends_in_word pre = false ->
     let title := pre ++ "16GB RAM, 512GB storage" ++ post in
     let attrs := Utils.parse_generic_attrs_from_title title in
     attrs !! "ram_gb" = Some (VStr "16") /\
     attrs !! "storage_gb" =
       match Regex.search Utils.RX_STORAGE_TB (Text.lower title) with
       | Some _ => None
       | None => Some (VStr "16")
       end /\
     attrs !! "storage_gb" <> Some (VStr "512")) /\
  (let attrs := Utils.parse_generic_attrs_from_title
                  "Dell Inspiron 15 Laptop, 8GB RAM, 512GB storage SSD" in
   attrs !! "ram_gb" = Some (VStr "8") /\
   attrs !! "storage_gb" = Some (VStr "512")).
Proof.
  cbv zeta. split; [|split; [|split]].
  - split; vm_compute; reflexivity.
  - vm_compute. reflexivity.
  - intros pre post _ Hgb Hend.
    destruct (ram_figure_counted_twice_anywhere pre post Hgb Hend) as [Hram Hsto].
    split; [exact Hram|]. split; [exact Hsto|]. rewrite Hsto.
    destruct (Regex.search Utils.RX_STORAGE_TB _); discriminate.
  - split; vm_compute; reflexivity.
Qed.

(* ===================================================================== *)
(** * Further properties: deduplication and ranking *)
(* ===================================================================== *)

Section DedupMore.
Context `{RT : Runtime}.
Import Scoring Schemas.
Local Open Scope Q_scope.

Lemma dedup_step_cases (out : list Product) (p : Product) :
  (dedup_step out p = out /\
   exists q, q ∈ out /\ 88 < Utils.similar (title p) (title q)) \/
  (dedup_step out p = (out ++ [p])%list /\
   forall q, q ∈ out -> Utils.similar (title p) (title q) <= 88).
Proof.
  unfold dedup_step.
  destruct (existsb (fun q => PyNum.Qltb 88 (Utils.similar (title p) (title q))) out) eqn:E.
  - left. split; [reflexivity|].
    apply existsb_exists in E as (q & Hq & Hs).
    exists q. split; [now apply list_elem_of_In | now apply Qltb_true].
  - right. split; [reflexivity|]. intros q Hq.
    apply Qltb_false.
    destruct (PyNum.Qltb 88 (Utils.similar (title p) (title q))) eqn:Hs; [|reflexivity].
    assert (Hex : existsb (fun q => PyNum.Qltb 88 (Utils.similar (title p) (title q))) out = true).
    { apply existsb_exists. exists q. split; [now apply list_elem_of_In | exact Hs]. }
    congruence.
Qed.

Lemma dedup_fold_sublist (l out : list Product) :
  fold_left dedup_step l out `sublist_of` (out ++ l)%list.
Proof.
  revert out. induction l as [|p l IH]; intros out; simpl.
  - now rewrite app_nil_r.
  - destruct (dedup_step_cases out p) as [[-> _]|[-> _]].
    + etransitivity; [apply IH|].
      apply sublist_app; [reflexivity | now apply sublist_cons].
    + etransitivity; [apply IH|]. now rewrite <- app_assoc.
Qed.

Lemma dedup_fold_prefix (l out : list Product) :
  out `prefix_of` fold_left dedup_step l out.
Proof.
  revert out. induction l as [|p l IH]; intros out; simpl; [reflexivity|].
  etransitivity; [|apply IH].
  destruct (dedup_step_cases out p) as [[-> _]|[-> _]]; [reflexivity|].
  now apply prefix_app_r.
Qed.

Lemma spread_step (out : list Product) (p : Product) :
  spread out -> spread (dedup_step out p).
Proof.
  intros Hout. destruct (dedup_step_cases out p) as [[-> _]|[-> Hp]]; [exact Hout|].
  intros l1 p' l2 E q Hq.
  destruct l2 as [|x l2 _] using rev_ind.
  - apply app_inj_tail in E as [-> ->]. now apply Hp.
  - rewrite app_comm_cons, app_assoc in E. apply app_inj_tail in E as [-> _].
    now apply (Hout l1 p' l2 eq_refl).
Qed.

Lemma spread_fold (l out : list Product) :
  spread out -> spread (fold_left dedup_step l out).
Proof.
  revert out. induction l as [|p l IH]; intros out H; simpl; [exact H|].
  apply IH, spread_step, H.
Qed.

Lemma dedup_fold_covers (l out : list Product) (p : Product) :
  p ∈ l ->
  p ∈ fold_left dedup_step l out \/
  exists q, q ∈ fold_left dedup_step l out /\ 88 < Utils.similar (title p) (title q).
Proof.
  revert out. induction l as [|x l IH]; intros out Hp; [now apply elem_of_nil in Hp|].
  apply elem_of_cons in Hp as [->|Hp]; [|now apply IH].
  simpl. destruct (dedup_fold_prefix l (dedup_step out x)) as [tl Htl].
  destruct (dedup_step_cases out x) as [[E (q & Hq & Hs)]|[E _]]; rewrite E in Htl |- *.
  - right. exists q. split; [|exact Hs]. rewrite Htl. apply elem_of_app. now left.
  - left. rewrite Htl. rewrite !elem_of_app, list_elem_of_singleton. tauto.
Qed.

End DedupMore.

(** X1.  [dedup] only drops products: its output is the input with some
    items removed, in the input's order; the first product is always kept;
    and no kept product has a title more than 88 similar to the title of a
    product kept before it. *)
Theorem dedup_keeps_spread `{RT : Runtime} (products : list Schemas.Product) :
  Scoring.dedup products `sublist_of` products /\
  spread (Scoring.dedup products) /\
  (forall p l, products = p :: l -> exists tl, Scoring.dedup products = p :: tl).
Proof.
  split; [|split].
  - apply (dedup_fold_sublist products []).
  - apply spread_fold. intros l1 p l2 E. now destruct l1.
  - intros p l ->. unfold Scoring.dedup. simpl.
    destruct (dedup_fold_prefix l (Scoring.dedup_step [] p)) as [tl Htl].
    exists tl. exact Htl.
Qed.

(** X2.  Every product that [dedup] drops has a title more than 88 similar to
    the title of a product that [dedup] keeps. *)
Theorem dedup_drops_near_duplicates `{RT : Runtime} (products : list Schemas.Product)
    (p : Schemas.Product) :
  p ∈ products ->
  p ∈ Scoring.dedup products \/
  exists q, q ∈ Scoring.dedup products /\
            (88 < Utils.similar (Schemas.title p) (Schemas.title q))%Q.
Proof. apply dedup_fold_covers. Qed.

Lemma dedup_drops_near_duplicates_witness :
  shoe_b ∈ [shoe_a; shoe_b; shoe_c] /\
  (shoe_b ∈ @Scoring.dedup example_runtime [shoe_a; shoe_b; shoe_c] \/
   exists q, q ∈ @Scoring.dedup example_runtime [shoe_a; shoe_b; shoe_c] /\
             (88 < @Utils.similar example_runtime (Schemas.title shoe_b) (Schemas.title q))%Q).
Proof.
  assert (H : shoe_b ∈ [shoe_a; shoe_b; shoe_c]) by (apply elem_of_cons; right; apply elem_of_cons; now left).
  split; [exact H|].
  exact (@dedup_drops_near_duplicates example_runtime [shoe_a; shoe_b; shoe_c] shoe_b H).
Defined.

Section RankMore.
Context `{RT : Runtime}.
Import Scoring Schemas.

Lemma slice_to_sublist {A : Type} (k : Z) (l : list A) : slice_to k l `sublist_of` l.
Proof. unfold slice_to. destruct (0 <=? k)%Z; apply sublist_take. Qed.

Lemma rank_products_submseteq (products : list Product) (c : Constraints)
    (query : string) (k : Z) :
  rank_products products c query k ⊆+ dedup products.
Proof.
  unfold rank_products.
  set (scored := map (fun p => (score_product p c query, p)) (dedup products)).
  assert (Hitems : map snd scored = dedup products) by apply (snd_scored c query).
  assert (Hgoal : map snd (slice_to k (sort_desc scored)) ⊆+ map snd scored).
  { apply fmap_submseteq.
    etransitivity; [apply sublist_submseteq, slice_to_sublist|].
    apply Permutation_submseteq. symmetry. apply sort_desc_perm. }
  now rewrite Hitems in Hgoal.
Qed.

End RankMore.

(** X3.  Whatever [k] is, [rank_products] returns products that survive
    [dedup], none more often than [dedup] has it; it returns nothing for
    [k = 0] and for an empty input, and all the surviving products, in some
    order, when [k] is at least their number. *)
Theorem rank_products_draws_from_dedup `{RT : Runtime} (products : list Schemas.Product)
    (c : Constraints) (query : string) (k : Z) :
  Scoring.rank_products products c query k ⊆+ Scoring.dedup products /\
  Scoring.rank_products products c query 0 = [] /\
  Scoring.rank_products [] c query k = [] /\
  ((Z.of_nat (length (Scoring.dedup products)) <= k)%Z ->
   Scoring.rank_products products c query k ≡ₚ Scoring.dedup products).
Proof.
  pose proof (rank_products_submseteq products c query k) as Hsub.
  split; [exact Hsub|]. split; [reflexivity|]. split.
  - pose proof (rank_products_submseteq [] c query k) as Hnil.
    now apply submseteq_nil_r in Hnil.
  - intros Hk. apply submseteq_length_Permutation; [exact Hsub|].
    unfold Scoring.rank_products, Scoring.slice_to.
    replace (0 <=? k)%Z with true by (symmetry; apply Z.leb_le; lia).
    rewrite length_map, take_ge.
    + now rewrite sort_desc_length, length_map.
    + rewrite sort_desc_length, length_map. lia.
Qed.

Lemma rank_products_draws_from_dedup_witness :
  let out := @Scoring.rank_products example_runtime [shoe_a; shoe_b; shoe_c]
               (ParserAgent.parse_constraints shoe_query) shoe_query 5 in
  (Z.of_nat (length (@Scoring.dedup example_runtime [shoe_a; shoe_b; shoe_c])) <= 5)%Z /\
  out ≡ₚ @Scoring.dedup example_runtime [shoe_a; shoe_b; shoe_c].
Proof.
  cbv zeta.
  assert (H : (Z.of_nat (length (@Scoring.dedup example_runtime [shoe_a; shoe_b; shoe_c])) <= 5)%Z)
    by (vm_compute; discriminate).
  split; [exact H|].
  exact (proj2 (proj2 (proj2 (@rank_products_draws_from_dedup example_runtime
           [shoe_a; shoe_b; shoe_c] (ParserAgent.parse_constraints shoe_query) shoe_query 5))) H).
Defined.

(* ===================================================================== *)
(** * Further properties: the components of the score *)
(* ===================================================================== *)

Section TallyFacts.
Context `{RT : Runtime}.
Import Scoring.
Local Open Scope Q_scope.

Lemma credit_sound (pts : Q) (hit : bool) (t : tally) :
  0 <= pts -> sound_tally t -> sound_tally (credit pts hit t).
Proof.
  unfold sound_tally, credit. intros Hpts [H0 H1]. destruct hit; simpl; lra.
Qed.

Lemma brand_block_sound (p : Schemas.Product) (filters : gmap string value) (t : tally) :
  sound_tally t -> sound_tally (brand_block p filters t).
Proof.
  intros Ht. unfold brand_block.
  destruct (filters !! "brand") as [[s|l]|]; try exact Ht.
  destruct (match prod_brands_of (Schemas.attrs p) with
            | VStr _ => false
            | VList pb => _any_overlap pb l
            end).
  - apply credit_sound; [lra | exact Ht].
  - destruct (existsb _ l).
    + unfold sound_tally in *. simpl. lra.
    + apply credit_sound; [lra | exact Ht].
Qed.

Lemma list_block_sound (key : string) (pts : Q) (p : Schemas.Product)
    (filters : gmap string value) (t : tally) :
  0 <= pts -> sound_tally t -> sound_tally (list_block key pts p filters t).
Proof.
  intros Hpts Ht. unfold list_block.
  destruct (filters !! key) as [[s|l]|]; try exact Ht. now apply credit_sound.
Qed.

Lemma size_block_sound (key : string) (pts : Q) (p : Schemas.Product)
    (filters : gmap string value) (t : tally) :
  0 <= pts -> sound_tally t -> sound_tally (size_block key pts p filters t).
Proof.
  intros Hpts Ht. unfold size_block.
  destruct (Text.truthy _); [|exact Ht]. now apply credit_sound.
Qed.

Lemma capacity_block_sound (p : Schemas.Product) (filters : gmap string value) (t : tally) :
  sound_tally t -> sound_tally (capacity_block p filters t).
Proof.
  intros Ht. unfold capacity_block.
  destruct (filters !! "capacity_l") as [v|]; [|exact Ht].
  destruct (value_truthy v); [|exact Ht]. apply credit_sound; [lra | exact Ht].
Qed.

Lemma exact_block_sound (key : string) (p : Schemas.Product)
    (filters : gmap string value) (t : tally) :
  sound_tally t -> sound_tally (exact_block key p filters t).
Proof.
  intros Ht. unfold exact_block.
  destruct (opt_value_truthy _); [|exact Ht]. apply credit_sound; [lra | exact Ht].
Qed.

Lemma tally_of_sound (p : Schemas.Product) (filters : gmap string value) :
  sound_tally (tally_of p filters).
Proof.
  unfold tally_of.
  repeat first [ apply exact_block_sound | apply capacity_block_sound
               | apply size_block_sound; [lra|] | apply list_block_sound; [lra|]
               | apply brand_block_sound ].
  unfold sound_tally. simpl. lra.
Qed.

End TallyFacts.

(** X4.  In [attribute_match_score] the points earned never exceed the
    points possible and are never negative, so the final clamp is never
    active: whenever some points are possible the result is their ratio,
    earned over possible. *)
Theorem attribute_match_is_ratio `{RT : Runtime} (p : Schemas.Product) (c : Constraints) :
  dict_truthy c = true -> filters_of c <> ∅ ->
  let earned := fst (Scoring.tally_of p (filters_of c)) in
  let possible := snd (Scoring.tally_of p (filters_of c)) in
  (0 <= earned <= possible)%Q /\
  ((0 < possible)%Q -> (Scoring.attribute_match_score p c == earned / possible)%Q).
Proof.
  intros Hc Hf. cbv zeta.
  pose proof (tally_of_sound p (filters_of c)) as Hs. unfold sound_tally in Hs.
  split; [exact Hs|]. intros Hpos.
  unfold Scoring.attribute_match_score. rewrite Hc. simpl negb. cbv iota.
  fold (filters_of c).
  rewrite bool_decide_eq_false_2 by exact Hf.
  destruct (Scoring.tally_of p (filters_of c)) as [earned possible]. simpl in *.
  assert (Hle : Qle_bool possible 0 = false).
  { apply not_true_iff_false. rewrite Qle_bool_iff. lra. }
  rewrite Hle.
  assert (Hr : (0 <= earned / possible <= 1)%Q).
  { split.
    - apply Qle_shift_div_l; lra.
    - apply Qle_shift_div_r; lra. }
  destruct (py_min_cases 1.0 (earned / possible)) as [[H1 ->]|[H1 ->]];
  [destruct (py_max_cases 0.0 (earned / possible)) as [[H2 ->]|[H2 ->]]
  |destruct (py_max_cases 0.0 1.0) as [[H2 ->]|[H2 ->]]]; lra.
Qed.

Lemma attribute_match_is_ratio_witness :
  let c := ParserAgent.parse_constraints "nike shoes uk 8" in
  dict_truthy c = true /\ filters_of c <> ∅ /\
  let earned := fst (@Scoring.tally_of example_runtime attr_shoe (filters_of c)) in
  let possible := snd (@Scoring.tally_of example_runtime attr_shoe (filters_of c)) in
  (0 <= earned <= possible)%Q /\
  ((0 < possible)%Q ->
   (@Scoring.attribute_match_score example_runtime attr_shoe c == earned / possible)%Q).
Proof.
  cbv zeta.
  assert (H1 : dict_truthy (ParserAgent.parse_constraints "nike shoes uk 8") = true)
    by reflexivity.
  assert (H2 : filters_of (ParserAgent.parse_constraints "nike shoes uk 8") <> ∅).
  { intros E. apply (f_equal (fun m => m !! "brand")) in E. vm_compute in E. discriminate. }
  refine (conj H1 (conj H2 _)).
  exact (@attribute_match_is_ratio example_runtime attr_shoe _ H1 H2).
Defined.

Section PriceMore.
Import Scoring.
Local Open Scope Q_scope.

Lemma py_max_lower (a b : Q) : a <= PyNum.max a b.
Proof. destruct (py_max_cases a b) as [[H ->]|[H ->]]; lra. Qed.

Lemma py_max_upper (a b c : Q) : a <= c -> b <= c -> PyNum.max a b <= c.
Proof. intros Ha Hb. destruct (py_max_cases a b) as [[H ->]|[H ->]]; lra. Qed.

Lemma py_max_mono (a b c : Q) : b <= c -> PyNum.max a b <= PyNum.max a c.
Proof.
  intros Hbc.
  destruct (py_max_cases a b) as [[H1 ->]|[H1 ->]];
    destruct (py_max_cases a c) as [[H2 ->]|[H2 ->]]; lra.
Qed.

Lemma div_budget_nonneg (x : Q) (b : Z) : 0 <= x -> 0 <= x / inject_Z (Z.max b 1).
Proof.
  intros Hx. apply Qle_shift_div_l; [|lra].
  change 0 with (inject_Z 0). rewrite <- Zlt_Qlt. lia.
Qed.

Lemma div_budget_mono (x y : Q) (b : Z) :
  x <= y -> x / inject_Z (Z.max b 1) <= y / inject_Z (Z.max b 1).
Proof.
  intros Hxy. unfold Qdiv. apply Qmult_le_compat_r; [exact Hxy|].
  apply Qinv_le_0_compat. change 0 with (inject_Z 0). rewrite <- Zle_Qle. lia.
Qed.

Lemma price_score_low (price : option Q) (budget : option Z) :
  0.05 <= price_score price budget.
Proof.
  unfold price_score. destruct price as [pr|], budget as [b|]; try lra.
  destruct (PyNum.truthy_float (Some pr) && PyNum.truthy_int (Some b)); [|lra].
  destruct (Qle_bool pr (inject_Z b)).
  - pose proof (py_max_lower 0.25 (1.0 - pr / inject_Z (Z.max b 1) * 0.6)). lra.
  - apply py_max_lower.
Qed.

Lemma price_score_high (pr : Q) (budget : option Z) :
  0 <= pr -> price_score (Some pr) budget <= 1.
Proof.
  intros Hpr. unfold price_score. destruct budget as [b|]; [|lra].
  destruct (PyNum.truthy_float (Some pr) && PyNum.truthy_int (Some b)); [|lra].
  destruct (Qle_bool pr (inject_Z b)) eqn:Hle.
  - pose proof (div_budget_nonneg pr b Hpr). apply py_max_upper; lra.
  - assert (Hlt : inject_Z b < pr).
    { apply Qnot_le_lt. rewrite <- Qle_bool_iff. congruence. }
    assert (Hd : 0 <= pr - inject_Z b) by lra.
    pose proof (div_budget_nonneg _ b Hd). apply py_max_upper; lra.
Qed.

End PriceMore.

(** X5.  The price component is at least 0.05 for every price and budget,
    known or not, and at most 1 whenever the price is unknown or not
    negative. *)
Theorem price_score_range :
  (forall (price : option Q) (budget : option Z),
     (0.05 <= Scoring.price_score price budget)%Q) /\
  (forall (budget : option Z), (Scoring.price_score None budget <= 1)%Q) /\
  (forall (pr : Q) (budget : option Z),
     (0 <= pr)%Q -> (Scoring.price_score (Some pr) budget <= 1)%Q).
Proof.
  split; [exact price_score_low|]. split; [|exact price_score_high].
  intros budget. unfold Scoring.price_score. lra.
Qed.

Lemma price_score_range_witness :
  (0 <= 2500)%Q /\ (Scoring.price_score (Some 2500%Q) (Some 3000%Z) <= 1)%Q.
Proof.
  assert (H : (0 <= 2500)%Q) by (vm_compute; discriminate).
  split; [exact H|].
  exact (proj2 (proj2 price_score_range) 2500%Q (Some 3000%Z) H).
Defined.

(** X6.  For a fixed budget of at least 1, a cheaper listing never gets a
    lower price component than a dearer one as long as both are within the
    budget, and likewise as long as both are over the budget. *)
Theorem price_score_cheaper_is_better (p1 p2 : Q) (b : Z) :
  (0 < p1)%Q -> (p1 <= p2)%Q -> (1 <= b)%Z ->
  ((p2 <= inject_Z b)%Q ->
   (Scoring.price_score (Some p2) (Some b) <= Scoring.price_score (Some p1) (Some b))%Q) /\
  ((inject_Z b < p1)%Q ->
   (Scoring.price_score (Some p2) (Some b) <= Scoring.price_score (Some p1) (Some b))%Q).
Proof.
  intros Hp1 Hle Hb.
  assert (Hp2 : (0 < p2)%Q) by lra.
  pose proof (div_budget_mono p1 p2 b Hle) as Hmono.
  assert (Hmono' : ((p1 - inject_Z b) / inject_Z (Z.max b 1)
                    <= (p2 - inject_Z b) / inject_Z (Z.max b 1))%Q)
    by (apply div_budget_mono; lra).
  rewrite Z.max_l in Hmono, Hmono' by lia.
  split; intros Hside.
  - rewrite (price_score_under p1 b), (price_score_under p2 b) by (assumption || lra).
    unfold clamp.
    destruct (py_min_cases 1.0 (PyNum.max 0.25 (1.0 - p1 / inject_Z b * 0.6))) as [[H1 ->]|[H1 ->]];
    destruct (py_min_cases 1.0 (PyNum.max 0.25 (1.0 - p2 / inject_Z b * 0.6))) as [[H2 ->]|[H2 ->]];
    pose proof (py_max_mono 0.25 (1.0 - p2 / inject_Z b * 0.6) (1.0 - p1 / inject_Z b * 0.6));
    lra.
  - rewrite (price_score_over p1 b), (price_score_over p2 b) by (assumption || lra).
    apply py_max_mono. lra.
Qed.

Lemma price_score_cheaper_is_better_witness :
  (0 < 1000)%Q /\ (1000 <= 2000)%Q /\ (1 <= 3000)%Z /\
  ((2000 <= inject_Z 3000)%Q ->
   (Scoring.price_score (Some 2000%Q) (Some 3000%Z)
    <= Scoring.price_score (Some 1000%Q) (Some 3000%Z))%Q) /\
  ((inject_Z 3000 < 1000)%Q ->
   (Scoring.price_score (Some 2000%Q) (Some 3000%Z)
    <= Scoring.price_score (Some 1000%Q) (Some 3000%Z))%Q).
Proof.
  assert (H1 : (0 < 1000)%Q) by reflexivity.
  assert (H2 : (1000 <= 2000)%Q) by (vm_compute; discriminate).
  assert (H3 : (1 <= 3000)%Z) by lia.
  refine (conj H1 (conj H2 (conj H3 _))).
  exact (price_score_cheaper_is_better 1000%Q 2000%Q 3000%Z H1 H2 H3).
Defined.

(** X7.  The price component is not monotone across the budget: a listing
    priced exactly at a budget of at least 1 gets 0.4, and every listing
    priced over the budget by at most half of it gets at least as much. *)
Theorem price_score_jumps_over_budget (pr : Q) (b : Z) :
  (1 <= b)%Z -> (inject_Z b < pr)%Q -> (pr <= inject_Z b * 1.5)%Q ->
  (Scoring.price_score (Some (inject_Z b)) (Some b) == 0.4)%Q /\
  (Scoring.price_score (Some (inject_Z b)) (Some b)
   <= Scoring.price_score (Some pr) (Some b))%Q.
Proof.
  intros Hb Hover Hhalf.
  assert (Hbq : (0 < inject_Z b)%Q).
  { change 0%Q with (inject_Z 0). rewrite <- Zlt_Qlt. lia. }
  assert (Hat : (Scoring.price_score (Some (inject_Z b)) (Some b) == 0.4)%Q).
  { rewrite (price_score_under (inject_Z b) b) by (assumption || lra).
    assert (Hone : (inject_Z b / inject_Z b == 1)%Q) by (field; lra).
    unfold clamp.
    destruct (py_min_cases 1.0 (PyNum.max 0.25 (1.0 - inject_Z b / inject_Z b * 0.6)))
      as [[H1 ->]|[H1 ->]];
    destruct (py_max_cases 0.25 (1.0 - inject_Z b / inject_Z b * 0.6)) as [[H2 E]|[H2 E]];
    rewrite ?E in *; rewrite ?Hone in *; lra. }
  split; [exact Hat|]. rewrite Hat.
  rewrite (price_score_over pr b) by (assumption || lra).
  assert (Hd : ((pr - inject_Z b) / inject_Z b <= 0.5)%Q).
  { apply Qle_shift_div_r; lra. }
  pose proof (py_max_mono 0.05 0.4 (1.0 - (pr - inject_Z b) / inject_Z b * 1.2)) as Hm.
  pose proof (py_max_lower 0.05 0.4) as Hl.
  destruct (py_max_cases 0.05 0.4) as [[_ E]|[Hbad _]]; [|lra].
  rewrite E in Hm. apply Hm. lra.
Qed.

Lemma price_score_jumps_over_budget_witness :
  (1 <= 3000)%Z /\ (inject_Z 3000 < 3300)%Q /\ (3300 <= inject_Z 3000 * 1.5)%Q /\
  (Scoring.price_score (Some (inject_Z 3000)) (Some 3000%Z) == 0.4)%Q /\
  (Scoring.price_score (Some (inject_Z 3000)) (Some 3000%Z)
   <= Scoring.price_score (Some 3300%Q) (Some 3000%Z))%Q.
Proof.
  assert (H1 : (1 <= 3000)%Z) by lia.
  assert (H2 : (inject_Z 3000 < 3300)%Q) by reflexivity.
  assert (H3 : (3300 <= inject_Z 3000 * 1.5)%Q) by (vm_compute; discriminate).
  refine (conj H1 (conj H2 (conj H3 _))).
  exact (price_score_jumps_over_budget 3300%Q 3000%Z H1 H2 H3).
Defined.

Section OverlapFacts.
Import Scoring.

Lemma any_overlap_iff (a b : list string) :
  _any_overlap a b = true <->
  exists x y, x ∈ a /\ y ∈ b /\ Text.lower (Text.strip x) = Text.lower (Text.strip y).
Proof.
  unfold _any_overlap.
  destruct a as [|a0 a]; [|destruct b as [|b0 b]].
  - split; [discriminate | intros (x & y & Hx & _); now apply elem_of_nil in Hx].
  - split; [discriminate | intros (x & y & _ & Hy & _); now apply elem_of_nil in Hy].
  - rewrite bool_decide_eq_true. split.
    + intros Hne. apply set_choose_L in Hne as [z Hz].
      apply elem_of_intersection in Hz as [H1 H2].
      apply elem_of_list_to_set, list_elem_of_fmap in H1 as (x & -> & Hx).
      apply elem_of_list_to_set, list_elem_of_fmap in H2 as (y & Hxy & Hy).
      exists x, y. repeat split; assumption.
    + intros (x & y & Hx & Hy & E) Hempty.
      assert (Hin : _normalize_str (Some (VStr x)) ∈
                (list_to_set ((fun s => _normalize_str (Some (VStr s))) <$> a0 :: a)
                 ∩ list_to_set ((fun s => _normalize_str (Some (VStr s))) <$> b0 :: b) : gset string)).
      { apply elem_of_intersection. split; apply elem_of_list_to_set, list_elem_of_fmap.
        - now exists x.
        - exists y. split; [exact E | exact Hy]. }
      rewrite Hempty in Hin. now apply elem_of_empty in Hin.
Qed.

End OverlapFacts.

(** X8.  [_any_overlap] holds exactly when some item of the first list and
    some item of the second are equal once stripped of surrounding blanks and
    lower-cased; so it does not depend on the order of its two arguments. *)
Theorem any_overlap_norm_equal (a b : list string) :
  (Scoring._any_overlap a b = true <->
   exists x y, x ∈ a /\ y ∈ b /\ Text.lower (Text.strip x) = Text.lower (Text.strip y)) /\
  Scoring._any_overlap a b = Scoring._any_overlap b a.
Proof.
  split; [apply any_overlap_iff|].
  destruct (Scoring._any_overlap a b) eqn:E1, (Scoring._any_overlap b a) eqn:E2;
    try reflexivity.
  - apply any_overlap_iff in E1 as (x & y & Hx & Hy & E).
    assert (H : Scoring._any_overlap b a = true)
      by (apply any_overlap_iff; exists y, x; repeat split; auto).
    congruence.
  - apply any_overlap_iff in E2 as (x & y & Hx & Hy & E).
    assert (H : Scoring._any_overlap a b = true)
      by (apply any_overlap_iff; exists y, x; repeat split; auto).
    congruence.
Qed.

Section KeywordBonus.
Import Scoring.
Local Open Scope Q_scope.

Lemma kw_fold (kws : list string) (title_l : string) (acc : Q) :
  fold_left (fun bonus kw => if Text.contains kw title_l then bonus + 0.03 else bonus) kws acc
  == acc + 0.03 * inject_Z (Z.of_nat (kw_count kws title_l)).
Proof.
  revert acc. unfold kw_count.
  induction kws as [|kw kws IH]; intros acc; simpl.
  - change (inject_Z (Z.of_nat 0)) with 0. lra.
  - rewrite IH. destruct (Text.contains kw title_l); simpl length.
    + rewrite Nat2Z.inj_succ, <- Z.add_1_r, inject_Z_plus.
      change (inject_Z 1) with 1. lra.
    + lra.
Qed.

End KeywordBonus.

(** X9.  The keyword bonus is 0.03 for each keyword of the constraints that
    occurs in the lower-cased title (a keyword listed twice counts twice),
    capped at 0.15, which five occurrences reach. *)
Theorem keyword_bonus_counts (kws : list string) (title_l : string) :
  (Scoring.kw_hits kws title_l == 0.03 * inject_Z (Z.of_nat (kw_count kws title_l)))%Q /\
  (PyNum.min 0.15 (Scoring.kw_hits kws title_l)
   == 0.03 * inject_Z (Z.of_nat (Nat.min 5 (kw_count kws title_l))))%Q.
Proof.
  assert (H : (Scoring.kw_hits kws title_l
               == 0.03 * inject_Z (Z.of_nat (kw_count kws title_l)))%Q).
  { unfold Scoring.kw_hits. rewrite kw_fold. lra. }
  split; [exact H|].
  destruct (Nat.le_gt_cases 5 (kw_count kws title_l)) as [Hge|Hlt].
  - rewrite Nat.min_l by exact Hge.
    assert (Hq : (inject_Z 5 <= inject_Z (Z.of_nat (kw_count kws title_l)))%Q)
      by (rewrite <- Zle_Qle; lia).
    destruct (py_min_cases 0.15 (Scoring.kw_hits kws title_l)) as [[H1 ->]|[H1 ->]].
    + rewrite H in H1. change (inject_Z 5) with 5%Q in Hq. lra.
    + change (inject_Z (Z.of_nat 5)) with 5%Q. lra.
  - rewrite Nat.min_r by lia.
    assert (Hq : (inject_Z (Z.of_nat (kw_count kws title_l)) <= inject_Z 4)%Q)
      by (rewrite <- Zle_Qle; lia).
    destruct (py_min_cases 0.15 (Scoring.kw_hits kws title_l)) as [[H1 ->]|[H1 ->]].
    + exact H.
    + rewrite H in H1. change (inject_Z 4) with 4%Q in Hq. lra.
Qed.

Section RatingFacts.
Context `{RT : Runtime}.
Import Scoring Schemas.
Local Open Scope Q_scope.

Lemma py_min_mono (a b c : Q) : b <= c -> PyNum.min a b <= PyNum.min a c.
Proof.
  intros Hbc.
  destruct (py_min_cases a b) as [[H1 ->]|[H1 ->]];
    destruct (py_min_cases a c) as [[H2 ->]|[H2 ->]]; lra.
Qed.

Lemma float_or_0_value (x : option Q) : PyNum.float_or_0 x == default 0 x.
Proof.
  destruct x as [q|]; simpl; [|lra].
  destruct (Qeq_bool q 0) eqn:E; [|lra].
  apply Qeq_bool_iff in E. lra.
Qed.

(** The attribute match reads the title and the attrs of a product only. *)
Lemma attribute_match_same (p1 p2 : Product) (c : Constraints) :
  title p1 = title p2 -> attrs p1 = attrs p2 ->
  attribute_match_score p1 c = attribute_match_score p2 c.
Proof.
  intros Ht Ha.
  unfold attribute_match_score, tally_of, brand_block, list_block, size_block,
    capacity_block, exact_block.
  now rewrite Ht, Ha.
Qed.

End RatingFacts.

(** X10.  A higher rating never lowers the score: of two products that
    differ in nothing the score reads but the rating, the one with the
    higher rating (an unknown rating counting as 0) scores at least as
    much. *)
Theorem higher_rating_never_hurts `{RT : Runtime} (p1 p2 : Schemas.Product)
    (c : Constraints) (query : string) :
  Schemas.title p1 = Schemas.title p2 -> Schemas.price p1 = Schemas.price p2 ->
  Schemas.review_count p1 = Schemas.review_count p2 ->
  Schemas.attrs p1 = Schemas.attrs p2 ->
  (default 0 (Schemas.rating p1) <= default 0 (Schemas.rating p2))%Q ->
  (Scoring.score_product p1 c query <= Scoring.score_product p2 c query)%Q.
Proof.
  intros Ht Hp Hr Ha Hrat.
  unfold Scoring.score_product.
  rewrite (attribute_match_same p1 p2 c Ht Ha), Ht, Hp, Hr.
  apply py_max_mono, py_min_mono.
  rewrite !float_or_0_value.
  repeat apply Qplus_le_compat; try apply Qle_refl.
  apply Qmult_le_l; [reflexivity|].
  unfold Qdiv. apply Qmult_le_compat_r; [exact Hrat|].
  vm_compute. discriminate.
Qed.

Lemma higher_rating_never_hurts_witness :
  let c := ParserAgent.parse_constraints shoe_query in
  Schemas.title shoe_b = Schemas.title shoe_b_rated /\
  Schemas.price shoe_b = Schemas.price shoe_b_rated /\
  Schemas.review_count shoe_b = Schemas.review_count shoe_b_rated /\
  Schemas.attrs shoe_b = Schemas.attrs shoe_b_rated /\
  (default 0 (Schemas.rating shoe_b) <= default 0 (Schemas.rating shoe_b_rated))%Q /\
  (@Scoring.score_product example_runtime shoe_b c shoe_query
   <= @Scoring.score_product example_runtime shoe_b_rated c shoe_query)%Q.
Proof.
  cbv zeta.
  assert (H5 : (default 0 (Schemas.rating shoe_b) <= default 0 (Schemas.rating shoe_b_rated))%Q)
    by (vm_compute; discriminate).
  refine (conj eq_refl (conj eq_refl (conj eq_refl (conj eq_refl (conj H5 _))))).
  exact (@higher_rating_never_hurts example_runtime shoe_b shoe_b_rated
           (ParserAgent.parse_constraints shoe_query) shoe_query
           eq_refl eq_refl eq_refl eq_refl H5).
Defined.

(* ===================================================================== *)
(** * Further properties: the maps the parsers build *)
(* ===================================================================== *)

Section MapShape.

Lemma dict_fromkeys_elem (l : list string) (x : string) :
  x ∈ dict_fromkeys l <-> x ∈ l.
Proof.
  induction l as [|y l IH]; simpl; [reflexivity|].
  rewrite !elem_of_cons, list_elem_of_filter, IH.
  destruct (decide (x = y)) as [->|Hne]; [tauto|].
  split; [tauto|]. intros [?|Hin]; [tauto|]. right. split; [|exact Hin].
  apply Is_true_true, negb_true_iff, String.eqb_neq. exact Hne.
Qed.

Lemma dict_fromkeys_nodup (l : list string) : NoDup (dict_fromkeys l).
Proof.
  induction l as [|y l IH]; simpl; [constructor|].
  constructor; [|now apply NoDup_filter].
  rewrite list_elem_of_filter. intros [Hy _].
  apply Is_true_true, negb_true_iff, String.eqb_neq in Hy. now apply Hy.
Qed.

Lemma well_formed_empty (keys : list string) : well_formed keys ∅.
Proof. intros key v H. now rewrite lookup_empty in H. Qed.

Lemma well_formed_str (keys : list string) (key : string) (x : option string)
    (d : gmap string value) :
  key ∈ keys -> well_formed keys d -> well_formed keys (set_if_str key x d).
Proof.
  intros Hkey Hd. unfold set_if_str.
  destruct x as [s|]; [|exact Hd].
  destruct (Text.truthy s) eqn:Hs; [|exact Hd].
  intros k v Hk. apply lookup_insert_Some in Hk as [[<- <-]|[_ Hk]]; [|now apply Hd].
  split; [exact Hkey|]. split; [exact Hs | discriminate].
Qed.

Lemma well_formed_list (keys : list string) (key : string) (l : list string)
    (d : gmap string value) :
  key ∈ keys -> well_formed keys d -> well_formed keys (set_if_list key l d).
Proof.
  intros Hkey Hd. unfold set_if_list.
  destruct l as [|x l]; [exact Hd|].
  intros k v Hk. apply lookup_insert_Some in Hk as [[<- <-]|[_ Hk]]; [|now apply Hd].
  split; [exact Hkey|]. split; [reflexivity|].
  intros l' [= <-]. exact (dict_fromkeys_nodup (x :: l)).
Qed.

Lemma lower_idem (s : string) : Text.lower (Text.lower s) = Text.lower s.
Proof.
  induction s as [|c s IH]; simpl; [reflexivity|]. now rewrite lower_char_idem, IH.
Qed.

End MapShape.

Ltac key_listed := apply list_elem_of_In; simpl; tauto.

(** X11.  The filter map of [parse_constraints] binds filter keys only, and
    never to an empty value: a string it binds is not empty, a list it binds
    is not empty and holds no token twice. *)
Theorem parsed_filters_well_formed (query : string) :
  exists filters, c_filters (ParserAgent.parse_constraints query) = Some filters /\
                  well_formed FILTER_KEYS filters.
Proof.
  eexists. split; [reflexivity|].
  unfold ParserAgent.parse_filters. cbv zeta.
  repeat first [ apply well_formed_str; [key_listed|]
               | apply well_formed_list; [key_listed|] ].
  apply well_formed_empty.
Qed.

(** X12.  The attribute map read from a title binds the fifteen attribute
    keys only, each to a non-empty string or to a non-empty list of tokens
    without repetition. *)
Theorem title_attrs_well_formed (title : string) :
  well_formed ATTR_KEYS (Utils.parse_generic_attrs_from_title title).
Proof.
  unfold Utils.parse_generic_attrs_from_title. cbv zeta.
  repeat first [ apply well_formed_str; [key_listed|]
               | apply well_formed_list; [key_listed|] ].
  apply well_formed_empty.
Qed.

(** X13.  [parse_constraints] never binds [storage_gb]: the RAM pattern and
    the storage pattern of the query parser are the same pattern, and the
    storage figure is looked for only when the RAM pattern found nothing. *)
Theorem parsed_filters_never_storage_gb (query : string) :
  exists filters, c_filters (ParserAgent.parse_constraints query) = Some filters /\
                  filters !! "storage_gb" = None.
Proof.
  eexists. split; [reflexivity|].
  unfold ParserAgent.parse_filters. cbv zeta.
  set (q := Text.lower query).
  skip_other_keys.
  assert (Hsto : (if Text.contains "gb" q &&
                    negb (ParserAgent.opt_truthy
                            (if Text.contains "gb" q
                             then ParserAgent._first_match ParserAgent.RX_RAM_GB q else None))
                  then ParserAgent._first_match ParserAgent.RX_STORAGE_GB q else None)
                 = None \/
                 exists g, (if Text.contains "gb" q &&
                    negb (ParserAgent.opt_truthy
                            (if Text.contains "gb" q
                             then ParserAgent._first_match ParserAgent.RX_RAM_GB q else None))
                  then ParserAgent._first_match ParserAgent.RX_STORAGE_GB q else None)
                 = Some g /\ Text.truthy g = false).
  { destruct (Text.contains "gb" q); [|now left]. simpl.
    change (ParserAgent._first_match ParserAgent.RX_STORAGE_GB q)
      with (ParserAgent._first_match ParserAgent.RX_RAM_GB q).
    destruct (ParserAgent._first_match ParserAgent.RX_RAM_GB q) as [g|]; [|now left].
    simpl. destruct (Text.truthy g) eqn:T; [now left|]. right. now exists g. }
  destruct Hsto as [-> | (g & -> & T)].
  - rewrite lookup_set_if_str_none. skip_other_keys. apply lookup_empty.
  - unfold set_if_str at 1. rewrite T. skip_other_keys. apply lookup_empty.
Qed.

(* ===================================================================== *)
(** * Further properties: what the parser reads from a query *)
(* ===================================================================== *)

Section CategoryFacts.

Lemma find_first {A : Type} (f : A -> bool) (l : list A) (x : A) :
  List.find f l = Some x ->
  exists l1 l2, l = (l1 ++ x :: l2)%list /\ f x = true /\ forall y, y ∈ l1 -> f y = false.
Proof.
  induction l as [|a l IH]; simpl; [discriminate|].
  destruct (f a) eqn:Ha.
  - intros [= ->]. exists [], l. repeat split; [exact Ha|].
    intros y Hy. now apply elem_of_nil in Hy.
  - intros H. destruct (IH H) as (l1 & l2 & -> & Hx & Hl1).
    exists (a :: l1), l2. repeat split; [exact Hx|].
    intros y Hy. apply elem_of_cons in Hy as [->|Hy]; [exact Ha | now apply Hl1].
Qed.

Lemma find_nothing {A : Type} (f : A -> bool) (l : list A) :
  List.find f l = None <-> forall y, y ∈ l -> f y = false.
Proof.
  induction l as [|a l IH]; simpl.
  - split; [intros _ y Hy; now apply elem_of_nil in Hy | reflexivity].
  - destruct (f a) eqn:Ha.
    + split; [discriminate|]. intros H. rewrite (H a) in Ha; [discriminate|].
      apply elem_of_cons. now left.
    + rewrite IH. split.
      * intros H y Hy. apply elem_of_cons in Hy as [->|Hy]; [exact Ha | now apply H].
      * intros H y Hy. apply H, elem_of_cons. now right.
Qed.

End CategoryFacts.

(** X14.  The category of [parse_constraints] is the first entry of
    [CATEGORY_KEYWORDS], in declaration order, one of whose keywords occurs
    in the lower-cased query: no keyword of an earlier entry occurs; and the
    category is absent exactly when no keyword of any entry occurs. *)
Theorem category_is_first_match (query : string) :
  (forall cat, get_category (ParserAgent.parse_constraints query) = Some cat ->
     exists before kws after,
       ParserAgent.CATEGORY_KEYWORDS = (before ++ (cat, kws) :: after)%list /\
       category_hit (Text.lower query) (cat, kws) = true /\
       forall e, e ∈ before -> category_hit (Text.lower query) e = false) /\
  (get_category (ParserAgent.parse_constraints query) = None <->
   forall e, e ∈ ParserAgent.CATEGORY_KEYWORDS -> category_hit (Text.lower query) e = false).
Proof.
  change (get_category (ParserAgent.parse_constraints query))
    with (ParserAgent.parse_category (Text.lower query)).
  unfold ParserAgent.parse_category.
  change (fun e : string * list string =>
            existsb (fun k => Text.contains k (Text.lower query)) (snd e))
    with (category_hit (Text.lower query)).
  split.
  - intros cat H.
    destruct (List.find (category_hit (Text.lower query)) ParserAgent.CATEGORY_KEYWORDS)
      as [[cat' kws]|] eqn:E; [|discriminate].
    injection H as <-.
    apply find_first in E as (l1 & l2 & E & Hhit & Hbefore).
    now exists l1, kws, l2.
  - rewrite <- find_nothing.
    destruct (List.find (category_hit (Text.lower query)) ParserAgent.CATEGORY_KEYWORDS);
      simpl; split; congruence.
Qed.

Lemma category_is_first_match_witness :
  get_category (ParserAgent.parse_constraints "Steel bottle and a leather bag") = Some "fashion" /\
  exists before kws after,
    ParserAgent.CATEGORY_KEYWORDS = (before ++ ("fashion", kws) :: after)%list /\
    category_hit (Text.lower "Steel bottle and a leather bag") ("fashion", kws) = true /\
    forall e, e ∈ before ->
              category_hit (Text.lower "Steel bottle and a leather bag") e = false.
Proof.
  assert (H : get_category (ParserAgent.parse_constraints "Steel bottle and a leather bag")
              = Some "fashion") by (vm_compute; reflexivity).
  split; [exact H|].
  exact (proj1 (category_is_first_match "Steel bottle and a leather bag") "fashion" H).
Defined.

Section BudgetSign.
Import Text.

Lemma int_of_digits_acc_nonneg (s : string) (acc : Z) :
  (0 <= acc)%Z -> (0 <= int_of_digits_acc acc s)%Z.
Proof.
  revert acc. induction s as [|c s IH]; intros acc Hacc; simpl; [exact Hacc|].
  destruct (is_digit c); [|exact Hacc].
  apply IH. lia.
Qed.

Lemma int_of_digits_nonneg (s : string) : (0 <= int_of_digits s)%Z.
Proof. apply int_of_digits_acc_nonneg. lia. Qed.

End BudgetSign.

(** X15.  A budget that [parse_constraints] reads from a query is never
    negative. *)
Theorem parsed_budget_nonneg (query : string) (b : Z) :
  get_budget (ParserAgent.parse_constraints query) = Some b -> (0 <= b)%Z.
Proof.
  change (get_budget (ParserAgent.parse_constraints query))
    with (ParserAgent.parse_budget (Text.lower query)).
  unfold ParserAgent.parse_budget.
  destruct (Regex.search ParserAgent.RX_UNDER_K (Text.lower query)) as [m|].
  - intros [= <-]. pose proof (int_of_digits_nonneg (ParserAgent.group1 m)). lia.
  - destruct (Regex.search ParserAgent.RX_BUDGET_ANY (Text.lower query)) as [n|];
      [|discriminate].
    intros [= <-]. apply int_of_digits_nonneg.
Qed.

Lemma parsed_budget_nonneg_witness :
  get_budget (ParserAgent.parse_constraints "Mixer BELOW 2,999") = Some 2999%Z /\
  (0 <= 2999)%Z.
Proof.
  assert (H : get_budget (ParserAgent.parse_constraints "Mixer BELOW 2,999") = Some 2999%Z)
    by (vm_compute; reflexivity).
  split; [exact H|]. exact (parsed_budget_nonneg "Mixer BELOW 2,999" 2999 H).
Defined.

Section KeywordsCoverFilters.

Lemma lookup_set_if_list (key : string) (l : list string) (d : gmap string value) :
  set_if_list key l d !! key
  = match l with [] => d !! key | _ :: _ => Some (VList (dict_fromkeys l)) end.
Proof. unfold set_if_list. destruct l; [reflexivity | apply lookup_insert_eq]. Qed.

Lemma parsed_token_list (q key : string) (l : list string) :
  key ∈ ["brand"; "color"; "material"] ->
  ParserAgent.parse_filters q !! key = Some (VList l) ->
  forall x, x ∈ l -> x ∈ ParserAgent.keyword_bag q.
Proof.
  intros Hkey Hl x Hx. unfold ParserAgent.keyword_bag. rewrite !elem_of_app.
  unfold ParserAgent.parse_filters in Hl. cbv zeta in Hl.
  repeat (apply elem_of_cons in Hkey as [->|Hkey]); [| | |now apply elem_of_nil in Hkey];
    revert Hl; skip_other_keys; rewrite lookup_set_if_list.
  - destruct (ParserAgent._contains_any q ParserAgent.BRANDS) as [|b bs] eqn:E;
      [now rewrite lookup_empty|].
    intros Heq. assert (Hl : l = dict_fromkeys (b :: bs)) by congruence.
      rewrite Hl in Hx. apply (proj1 (dict_fromkeys_elem _ _)) in Hx. left. exact Hx.
  - destruct (ParserAgent._contains_any q ParserAgent.COLORS) as [|b bs] eqn:E.
    + skip_other_keys. now rewrite lookup_empty.
    + intros Heq. assert (Hl : l = dict_fromkeys (b :: bs)) by congruence.
      rewrite Hl in Hx. apply (proj1 (dict_fromkeys_elem _ _)) in Hx. right. left. exact Hx.
  - destruct (ParserAgent._contains_any q ParserAgent.MATERIALS) as [|b bs] eqn:E.
    + skip_other_keys. now rewrite lookup_empty.
    + intros Heq. assert (Hl : l = dict_fromkeys (b :: bs)) by congruence.
      rewrite Hl in Hx. apply (proj1 (dict_fromkeys_elem _ _)) in Hx. right. right. left. exact Hx.
Qed.

End KeywordsCoverFilters.

(** X16.  Every brand, colour and material token that [parse_constraints]
    puts in the filter map is also one of its keywords. *)
Theorem filter_tokens_are_keywords (query key : string) (l : list string) (x : string) :
  key ∈ ["brand"; "color"; "material"] ->
  filters_of (ParserAgent.parse_constraints query) !! key = Some (VList l) ->
  x ∈ l ->
  exists kws, c_keywords (ParserAgent.parse_constraints query) = Some kws /\ x ∈ kws.
Proof.
  intros Hkey Hl Hx. eexists. split; [reflexivity|].
  now apply (parsed_token_list (Text.lower query) key l).
Qed.

Lemma filter_tokens_are_keywords_witness :
  "color" ∈ ["brand"; "color"; "material"] /\
  filters_of (ParserAgent.parse_constraints "Red leather handbag") !! "color"
  = Some (VList ["red"]) /\
  "red" ∈ ["red"] /\
  exists kws, c_keywords (ParserAgent.parse_constraints "Red leather handbag") = Some kws /\
              "red" ∈ kws.
Proof.
  assert (H1 : "color" ∈ ["brand"; "color"; "material"]) by key_listed.
  assert (H2 : filters_of (ParserAgent.parse_constraints "Red leather handbag") !! "color"
               = Some (VList ["red"])) by (vm_compute; reflexivity).
  assert (H3 : "red" ∈ ["red"]) by key_listed.
  refine (conj H1 (conj H2 (conj H3 _))).
  exact (filter_tokens_are_keywords "Red leather handbag" "color" ["red"] "red" H1 H2 H3).
Defined.

(** X17.  Both parsers read the lower-cased text only: a query and a title
    give the same constraints and the same attributes as their lower-cased
    forms, so two texts that differ in letter case only are parsed alike. *)
Theorem parsers_ignore_case (text : string) :
  ParserAgent.parse_constraints (Text.lower text) = ParserAgent.parse_constraints text /\
  Utils.parse_generic_attrs_from_title (Text.lower text)
  = Utils.parse_generic_attrs_from_title text.
Proof.
  unfold ParserAgent.parse_constraints, Utils.parse_generic_attrs_from_title.
  now rewrite lower_idem.
Qed.

(* ===================================================================== *)
(** * Further properties: prices and counts read from text *)
(* ===================================================================== *)

Section FigureFacts.
Import Text Regex MatchSpec.

Lemma is_09_not_space (c : ascii) : ParserAgent.is_09_comma c = true -> is_space c = false.
Proof.
  unfold ParserAgent.is_09_comma, is_space, in_range. intros H.
  destruct (code c) as [|p]; [discriminate|].
  apply orb_true_iff in H.
  repeat (apply orb_false_iff; split); try apply andb_false_iff;
    rewrite ?N.leb_gt, ?N.eqb_neq;
    destruct H as [H|H];
    [apply andb_true_iff in H as [H1 H2]; apply N.leb_le in H1, H2
    |apply N.eqb_eq in H
    |apply andb_true_iff in H as [H1 H2]; apply N.leb_le in H1, H2
    |apply N.eqb_eq in H
    |apply andb_true_iff in H as [H1 H2]; apply N.leb_le in H1, H2
    |apply N.eqb_eq in H]; lia.
Qed.

Lemma digit_rx_at (pv : option ascii) (c : ascii) (f s : string) :
  ParserAgent.is_09 c = true -> all_chars ParserAgent.is_09_comma f = true ->
  head_outside ParserAgent.is_09_comma s = true ->
  rmatch UtilsParse.DIGIT_RX (MState pv (String c f ++ s) 0 None) Some
  = Some (MState (last_char (Some c) f) s (String.length f + 1) (Some (String c f))).
Proof.
  intros Hc Hf Hs. unfold UtilsParse.DIGIT_RX. simpl. rewrite Hc.
  unfold advance. simpl.
  rewrite rep_greedy; try assumption; [|lia|eexists; reflexivity].
  simpl. replace (String.length f + 1 - 0) with (S (String.length f)) by lia.
  simpl. now rewrite take_app_length.
Qed.

Lemma digit_rx_off (pv : option ascii) (t : string) :
  head_outside ParserAgent.is_09 t = true ->
  rmatch UtilsParse.DIGIT_RX (MState pv t 0 None) Some = None.
Proof.
  intros H. unfold UtilsParse.DIGIT_RX. simpl. destruct t as [|c t]; [reflexivity|].
  simpl in H. apply negb_true_iff in H. now rewrite H.
Qed.


Lemma digit_rx_search (pre : string) (c : ascii) (f s : string) :
  forall pv,
    digit_free pre = true -> ParserAgent.is_09 c = true ->
    all_chars ParserAgent.is_09_comma f = true ->
    head_outside ParserAgent.is_09_comma s = true ->
    exists m, search_from UtilsParse.DIGIT_RX pv (pre ++ String c f ++ s) = Some m /\
              grp1 m = Some (String c f).
Proof.
  induction pre as [|x pre IH]; intros pv Hpre Hc Hf Hs.
  - eexists. split; [apply search_from_hit; now apply digit_rx_at | reflexivity].
  - apply andb_true_iff in Hpre as [Hx Hpre].
    destruct (IH (Some x) Hpre Hc Hf Hs) as (m & Hm & Hg).
    exists m. split; [|exact Hg].
    change ((String x pre) ++ String c f ++ s) with (String x (pre ++ String c f ++ s)).
    cbn [search_from]. rewrite digit_rx_off by exact Hx. exact Hm.
Qed.

End FigureFacts.

Section FirstFigure.
Import Text Regex MatchSpec.


Lemma figure_digits (f : string) :
  comma_figure f = true ->
  exists c f', f = String c f' /\ ParserAgent.is_09 c = true /\
               all_chars ParserAgent.is_09_comma f' = true /\
               truthy (remove_char "," f) = true.
Proof.
  destruct f as [|c f']; [discriminate|]. simpl. intros H.
  apply andb_true_iff in H as [Hc Hf]. exists c, f'. repeat split; try assumption.
  destruct (Ascii.eqb_spec c ","); [subst; discriminate | reflexivity].
Qed.

Lemma digit_rx_first_figure (pre f s : string) :
  first_figure pre f s = true ->
  exists m, search UtilsParse.DIGIT_RX (pre ++ f ++ s) = Some m /\ grp1 m = Some f.
Proof.
  unfold first_figure. intros H.
  apply andb_true_iff in H as [H Hs]. apply andb_true_iff in H as [Hpre Hf].
  destruct (figure_digits f Hf) as (c & f' & -> & Hc & Hf' & _).
  now apply digit_rx_search.
Qed.

Lemma int_of_figure_truthy (g : string) :
  truthy g = true -> UtilsParse.int_of_figure g = Some (int_of_digits g).
Proof. destruct g; [discriminate | reflexivity]. Qed.





Lemma parse_int_reads_figure (pre f s : string) :
  first_figure pre f s = true ->
  UtilsParse.parse_int (Some (pre ++ f ++ s))
  = Some (int_of_digits (remove_char "," f)).
Proof.
  intros H. unfold UtilsParse.parse_int.
  destruct (digit_rx_first_figure pre f s H) as (m & Hm & Hg).
  rewrite Hm. unfold UtilsParse.group1. rewrite Hg. simpl.
  unfold first_figure in H.
  apply andb_true_iff in H as [H _]. apply andb_true_iff in H as [_ Hf].
  destruct (figure_digits f Hf) as (c & f' & Heq & _ & _ & Ht).
  rewrite (int_of_figure_truthy _ Ht).
  destruct (pre ++ f ++ s) eqn:E; [|reflexivity].
  subst f. destruct pre; discriminate.
Qed.

End FirstFigure.





Section DecimalFacts.
Import Text Regex MatchSpec.

Lemma uint_digits (d : Decimal.uint) :
  all_chars is_digit (NilEmpty.string_of_uint d) = true.
Proof. induction d; simpl; auto. Qed.

Lemma uint_value_acc (d : Decimal.uint) :
  forall acc : positive,
    int_of_digits_acc (Z.pos acc) (NilEmpty.string_of_uint d)
    = Z.pos (Pos.of_uint_acc d acc).
Proof.
  induction d; intros acc; simpl; [reflexivity|..];
    match goal with |- int_of_digits_acc ?z _ = _ =>
      let z' := eval cbn in z in change z with z' end;
    rewrite <- IHd; f_equal; lia.
Qed.

Lemma uint_value (d : Decimal.uint) :
  int_of_digits (NilEmpty.string_of_uint d) = Z.of_N (Pos.of_uint d).
Proof.
  unfold int_of_digits. induction d; simpl; [reflexivity|exact IHd|..];
    match goal with |- int_of_digits_acc ?z _ = _ =>
      let z' := eval cbn in z in change z with z' end;
    apply uint_value_acc.
Qed.

Lemma decimal_digits (n : N) : digit_figure (UtilsParse.decimal n) = true.
Proof.
  unfold digit_figure, UtilsParse.decimal, NilZero.string_of_uint.
  destruct (N.to_uint n) eqn:E; try reflexivity;
    rewrite <- E; apply andb_true_iff; (split; [rewrite E; reflexivity | apply uint_digits]).
Qed.

Lemma decimal_value (n : N) : int_of_digits (UtilsParse.decimal n) = Z.of_N n.
Proof.
  unfold UtilsParse.decimal.
  rewrite <- (DecimalN.Unsigned.of_to n) at 2. unfold N.of_uint.
  rewrite <- uint_value. unfold NilZero.string_of_uint.
  destruct (N.to_uint n); reflexivity.
Qed.

End DecimalFacts.

Section GroupingFacts.
Import Text Regex MatchSpec.

Lemma all_chars_of_list (p : ascii -> bool) (l : list ascii) :
  all_chars p (string_of_list_ascii l) = forallb p l.
Proof. induction l as [|c l IH]; simpl; [reflexivity | now rewrite IH]. Qed.

Lemma forallb_of_string (p : ascii -> bool) (s : string) :
  forallb p (list_ascii_of_string s) = all_chars p s.
Proof. induction s as [|c s IH]; simpl; [reflexivity | now rewrite IH]. Qed.

Lemma forallb_rev' {A : Type} (p : A -> bool) (l : list A) :
  forallb p (rev l) = forallb p l.
Proof.
  induction l as [|x l IH]; simpl; [reflexivity|].
  rewrite forallb_app, IH. simpl. rewrite andb_true_r. apply andb_comm.
Qed.

Lemma remove_char_of_list (c : ascii) (l : list ascii) :
  remove_char c (string_of_list_ascii l)
  = string_of_list_ascii (List.filter (fun x => negb (Ascii.eqb x c)) l).
Proof.
  induction l as [|x l IH]; simpl; [reflexivity|].
  destruct (Ascii.eqb x c); simpl; now rewrite IH.
Qed.

Lemma filter_rev' {A : Type} (f : A -> bool) (l : list A) :
  List.filter f (rev l) = rev (List.filter f l).
Proof.
  induction l as [|x l IH]; simpl; [reflexivity|].
  rewrite List.filter_app, IH. simpl. destruct (f x); simpl; [reflexivity|].
  now rewrite app_nil_r.
Qed.

Lemma digit_not_comma (c : ascii) : is_digit c = true -> Ascii.eqb c "," = false.
Proof. intros H. destruct (Ascii.eqb_spec c ","); [subst; discriminate | reflexivity]. Qed.

Lemma commas_removed (l : list ascii) :
  forall cnt, forallb is_digit l = true ->
    List.filter (fun x => negb (Ascii.eqb x ",")) (UtilsParse.commas cnt l) = l.
Proof.
  induction l as [|c l IH]; intros cnt H; [reflexivity|].
  simpl in H. apply andb_true_iff in H as [Hc Hl].
  destruct cnt; simpl; rewrite (digit_not_comma c Hc); simpl; now rewrite IH.
Qed.

Lemma commas_class (l : list ascii) :
  forall cnt, forallb is_digit l = true ->
    forallb ParserAgent.is_09_comma (UtilsParse.commas cnt l) = true.
Proof.
  induction l as [|c l IH]; intros cnt H; [reflexivity|].
  simpl in H. apply andb_true_iff in H as [Hc Hl].
  assert (Hc' : ParserAgent.is_09_comma c = true)
    by (unfold ParserAgent.is_09_comma; change (in_range 48 57 c) with (is_digit c);
        now rewrite Hc).
  destruct cnt; simpl; rewrite Hc', IH; auto.
Qed.

Lemma commas_last (l : list ascii) (x : ascii) :
  forall cnt, exists l', UtilsParse.commas cnt (l ++ [x])%list = (l' ++ [x])%list.
Proof.
  induction l as [|c l IH]; intros cnt; simpl.
  - destruct cnt; [now exists [","%char] | now exists []].
  - destruct cnt.
    + destruct (IH 2) as (l' & ->). now exists (","%char :: c :: l').
    + destruct (IH cnt) as (l' & ->). now exists (c :: l').
Qed.

Lemma group3_figure (d : string) :
  digit_figure d = true ->
  comma_figure (UtilsParse.group3 d) = true /\ remove_char "," (UtilsParse.group3 d) = d.
Proof.
  unfold digit_figure. intros H. apply andb_true_iff in H as [Hne Hd].
  assert (Hl : forallb is_digit (rev (list_ascii_of_string d)) = true)
    by now rewrite forallb_rev', forallb_of_string.
  split.
  - destruct d as [|c d]; [discriminate|].
    assert (Hall : all_chars ParserAgent.is_09_comma (UtilsParse.group3 (String c d)) = true).
    { unfold UtilsParse.group3. rewrite all_chars_of_list, forallb_rev'.
      now apply commas_class. }
    revert Hall. unfold UtilsParse.group3. simpl list_ascii_of_string. simpl rev.
    destruct (commas_last (rev (list_ascii_of_string d)) c 3) as (l' & ->).
    rewrite rev_app_distr. simpl. intros Hall.
    apply andb_true_iff in Hall as [_ Hall]. rewrite Hall.
    simpl in Hd. apply andb_true_iff in Hd as [Hc _]. rewrite andb_true_r. exact Hc.
  - unfold UtilsParse.group3.
    rewrite remove_char_of_list, filter_rev', commas_removed by exact Hl.
    rewrite rev_involutive. apply string_of_list_ascii_of_string.
Qed.

End GroupingFacts.

Section PriceRxFacts.
Import Text Regex MatchSpec.

Lemma price_rx_at (c : ascii) (f s : string) :
  ParserAgent.is_09_comma c = true -> all_chars ParserAgent.is_09_comma f = true ->
  head_outside ParserAgent.is_09_comma s = true ->
  exists m, rmatch UtilsParse.PRICE_RX
              (MState None (UtilsParse.RUPEE ++ String c f ++ s) 0 None) Some = Some m /\
            grp1 m = Some (String c f).
Proof.
  intros Hc Hf Hs. unfold UtilsParse.PRICE_RX, seq. simpl.
  rewrite (is_09_not_space c Hc), Hc. simpl.
  rewrite rep_greedy; try assumption; [|lia|eexists; reflexivity].
  eexists. split; [reflexivity|]. simpl.
  replace (String.length f + 4 - 3) with (S (String.length f)) by lia.
  simpl. now rewrite take_app_length.
Qed.

Lemma price_rx_off (pv : option ascii) (t : string) :
  head_outside (fun c => Ascii.eqb "226" c || Ascii.eqb "I" c) t = true ->
  rmatch UtilsParse.PRICE_RX (MState pv t 0 None) Some = None.
Proof.
  intros H. unfold UtilsParse.PRICE_RX, seq. simpl. destruct t as [|c t]; [reflexivity|].
  simpl in H. apply negb_true_iff, orb_false_iff in H as [H1 H2]. now rewrite H1, H2.
Qed.

Lemma price_rx_none (t : string) :
  forall pv, all_chars (fun c => negb (Ascii.eqb "226" c || Ascii.eqb "I" c)) t = true ->
             search_from UtilsParse.PRICE_RX pv t = None.
Proof.
  induction t as [|c t IH]; intros pv H.
  - reflexivity.
  - apply andb_true_iff in H as [Hc Ht].
    cbn [search_from]. rewrite price_rx_off by exact Hc. now apply IH.
Qed.

Lemma figure_no_sign (f : string) :
  all_chars ParserAgent.is_09_comma f = true ->
  all_chars (fun c => negb (Ascii.eqb "226" c || Ascii.eqb "I" c)) f = true.
Proof.
  induction f as [|c f IH]; [reflexivity|]. cbn [all_chars]. intros H.
  apply andb_true_iff in H as [Hc Hf]. apply andb_true_iff. split; [|exact (IH Hf)].
  apply negb_true_iff, orb_false_iff.
  split; match goal with |- Ascii.eqb ?x c = false =>
    destruct (Ascii.eqb_spec x c); [subst; discriminate | reflexivity] end.
Qed.

Lemma price_rx_minus (f : string) :
  all_chars ParserAgent.is_09_comma f = true ->
  search UtilsParse.PRICE_RX (UtilsParse.RUPEE ++ "-" ++ f) = None.
Proof.
  intros Hf. unfold search. 
  change (UtilsParse.RUPEE ++ "-" ++ f)
    with (String "226" (String "130" (String "185" (String "-" f)))).
  assert (Hrest : forall pv, search_from UtilsParse.PRICE_RX pv f = None)
    by (intros pv; apply price_rx_none, figure_no_sign, Hf).
  cbn [search_from].
  rewrite (price_rx_off (Some "185"%char) (String "-" f)) by reflexivity.
  rewrite (price_rx_off (Some "130"%char) (String "185" (String "-" f))) by reflexivity.
  rewrite (price_rx_off (Some "226"%char)) by reflexivity.
  rewrite Hrest.
  unfold UtilsParse.PRICE_RX, seq. simpl. reflexivity.
Qed.

End PriceRxFacts.

Section RoundTrip.
Import Text Regex MatchSpec.

Lemma printed_figure (v : Z) :
  exists c f,
    UtilsParse.group3 (UtilsParse.decimal (Z.abs_N v)) = String c f /\
    ParserAgent.is_09 c = true /\ all_chars ParserAgent.is_09_comma f = true /\
    int_of_digits (remove_char "," (String c f)) = Z.abs v /\
    truthy (remove_char "," (String c f)) = true.
Proof.
  destruct (group3_figure _ (decimal_digits (Z.abs_N v))) as [Hfig Hrem].
  destruct (figure_digits _ Hfig) as (c & f & E & Hc & Hf & Ht).
  exists c, f. split; [exact E|]. split; [exact Hc|]. split; [exact Hf|].
  rewrite <- E. split; [|exact Ht].
  rewrite Hrem, decimal_value. apply N2Z.inj_abs_N.
Qed.

Lemma is_09_is_09_comma (c : ascii) :
  ParserAgent.is_09 c = true -> ParserAgent.is_09_comma c = true.
Proof. unfold ParserAgent.is_09, ParserAgent.is_09_comma. now intros ->. Qed.

End RoundTrip.

(** X20.  A price printed by [format_inr] is read back by [parse_price] and
    by [parse_int] as the printed amount without its sign: the nearest
    integer to the price (a tie going to the even one), in absolute value;
    and the dash printed for a missing price is read as no price. *)
Theorem format_inr_read_back (q : Q) :
  UtilsParse.parse_price (Some (UtilsParse.format_inr (Some q)))
  = Some (inject_Z (Z.abs (UtilsParse.py_round q))) /\
  UtilsParse.parse_int (Some (UtilsParse.format_inr (Some q)))
  = Some (Z.abs (UtilsParse.py_round q)) /\
  UtilsParse.parse_price (Some (UtilsParse.format_inr None)) = None.
Proof.
  unfold UtilsParse.format_inr, UtilsParse.format_grouped.
  set (v := UtilsParse.py_round q).
  destruct (printed_figure v) as (c & f & -> & Hc & Hf & Hval & Ht).
  assert (Hint : forall sign : string, digit_free sign = true ->
            UtilsParse.parse_int (Some (UtilsParse.RUPEE ++ sign ++ String c f))
            = Some (Z.abs v)).
  { intros sign Hsign.
    pose proof (parse_int_reads_figure (UtilsParse.RUPEE ++ sign) (String c f) "") as H.
    rewrite append_nil_r, string_app_assoc, Hval in H. apply H.
    unfold first_figure, digit_free. rewrite all_chars_app. simpl.
    unfold digit_free in Hsign. now rewrite Hsign, Hc, Hf. }
  split; [|split; [|reflexivity]].
  - destruct (v <? 0)%Z.
    + unfold UtilsParse.parse_price. cbn [Text.truthy UtilsParse.RUPEE String.append].
      change (String "226" (String "130" (String "185" (String "-" (String c f)))))
        with (UtilsParse.RUPEE ++ "-" ++ String c f).
      rewrite (price_rx_minus (String c f))
        by (simpl; now rewrite (is_09_is_09_comma c Hc), Hf).
      specialize (Hint "-" eq_refl). unfold UtilsParse.parse_int in Hint.
      cbn [Text.truthy UtilsParse.RUPEE String.append] in Hint.
      change (String "226" (String "130" (String "185" (String "-" (String c f)))))
        with (UtilsParse.RUPEE ++ "-" ++ String c f) in Hint.
      destruct (Regex.search UtilsParse.DIGIT_RX _) as [m2|]; [|discriminate].
      unfold UtilsParse.float_of_figure. now rewrite Hint.
    + unfold UtilsParse.parse_price. cbn [Text.truthy UtilsParse.RUPEE String.append].
      change (String "226" (String "130" (String "185" (String c f))))
        with (UtilsParse.RUPEE ++ String c f).
      destruct (price_rx_at c f "" (is_09_is_09_comma c Hc) Hf eq_refl) as (m & Hm & Hg).
      rewrite append_nil_r in Hm. apply search_from_hit in Hm.
      unfold Regex.search. rewrite Hm. unfold UtilsParse.group1. rewrite Hg.
      cbn [default from_option]. unfold id, UtilsParse.float_of_figure.
      rewrite (int_of_figure_truthy _ Ht), Hval. reflexivity.
  - destruct (v <? 0)%Z; [exact (Hint "-" eq_refl) | exact (Hint "" eq_refl)].
Qed.

(* ===================================================================== *)
(** * Further properties: titles *)
(* ===================================================================== *)

Section TitleFacts.
Import Text.

Lemma lstrip_head (s : string) : head_outside is_space (lstrip s) = true.
Proof.
  induction s as [|c s IH]; [reflexivity|]. simpl.
  destruct (is_space c) eqn:Hc; [exact IH|]. simpl. now rewrite Hc.
Qed.

Lemma rstrip_head (s : string) :
  head_outside is_space s = true -> head_outside is_space (rstrip s) = true.
Proof.
  destruct s as [|c s]; [reflexivity|]. simpl. intros Hc.
  destruct (rstrip s); [|exact Hc].
  apply negb_true_iff in Hc. rewrite Hc. simpl. now rewrite Hc.
Qed.

Lemma rstrip_no_trailing (s : string) : no_trailing_blank (rstrip s) = true.
Proof.
  induction s as [|c s IH]; [reflexivity|]. simpl.
  destruct (rstrip s) as [|d r] eqn:E.
  - destruct (is_space c) eqn:Hc; [reflexivity|]. simpl. now rewrite Hc.
  - exact IH.
Qed.

Lemma no_trailing_tail (c : ascii) (s : string) :
  no_trailing_blank (String c s) = true -> no_trailing_blank s = true.
Proof. destruct s; [reflexivity | intros H; exact H]. Qed.

Lemma collapse_run_head (s : string) :
  no_trailing_blank s = true -> truthy s = true ->
  exists d r, UtilsParse.collapse true s = String d r /\ is_space d = false.
Proof.
  induction s as [|c s IH]; [discriminate|]. intros Hn _. simpl.
  destruct (is_space c) eqn:Hc.
  - destruct s as [|d s']; [simpl in Hn; now rewrite Hc in Hn|].
    apply IH; [exact Hn | reflexivity].
  - now exists c, (UtilsParse.collapse false s).
Qed.

Lemma collapse_single_spaced (s : string) :
  forall b, no_trailing_blank s = true -> single_spaced (UtilsParse.collapse b s) = true.
Proof.
  induction s as [|c s IH]; intros b Hn; [reflexivity|].
  pose proof (no_trailing_tail c s Hn) as Hs. simpl.
  destruct (is_space c) eqn:Hc.
  - destruct b; [now apply IH|].
    destruct s as [|d s']; [simpl in Hn; now rewrite Hc in Hn|].
    destruct (collapse_run_head (String d s') Hs eq_refl) as (x & r & E & Hx).
    cbn [single_spaced]. rewrite (IH true Hs), E, Hx. reflexivity.
  - cbn [single_spaced]. rewrite Hc. now apply IH.
Qed.

Lemma collapse_head (s : string) :
  head_outside is_space s = true ->
  head_outside is_space (UtilsParse.collapse false s) = true.
Proof.
  destruct s as [|c s]; [reflexivity|]. simpl. intros Hc.
  apply negb_true_iff in Hc. rewrite Hc. simpl. now rewrite Hc.
Qed.

Lemma single_spaced_no_trailing (s : string) :
  single_spaced s = true -> no_trailing_blank s = true.
Proof.
  induction s as [|c s IH]; [reflexivity|]. cbn [single_spaced]. intros H.
  apply andb_true_iff in H as [Hc Hs].
  destruct s as [|d s']; [|exact (IH Hs)].
  simpl. destruct (is_space c); [|reflexivity].
  now rewrite andb_false_r in Hc.
Qed.

Lemma lstrip_fixed (s : string) : head_outside is_space s = true -> lstrip s = s.
Proof.
  destruct s as [|c s]; [reflexivity|]. simpl. intros Hc.
  apply negb_true_iff in Hc. now rewrite Hc.
Qed.

Lemma rstrip_fixed (s : string) : no_trailing_blank s = true -> rstrip s = s.
Proof.
  induction s as [|c s IH]; [reflexivity|]. intros Hn.
  pose proof (no_trailing_tail c s Hn) as Hs. simpl. rewrite (IH Hs).
  destruct s as [|d s']; [|reflexivity].
  simpl in Hn. apply negb_true_iff in Hn. now rewrite Hn.
Qed.

Lemma collapse_fixed (s : string) :
  forall b, single_spaced s = true -> (b = true -> head_outside is_space s = true) ->
            UtilsParse.collapse b s = s.
Proof.
  induction s as [|c s IH]; intros b Hs Hb; [reflexivity|].
  cbn [single_spaced] in Hs. apply andb_true_iff in Hs as [Hc Hs]. simpl.
  destruct (is_space c) eqn:Ec.
  - destruct b; [specialize (Hb eq_refl); simpl in Hb; now rewrite Ec in Hb|].
    apply andb_true_iff in Hc as [Heq Hnext].
    apply Ascii.eqb_eq in Heq. subst c. f_equal.
    apply IH; [exact Hs|]. intros _. destruct s; [discriminate | exact Hnext].
  - f_equal. apply IH; [exact Hs | discriminate].
Qed.

Lemma clean_title_is_tidy (t : option string) : tidy (UtilsParse.clean_title t) = true.
Proof.
  unfold tidy, UtilsParse.clean_title, strip. apply andb_true_iff. split.
  - apply collapse_head, rstrip_head, lstrip_head.
  - apply collapse_single_spaced, rstrip_no_trailing.
Qed.

Lemma clean_title_fixed (s : string) :
  tidy s = true -> UtilsParse.clean_title (Some s) = s.
Proof.
  unfold tidy. intros H. apply andb_true_iff in H as [Hh Hs].
  unfold UtilsParse.clean_title, strip. simpl.
  rewrite (lstrip_fixed s Hh), (rstrip_fixed s (single_spaced_no_trailing s Hs)).
  apply collapse_fixed; [exact Hs | discriminate].
Qed.

End TitleFacts.

(** X21.  [clean_title] puts every title in one form: no blank at either end
    and single spaces between the words; cleaning a cleaned title changes
    nothing, and a missing title cleans to the empty one. *)
Theorem clean_title_normal_form (t : option string) :
  tidy (UtilsParse.clean_title t) = true /\
  UtilsParse.clean_title (Some (UtilsParse.clean_title t)) = UtilsParse.clean_title t /\
  UtilsParse.clean_title None = EmptyString.
Proof.
  split; [apply clean_title_is_tidy|]. split; [|reflexivity].
  apply clean_title_fixed, clean_title_is_tidy.
Qed.

(** X22.  [clean_title] leaves a title that is already in that form as it
    is. *)
Theorem clean_title_keeps_tidy (s : string) :
  tidy s = true -> UtilsParse.clean_title (Some s) = s.
Proof. exact (clean_title_fixed s). Qed.

Lemma clean_title_keeps_tidy_witness :
  tidy "Puma Men's RS-X Sneakers" = true /\
  UtilsParse.clean_title (Some "Puma Men's RS-X Sneakers") = "Puma Men's RS-X Sneakers".
Proof.
  assert (H : tidy "Puma Men's RS-X Sneakers" = true) by reflexivity.
  split; [exact H|]. exact (clean_title_keeps_tidy "Puma Men's RS-X Sneakers" H).
Defined.

(* ===================================================================== *)
(** * Further properties: specs for the UI *)
(* ===================================================================== *)

Section SpecFacts.

Lemma firstn_exact {A : Type} (n : nat) (a b : list A) :
  length a = n -> firstn n (a ++ b)%list = a.
Proof.
  revert n. induction a as [|x a IH]; intros n <-; simpl; [reflexivity|].
  f_equal. now apply IH.
Qed.

Lemma specs_loop_first_six (attrs : gmap string value) (order : list (string * string)) :
  forall specs, length specs < 6 ->
    UtilsSpecs.specs_loop order attrs specs = firstn 6 (specs ++ all_specs order attrs)%list.
Proof.
  unfold all_specs.
  induction order as [|e order IH]; intros specs Hlen.
  - simpl. rewrite app_nil_r. symmetry. apply firstn_all2. lia.
  - cbn [UtilsSpecs.specs_loop].
    change (omap (UtilsSpecs.spec_of attrs) (e :: order))
      with (match UtilsSpecs.spec_of attrs e with
            | Some y => y :: omap (UtilsSpecs.spec_of attrs) order
            | None => omap (UtilsSpecs.spec_of attrs) order
            end).
    destruct (UtilsSpecs.spec_of attrs e) as [s|].
    + rewrite length_app. cbn [length]. destruct (6 <=? length specs + 1)%nat eqn:E.
      * apply Nat.leb_le in E. symmetry.
        rewrite (cons_middle s specs), List.app_assoc.
        apply firstn_exact. rewrite length_app. simpl. lia.
      * apply Nat.leb_gt in E. rewrite IH by (rewrite length_app; simpl; lia).
        now rewrite <- List.app_assoc.
    + destruct (6 <=? length specs)%nat eqn:E; [apply Nat.leb_le in E; lia|].
      now apply IH.
Qed.

Lemma order_for_perm (category : string) :
  UtilsSpecs.order_for category ≡ₚ UtilsSpecs.order_generic.
Proof.
  unfold UtilsSpecs.order_for.
  destruct (String.eqb category "fashion");
    [|destruct (String.eqb category "home-kitchen" || String.eqb category "appliances")];
    try reflexivity;
    apply (bool_decide_eq_true_1 _); vm_compute; reflexivity.
Qed.

Lemma specs_from_attrs_first_six (category : string) (attrs : gmap string value) :
  UtilsSpecs.specs_from_attrs category attrs
  = firstn 6 (all_specs (UtilsSpecs.order_for category) attrs).
Proof.
  unfold UtilsSpecs.specs_from_attrs. case_bool_decide as E.
  - subst attrs. unfold all_specs.
    induction (UtilsSpecs.order_for category) as [|e l IH]; [reflexivity|].
    simpl. unfold UtilsSpecs.spec_of at 1. rewrite lookup_empty. exact IH.
  - apply (specs_loop_first_six attrs _ []). simpl. lia.
Qed.

End SpecFacts.

(** X23.  The specs [specs_from_attrs] gives are the first six, in the order
    of the category, of the specs of the attributes that are present and not
    empty ([None], the empty text and the empty list count as empty); so
    there are never more than six of them. *)
Theorem specs_are_first_six (category : string) (attrs : gmap string value) :
  UtilsSpecs.specs_from_attrs category attrs
  = firstn 6 (all_specs (UtilsSpecs.order_for category) attrs) /\
  length (UtilsSpecs.specs_from_attrs category attrs) <= 6.
Proof.
  pose proof (specs_from_attrs_first_six category attrs) as H.
  split; [exact H|]. rewrite H. apply firstn_le_length.
Qed.

(** X24.  The category only changes the order of the specs: when at most six
    attributes are present and not empty, every category gives the same
    specs as the generic order, up to their order. *)
Theorem category_only_reorders_specs (category : string) (attrs : gmap string value) :
  length (all_specs UtilsSpecs.order_generic attrs) <= 6 ->
  UtilsSpecs.specs_from_attrs category attrs ≡ₚ UtilsSpecs.specs_from_attrs EmptyString attrs.
Proof.
  intros Hlen.
  assert (Hperm : all_specs (UtilsSpecs.order_for category) attrs
                  ≡ₚ all_specs UtilsSpecs.order_generic attrs)
    by (unfold all_specs; now rewrite order_for_perm).
  rewrite !specs_from_attrs_first_six.
  rewrite (firstn_all2 (all_specs (UtilsSpecs.order_for category) attrs))
    by (rewrite Hperm; exact Hlen).
  change (UtilsSpecs.order_for "") with UtilsSpecs.order_generic.
  rewrite (firstn_all2 (all_specs UtilsSpecs.order_generic attrs)) by exact Hlen.
  exact Hperm.
Qed.

Lemma category_only_reorders_specs_witness :
  length (all_specs UtilsSpecs.order_generic (Schemas.attrs attr_shoe)) <= 6 /\
  UtilsSpecs.specs_from_attrs "fashion" (Schemas.attrs attr_shoe)
  ≡ₚ UtilsSpecs.specs_from_attrs EmptyString (Schemas.attrs attr_shoe).
Proof.
  assert (H : length (all_specs UtilsSpecs.order_generic (Schemas.attrs attr_shoe)) <= 6)
    by (vm_compute; lia).
  split; [exact H|]. exact (category_only_reorders_specs "fashion" (Schemas.attrs attr_shoe) H).
Defined.

Section BuildSpecsFacts.

Lemma existsb_eqb_elem (m : string) (specs : list string) :
  existsb (String.eqb m) specs = true <-> m ∈ specs.
Proof.
  rewrite existsb_exists. split.
  - intros (x & Hx & Heq). apply String.eqb_eq in Heq. subst x.
    now apply list_elem_of_In.
  - intros H. exists m. split; [now apply list_elem_of_In | apply String.eqb_refl].
Qed.

Lemma merge_more_shape (more : list string) :
  forall specs, length specs < 6 ->
    specs `prefix_of` UiMapper.merge_more more specs /\
    length (UiMapper.merge_more more specs) <= 6 /\
    (forall s, s ∈ UiMapper.merge_more more specs -> s ∈ specs \/ s ∈ more) /\
    (NoDup specs -> NoDup (UiMapper.merge_more more specs)).
Proof.
  induction more as [|m more IH]; intros specs Hlen.
  - simpl. repeat split; [reflexivity | lia | now left | trivial].
  - cbn [UiMapper.merge_more].
    destruct (existsb (String.eqb m) specs) eqn:Hin.
    + destruct (6 <=? length specs)%nat eqn:E; [apply Nat.leb_le in E; lia|].
      destruct (IH specs Hlen) as (Hp & Hl & He & Hn).
      repeat split; try assumption.
      intros s Hs. destruct (He s Hs) as [?|?]; [now left | right; now apply elem_of_cons; right].
    + assert (Hm : m ∉ specs)
        by (intros Hm; apply existsb_eqb_elem in Hm; congruence).
      assert (Hnd : NoDup specs -> NoDup (specs ++ [m])%list).
      { intros Hn. apply NoDup_app. repeat split; [exact Hn | | apply NoDup_singleton].
        intros x Hx Hx'. apply list_elem_of_singleton in Hx'. now subst x. }
      destruct (6 <=? length (specs ++ [m])%list)%nat eqn:E.
      * apply Nat.leb_le in E. rewrite length_app in E. simpl in E.
        repeat split.
        -- now apply prefix_app_r.
        -- rewrite length_app. simpl. lia.
        -- intros s Hs. apply elem_of_app in Hs as [?|Hs]; [now left|].
           apply list_elem_of_singleton in Hs. subst s. right. now apply elem_of_cons; left.
        -- exact Hnd.
      * apply Nat.leb_gt in E.
        destruct (IH (specs ++ [m])%list E) as (Hp & Hl & He & Hn).
        repeat split.
        -- etransitivity; [|exact Hp]. now apply prefix_app_r.
        -- exact Hl.
        -- intros s Hs. destruct (He s Hs) as [Hs'|Hs'].
           ++ apply elem_of_app in Hs' as [?|Hs']; [now left|].
              apply list_elem_of_singleton in Hs'. subst s. right. now apply elem_of_cons; left.
           ++ right. now apply elem_of_cons; right.
        -- intros Hnd'. apply Hn, Hnd, Hnd'.
Qed.

End BuildSpecsFacts.

(** X25.  The specs [_build_specs] shows for a product begin with the specs
    of its structured attributes, are at most six, and hold nothing but
    structured specs and specs read from the title; the title is not read
    when four or more structured specs exist, and a spec read from the title
    never repeats a spec already there. *)
Theorem build_specs_shape (p : Schemas.Product) :
  structured_specs p `prefix_of` UiMapper._build_specs p /\
  length (UiMapper._build_specs p) <= 6 /\
  (forall s, s ∈ UiMapper._build_specs p ->
     s ∈ structured_specs p \/ s ∈ UtilsSpecs.specs_from_title (Schemas.title p)) /\
  (4 <= length (structured_specs p) -> UiMapper._build_specs p = structured_specs p) /\
  (NoDup (structured_specs p) -> NoDup (UiMapper._build_specs p)).
Proof.
  unfold UiMapper._build_specs.
  change (UtilsSpecs.specs_from_attrs (UiMapper.category_or_empty p) (Schemas.attrs p))
    with (structured_specs p).
  assert (Hsix : length (structured_specs p) <= 6)
    by (unfold structured_specs; rewrite specs_from_attrs_first_six; apply firstn_le_length).
  destruct (length (structured_specs p) <? 4)%nat eqn:E.
  - apply Nat.ltb_lt in E.
    destruct (merge_more_shape (UtilsSpecs.specs_from_title (Schemas.title p))
                (structured_specs p) ltac:(lia)) as (Hp & Hl & He & Hn).
    rewrite firstn_all2 by exact Hl.
    repeat split; try assumption. intros H4. lia.
  - apply Nat.ltb_ge in E. rewrite firstn_all2 by exact Hsix.
    repeat split; [reflexivity | exact Hsix | now left | trivial].
Qed.

(* ===================================================================== *)
(** * Further properties: the extractor, navigator and summarizer agents *)
(* ===================================================================== *)

Section ExtractorFacts.
Import Schemas.

Lemma category_names_truthy (c : Constraints) (cat : string) :
  get_category c = Some cat -> dict_truthy c = true.
Proof.
  unfold get_category, dict_truthy. destruct (c_category c) as [o|]; [|discriminate].
  intros _. rewrite (bool_decide_eq_true_2 (is_Some (Some o))) by (eexists; reflexivity).
  now rewrite orb_true_r.
Qed.

Lemma run_with_category (products : list Product) (c : Constraints) (cat : string) :
  get_category c = Some cat -> Text.truthy cat = true ->
  ExtractorAgent.run products (Some c)
  = map (fun p => if ParserAgent.opt_truthy (category p) then p
                  else ExtractorAgent.set_category cat p) products.
Proof.
  intros Hc Ht. unfold ExtractorAgent.run.
  now rewrite (category_names_truthy c cat Hc), Hc, Ht.
Qed.

End ExtractorFacts.

(** X26.  With constraints that name a category, [run] of the extractor
    agent gives every product a category: a product that has one keeps it, a
    product without one (missing or empty) gets the category of the
    constraints, nothing else of a product changes, and a second run changes
    nothing more. *)
Theorem extractor_fills_category (products : list Schemas.Product) (c : Constraints)
    (cat : string) :
  get_category c = Some cat -> Text.truthy cat = true ->
  Forall (fun p => ParserAgent.opt_truthy (Schemas.category p) = true)
         (ExtractorAgent.run products (Some c)) /\
  Forall2 (fun p p' =>
             same_but_category p p' /\
             Schemas.category p' = (if ParserAgent.opt_truthy (Schemas.category p)
                                    then Schemas.category p else Some cat))
          products (ExtractorAgent.run products (Some c)) /\
  ExtractorAgent.run (ExtractorAgent.run products (Some c)) (Some c)
  = ExtractorAgent.run products (Some c).
Proof.
  intros Hc Ht. rewrite !(run_with_category _ c cat Hc Ht).
  split; [|split].
  - apply List.Forall_forall. intros p' Hp'. apply in_map_iff in Hp' as (p & <- & _).
    destruct (ParserAgent.opt_truthy (Schemas.category p)) eqn:E; [exact E | exact Ht].
  - induction products as [|p ps IH]; simpl; constructor; [|exact IH].
    destruct (ParserAgent.opt_truthy (Schemas.category p)); split; reflexivity.
  - rewrite map_map. apply map_ext. intros p.
    destruct (ParserAgent.opt_truthy (Schemas.category p)) eqn:E; [now rewrite E|].
    simpl. now rewrite Ht.
Qed.

Lemma extractor_fills_category_witness :
  get_category fashion_only = Some "fashion" /\ Text.truthy "fashion" = true /\
  Forall (fun p => ParserAgent.opt_truthy (Schemas.category p) = true)
         (ExtractorAgent.run [shoe_a; shoe_c] (Some fashion_only)) /\
  Forall2 (fun p p' =>
             same_but_category p p' /\
             Schemas.category p' = (if ParserAgent.opt_truthy (Schemas.category p)
                                    then Schemas.category p else Some "fashion"))
          [shoe_a; shoe_c] (ExtractorAgent.run [shoe_a; shoe_c] (Some fashion_only)) /\
  ExtractorAgent.run (ExtractorAgent.run [shoe_a; shoe_c] (Some fashion_only))
    (Some fashion_only)
  = ExtractorAgent.run [shoe_a; shoe_c] (Some fashion_only).
Proof.
  assert (H1 : get_category fashion_only = Some "fashion") by reflexivity.
  assert (H2 : Text.truthy "fashion" = true) by reflexivity.
  refine (conj H1 (conj H2 _)).
  exact (extractor_fills_category [shoe_a; shoe_c] fashion_only "fashion" H1 H2).
Defined.

(** X27.  The extractor node of the graph runs the extractor agent without
    constraints, so it returns the state as it was: a product without a
    category still has none after the node, also when the constraints of the
    state name a category. *)
Theorem extractor_node_changes_nothing (state : Nodes.GraphState) :
  PipelineNodes.extractor_node state = state.
Proof. now destruct state. Qed.

Section NavigatorFacts.

Lemma starts_with_app (q t : string) : Text.starts_with q (q ++ t) = true.
Proof.
  induction q as [|c q IH]; simpl; [now destruct t|].
  now rewrite Ascii.eqb_refl, IH.
Qed.

Lemma starts_with_refl (q : string) : Text.starts_with q q = true.
Proof. induction q as [|c q IH]; simpl; [reflexivity | now rewrite Ascii.eqb_refl, IH]. Qed.

Lemma app_longer (q : string) (c : ascii) (t : string) : q ++ String c t <> q.
Proof. induction q as [|x q IH]; simpl; [discriminate|]. intros [= H]. now apply IH. Qed.

End NavigatorFacts.

(** X28.  [_augment_query] never alters the words of the query: the result
    begins with the query.  It is the query itself exactly when the
    constraints name no category and list no brand, and always when there
    are no constraints. *)
Theorem augment_query_extends (query : string) (c : Constraints) :
  Text.starts_with query (NavigatorAgent._augment_query query (Some c)) = true /\
  (NavigatorAgent._augment_query query (Some c) = query <->
   ParserAgent.opt_truthy (get_category c) = false /\
   NavigatorAgent.brand_tokens (filters_of c) = []) /\
  NavigatorAgent._augment_query query None = query.
Proof.
  unfold NavigatorAgent._augment_query, filters_of.
  destruct (dict_truthy c) eqn:Hd.
  - destruct (get_category c) as [cat|] eqn:Hc; simpl.
    + destruct (Text.truthy cat) eqn:Ht; simpl.
      * split; [apply starts_with_app|]. split; [|reflexivity].
        split; [intros H; now apply app_longer in H | intros [H _]; discriminate].
      * destruct (NavigatorAgent.brand_tokens (default ∅ (c_filters c))) as [|b bs].
        -- repeat split; apply starts_with_refl.
        -- split; [apply starts_with_app|]. split; [|reflexivity].
           split; [intros H; now apply app_longer in H | intros [_ H]; discriminate].
    + destruct (NavigatorAgent.brand_tokens (default ∅ (c_filters c))) as [|b bs].
      * repeat split; apply starts_with_refl.
      * split; [apply starts_with_app|]. split; [|reflexivity].
        split; [intros H; now apply app_longer in H | intros [_ H]; discriminate].
  - assert (Hcat : get_category c = None).
    { unfold dict_truthy in Hd. unfold get_category.
      destruct (c_category c); [|reflexivity].
      rewrite (bool_decide_eq_true_2 (is_Some (Some o))) in Hd by (eexists; reflexivity).
      now rewrite orb_true_r in Hd. }
    assert (Hf : c_filters c = None).
    { unfold dict_truthy in Hd. destruct (c_filters c) as [f|]; [|reflexivity].
      rewrite (bool_decide_eq_true_2 (is_Some (Some f))) in Hd by (eexists; reflexivity).
      now rewrite orb_true_r in Hd. }
    rewrite Hcat, Hf. repeat split; apply starts_with_refl.
Qed.

Section SummarizerFacts.
Import Schemas.
Local Open Scope Q_scope.

Lemma min_by_first {A : Type} (key : A -> Q) (l : list A) :
  forall (pre : list A) (best : A) (suf : list A),
    (forall y, y ∈ pre -> key best < key y) ->
    (forall y, y ∈ suf -> key best <= key y) ->
    exists l1 l2,
      (pre ++ best :: suf ++ l)%list = (l1 ++ SummarizerAgent.min_by key best l :: l2)%list /\
      (forall y, y ∈ l1 -> key (SummarizerAgent.min_by key best l) < key y) /\
      (forall y, y ∈ l2 -> key (SummarizerAgent.min_by key best l) <= key y).
Proof.
  induction l as [|x l IH]; intros pre best suf Hpre Hsuf; simpl.
  - exists pre, suf. now rewrite app_nil_r.
  - destruct (PyNum.Qltb (key x) (key best)) eqn:E.
    + apply Qltb_true in E.
      destruct (IH (pre ++ best :: suf)%list x []) as (l1 & l2 & Heq & H1 & H2).
      * intros y Hy. apply elem_of_app in Hy as [Hy|Hy].
        -- eapply Qlt_trans; [exact E | now apply Hpre].
        -- apply elem_of_cons in Hy as [->|Hy]; [exact E|].
           eapply Qlt_le_trans; [exact E | now apply Hsuf].
      * intros y Hy. now apply elem_of_nil in Hy.
      * exists l1, l2. split; [|now split]. rewrite <- Heq. simpl.
        rewrite <- List.app_assoc. simpl. reflexivity.
    + apply Qltb_false in E.
      destruct (IH pre best (suf ++ [x])%list Hpre) as (l1 & l2 & Heq & H1 & H2).
      * intros y Hy. apply elem_of_app in Hy as [Hy|Hy]; [now apply Hsuf|].
        apply list_elem_of_singleton in Hy. now subst y.
      * exists l1, l2. split; [|now split]. rewrite <- Heq.
        rewrite <- List.app_assoc. reflexivity.
Qed.

Lemma max_by_first {A : Type} (key : A -> Q) (l : list A) :
  forall (pre : list A) (best : A) (suf : list A),
    (forall y, y ∈ pre -> key y < key best) ->
    (forall y, y ∈ suf -> key y <= key best) ->
    exists l1 l2,
      (pre ++ best :: suf ++ l)%list = (l1 ++ SummarizerAgent.max_by key best l :: l2)%list /\
      (forall y, y ∈ l1 -> key y < key (SummarizerAgent.max_by key best l)) /\
      (forall y, y ∈ l2 -> key y <= key (SummarizerAgent.max_by key best l)).
Proof.
  induction l as [|x l IH]; intros pre best suf Hpre Hsuf; simpl.
  - exists pre, suf. now rewrite app_nil_r.
  - destruct (PyNum.Qltb (key best) (key x)) eqn:E.
    + apply Qltb_true in E.
      destruct (IH (pre ++ best :: suf)%list x []) as (l1 & l2 & Heq & H1 & H2).
      * intros y Hy. apply elem_of_app in Hy as [Hy|Hy].
        -- eapply Qlt_trans; [now apply Hpre | exact E].
        -- apply elem_of_cons in Hy as [->|Hy]; [exact E|].
           eapply Qle_lt_trans; [now apply Hsuf | exact E].
      * intros y Hy. now apply elem_of_nil in Hy.
      * exists l1, l2. split; [|now split]. rewrite <- Heq. simpl.
        rewrite <- List.app_assoc. simpl. reflexivity.
    + apply Qltb_false in E.
      destruct (IH pre best (suf ++ [x])%list Hpre) as (l1 & l2 & Heq & H1 & H2).
      * intros y Hy. apply elem_of_app in Hy as [Hy|Hy]; [now apply Hsuf|].
        apply list_elem_of_singleton in Hy. now subst y.
      * exists l1, l2. split; [|now split]. rewrite <- Heq.
        rewrite <- List.app_assoc. reflexivity.
Qed.

Lemma keyed_elem (f : Product -> option Q) (products : list Product) (v : Q) (p : Product) :
  (v, p) ∈ omap (fun p => (fun v => (v, p)) <$> f p) products <-> p ∈ products /\ f p = Some v.
Proof.
  rewrite list_elem_of_omap. split.
  - intros (x & Hx & Hf). destruct (f x) as [w|] eqn:E; [|discriminate].
    simpl in Hf. injection Hf as <- <-. now split.
  - intros [Hp Hf]. exists p. split; [exact Hp|]. now rewrite Hf.
Qed.

Lemma keyed_nil (f : Product -> option Q) (products : list Product) :
  omap (fun p => (fun v => (v, p)) <$> f p) products = [] <->
  forall p, p ∈ products -> f p = None.
Proof.
  induction products as [|x ps IH].
  - split; [intros _ p Hp; now apply elem_of_nil in Hp | reflexivity].
  - change (omap (fun p => (fun v => (v, p)) <$> f p) (x :: ps))
      with (match (fun v => (v, x)) <$> f x with
            | Some y => y :: omap (fun p => (fun v => (v, p)) <$> f p) ps
            | None => omap (fun p => (fun v => (v, p)) <$> f p) ps
            end).
    destruct (f x) as [v|] eqn:E; simpl.
    + split; [discriminate|]. intros H. rewrite (H x) in E; [discriminate|].
      apply elem_of_cons. now left.
    + rewrite IH. split.
      * intros H p Hp. apply elem_of_cons in Hp as [->|Hp]; [exact E | now apply H].
      * intros H p Hp. apply H, elem_of_cons. now right.
Qed.

End SummarizerFacts.

(** X29.  [_min_price] gives no product exactly when no product has a price;
    otherwise it gives a product of the list whose price no priced product
    of the list undercuts. *)
Theorem min_price_is_cheapest (products : list Schemas.Product) :
  (SummarizerAgent._min_price products = None <->
   forall p, p ∈ products -> Schemas.price p = None) /\
  (forall p, SummarizerAgent._min_price products = Some p ->
     p ∈ products /\
     exists v, Schemas.price p = Some v /\
     forall p' v', p' ∈ products -> Schemas.price p' = Some v' -> (v <= v')%Q).
Proof.
  unfold SummarizerAgent._min_price, SummarizerAgent.priced.
  pose proof (keyed_nil Schemas.price products) as Hnil.
  pose proof (fun v p => keyed_elem Schemas.price products v p) as Helem.
  destruct (omap _ products) as [|x l] eqn:E.
  - split; [split; [intros _; now apply Hnil | reflexivity] | discriminate].
  - split.
    + split; [discriminate|]. intros H. apply Hnil in H. discriminate.
    + intros p [= <-].
      destruct (min_by_first fst l [] x []) as (l1 & l2 & Heq & H1 & H2);
        try (intros y Hy; now apply elem_of_nil in Hy).
      simpl in Heq. set (r := SummarizerAgent.min_by fst x l) in *.
      assert (Hr : (fst r, snd r) ∈ x :: l).
      { rewrite Heq. destruct r. apply elem_of_app. right. apply elem_of_cons. now left. }
      apply Helem in Hr as [Hin Hprice]. split; [exact Hin|].
      exists (fst r). split; [exact Hprice|].
      intros p' v' Hp' Hv'.
      assert (Hy : (v', p') ∈ x :: l) by now apply Helem.
      rewrite Heq in Hy. apply elem_of_app in Hy as [Hy|Hy].
      * apply Qlt_le_weak. exact (H1 _ Hy).
      * apply elem_of_cons in Hy as [Hy|Hy]; [rewrite <- Hy; apply Qle_refl|].
        exact (H2 _ Hy).
Qed.

(** X30.  [_max_rating] gives no product exactly when no product has a
    rating; otherwise it gives a product of the list whose rating no rated
    product of the list exceeds. *)
Theorem max_rating_is_best (products : list Schemas.Product) :
  (SummarizerAgent._max_rating products = None <->
   forall p, p ∈ products -> Schemas.rating p = None) /\
  (forall p, SummarizerAgent._max_rating products = Some p ->
     p ∈ products /\
     exists v, Schemas.rating p = Some v /\
     forall p' v', p' ∈ products -> Schemas.rating p' = Some v' -> (v' <= v)%Q).
Proof.
  unfold SummarizerAgent._max_rating, SummarizerAgent.rated.
  pose proof (keyed_nil Schemas.rating products) as Hnil.
  pose proof (fun v p => keyed_elem Schemas.rating products v p) as Helem.
  destruct (omap _ products) as [|x l] eqn:E.
  - split; [split; [intros _; now apply Hnil | reflexivity] | discriminate].
  - split.
    + split; [discriminate|]. intros H. apply Hnil in H. discriminate.
    + intros p [= <-].
      destruct (max_by_first fst l [] x []) as (l1 & l2 & Heq & H1 & H2);
        try (intros y Hy; now apply elem_of_nil in Hy).
      simpl in Heq. set (r := SummarizerAgent.max_by fst x l) in *.
      assert (Hr : (fst r, snd r) ∈ x :: l).
      { rewrite Heq. destruct r. apply elem_of_app. right. apply elem_of_cons. now left. }
      apply Helem in Hr as [Hin Hrating]. split; [exact Hin|].
      exists (fst r). split; [exact Hrating|].
      intros p' v' Hp' Hv'.
      assert (Hy : (v', p') ∈ x :: l) by now apply Helem.
      rewrite Heq in Hy. apply elem_of_app in Hy as [Hy|Hy].
      * apply Qlt_le_weak. exact (H1 _ Hy).
      * apply elem_of_cons in Hy as [Hy|Hy]; [rewrite <- Hy; apply Qle_refl|].
        exact (H2 _ Hy).
Qed.

Lemma min_price_is_cheapest_witness :
  SummarizerAgent._min_price [shoe_a; shoe_b; shoe_c] = Some shoe_c /\
  shoe_c ∈ [shoe_a; shoe_b; shoe_c] /\
  exists v, Schemas.price shoe_c = Some v /\
    forall p' v', p' ∈ [shoe_a; shoe_b; shoe_c] -> Schemas.price p' = Some v' -> (v <= v')%Q.
Proof.
  assert (H : SummarizerAgent._min_price [shoe_a; shoe_b; shoe_c] = Some shoe_c)
    by reflexivity.
  split; [exact H|].
  exact (proj2 (min_price_is_cheapest [shoe_a; shoe_b; shoe_c]) shoe_c H).
Defined.

Lemma max_rating_is_best_witness :
  SummarizerAgent._max_rating [shoe_a; shoe_b; shoe_c] = Some shoe_c /\
  shoe_c ∈ [shoe_a; shoe_b; shoe_c] /\
  exists v, Schemas.rating shoe_c = Some v /\
    forall p' v', p' ∈ [shoe_a; shoe_b; shoe_c] -> Schemas.rating p' = Some v' -> (v' <= v)%Q.
Proof.
  assert (H : SummarizerAgent._max_rating [shoe_a; shoe_b; shoe_c] = Some shoe_c)
    by reflexivity.
  split; [exact H|].
  exact (proj2 (max_rating_is_best [shoe_a; shoe_b; shoe_c]) shoe_c H).
Defined.
